(** * Split UNO arbiter: a shallow embedding of the resolution engine

    The repository ships three generations of the command-line arbiter
    (the two-player listings of version 1 and version 2, and the N-player
    listing of version 3) and a browser game (app/js).  Each generation is
    embedded in a module of its own:

    - [V3]  the N-player arbiter, arbiter.cpp "Version 3.0";
    - [V2]  the two-player arbiter with validated input, "Version 2.0";
    - [V1]  the first two-player arbiter (no clamping anywhere);
    - [Web] the browser game: decks (app/js/deck.js), hands
            (app/js/player.js), and dealing, the number round, the block
            flag and the action switch of app/js/game.js.

    C++ [int] counters are modelled as [Z].  The one counter operation of
    version 3 whose operand is not bounded along plays is the steal
    ([players[i].numberCards++] with [players[targetIdx].numberCards--]):
    manual corrections can refill the victim's hand without end, so a
    thief's count can climb to the largest [int].  The steal is written
    with its wrap-around, [wrap32].  The other additions are left in [Z]:
    the pools start at 68 and 32 and only shrink, a draw adds what it takes
    from a pool, a hand gains from steals only in rounds its owner does not
    win alone, which deal from the number pool as long as it holds a card,
    and a streak is reset at 2.  The plays of versions 1 and 2 evaluated
    here keep every counter small.  Console input is modelled after
    validation: a handler takes the answers that [getValidatedInt],
    [getValidatedString] and [getValidatedPlayerIndex] would return. *)

From stdpp Require Import base list strings.
From Stdlib Require Import ZArith Lia.

Local Open Scope Z_scope.

(** A counted loop [for (size_t i = 0; i < n; ++i) body(i)]. *)
Definition for_loop {S : Type} (n : nat) (body : nat -> S -> S) (s : S) : S :=
  fold_left (fun acc i => body i acc) (seq 0 n) s.

(** The two counter cards, "+2" and "+4". *)
Inductive DrawKind := Plus2 | Plus4.

Definition drawAmount (k : DrawKind) : Z :=
  match k with Plus2 => 2 | Plus4 => 4 end.

(** The range of a C++ [int] (32 bits, two's complement). *)
Definition INT_MIN : Z := -2147483648.
Definition INT_MAX : Z := 2147483647.

(** The value an [int] holds after an operation whose exact result is [z]:
    [z] itself inside the range, wrapped around outside. *)
Definition wrap32 (z : Z) : Z := (z - INT_MIN) mod 4294967296 + INT_MIN.

Module V3.

(** ** Enumerations and structs *)

Inductive ActionType :=
| BLOCK | SKIP | REVERSE | COLOR_CHANGE | WILD
| DRAW_TWO | DRAW_FOUR | TRUTH | DARE | UNKNOWN.

Record Player := mkPlayer {
  name : string;
  numberCards : Z;
  actionCards : Z;
  consecutiveWins : Z;
  isBlocked : bool
}.

(** The constructor [Player(string n, int initialCards)]. *)
Definition newPlayer (n : string) (initialCards : Z) : Player :=
  mkPlayer n initialCards 0 0 false.

Definition INITIAL_CARDS : Z := 20.
Definition INITIAL_NUMBER_DECK : Z := 68.
Definition INITIAL_ACTION_DECK : Z := 32.
Definition CONSECUTIVE_WINS_THRESHOLD : Z := 2.
Definition MAX_CARD_NUMBER : Z := 9.
Definition MIN_CARD_NUMBER : Z := 0.
Definition CARD_7_NUMBER_DRAW : Z := 2.
Definition CARD_7_ACTION_DRAW : Z := 1.

Record Game := mkGame {
  players : list Player;
  numberDeckRemaining : Z;
  actionDeckRemaining : Z;
  gameOver : bool;
  winner : string
}.

(** Field assignments. *)
Definition set_numberCards (f : Z -> Z) (p : Player) : Player :=
  mkPlayer (name p) (f (numberCards p)) (actionCards p) (consecutiveWins p) (isBlocked p).
Definition set_actionCards (f : Z -> Z) (p : Player) : Player :=
  mkPlayer (name p) (numberCards p) (f (actionCards p)) (consecutiveWins p) (isBlocked p).
Definition set_consecutiveWins (f : Z -> Z) (p : Player) : Player :=
  mkPlayer (name p) (numberCards p) (actionCards p) (f (consecutiveWins p)) (isBlocked p).
Definition set_isBlocked (b : bool) (p : Player) : Player :=
  mkPlayer (name p) (numberCards p) (actionCards p) (consecutiveWins p) b.

Definition set_players (ps : list Player) (g : Game) : Game :=
  mkGame ps (numberDeckRemaining g) (actionDeckRemaining g) (gameOver g) (winner g).
Definition set_numberDeck (r : Z) (g : Game) : Game :=
  mkGame (players g) r (actionDeckRemaining g) (gameOver g) (winner g).
Definition set_actionDeck (r : Z) (g : Game) : Game :=
  mkGame (players g) (numberDeckRemaining g) r (gameOver g) (winner g).
Definition declareWinner (w : string) (g : Game) : Game :=
  mkGame (players g) (numberDeckRemaining g) (actionDeckRemaining g) true w.
Definition endGame (g : Game) : Game :=
  mkGame (players g) (numberDeckRemaining g) (actionDeckRemaining g) true (winner g).

(** [players[i].field = f(players[i].field)].  Every index the program uses
    comes out of [getValidatedPlayerIndex] or a loop over the vector, hence
    is in range; out of range the model leaves the vector as it is. *)
Definition upd (i : nat) (f : Player -> Player) (g : Game) : Game :=
  set_players (alter f i (players g)) g.

(** Reads of [players[i].field]. *)
Definition numberCardsAt (g : Game) (i : nat) : Z :=
  from_option numberCards 0 (players g !! i).
Definition actionCardsAt (g : Game) (i : nat) : Z :=
  from_option actionCards 0 (players g !! i).
Definition consecutiveWinsAt (g : Game) (i : nat) : Z :=
  from_option consecutiveWins 0 (players g !! i).
Definition isBlockedAt (g : Game) (i : nat) : bool :=
  from_option isBlocked false (players g !! i).
Definition nameAt (g : Game) (i : nat) : string :=
  from_option name EmptyString (players g !! i).

(** ** The deck *)

Definition drawFromNumberDeck (amount : Z) (g : Game) : Z * Game :=
  if numberDeckRemaining g <=? 0 then (0, g)
  else
    let actualDraw := Z.min amount (numberDeckRemaining g) in
    (actualDraw, set_numberDeck (numberDeckRemaining g - actualDraw) g).

Definition drawFromActionDeck (amount : Z) (g : Game) : Z * Game :=
  if actionDeckRemaining g <=? 0 then (0, g)
  else
    let actualDraw := Z.min amount (actionDeckRemaining g) in
    (actualDraw, set_actionDeck (actionDeckRemaining g - actualDraw) g).

(** [players[i].numberCards += drawFromNumberDeck(amount)]. *)
Definition drawNumberTo (i : nat) (amount : Z) (g : Game) : Game :=
  let '(drawn, g1) := drawFromNumberDeck amount g in
  upd i (set_numberCards (fun n => n + drawn)) g1.

(** [players[i].actionCards += drawFromActionDeck(amount)]. *)
Definition drawActionTo (i : nat) (amount : Z) (g : Game) : Game :=
  let '(drawn, g1) := drawFromActionDeck amount g in
  upd i (set_actionCards (fun n => n + drawn)) g1.

(** [x = max(0, x - 1)]. *)
Definition shed (x : Z) : Z := Z.max 0 (x - 1).


(** ** Number-card round *)

(** Answer to "Any challenges? (Y/N)", and on Y the challenger and the
    card named at "Challenge card (+2/+4)". *)
Inductive ChallengeResp :=
| NoChallenge
| Challenge (challengerIdx : nat) (cardType : DrawKind).

(** The answers the console gives during one number round.  Every prompt of
    the round is issued at most once per player, so the answers are indexed
    by the player the prompt is about. *)
Record RoundInput := mkRoundInput {
  cardOf : nat -> Z;               (* "Enter <name>'s card (0-9): " *)
  stealFrom : nat -> nat;          (* "Who to steal from?" *)
  penaltyTo : nat -> nat;          (* "Who draws penalty?" *)
  bonusChoice : nat -> Z;          (* "Choose: (1) ... OR (2) ..." *)
  challengeOf : nat -> ChallengeResp
}.

(** The locals of [handleNumberRound] after its first loop. *)
Record Plays := mkPlays {
  roundGame : Game;
  playedCards : list Z;
  maxCard : Z;
  winners : list nat
}.

Definition playedAt (pc : list Z) (i : nat) : Z := default 0 (pc !! i).

(** 1. Collect cards from all non-blocked players. *)
Definition collectBody (inp : RoundInput) (i : nat) (c : Plays) : Plays :=
  if isBlockedAt (roundGame c) i then
    mkPlays (upd i (set_isBlocked false) (roundGame c))
            (<[i := -1]> (playedCards c)) (maxCard c) (winners c)
  else
    let v := cardOf inp i in
    let pc := <[i := v]> (playedCards c) in
    if maxCard c <? v then mkPlays (roundGame c) pc v [i]
    else if v =? maxCard c then mkPlays (roundGame c) pc (maxCard c) (winners c ++ [i])
    else mkPlays (roundGame c) pc (maxCard c) (winners c).

Definition collectPlays (inp : RoundInput) (g : Game) : Plays :=
  let n := length (players g) in
  for_loop n (collectBody inp) (mkPlays g (replicate n 0) (-1) []).

(** The value-0 effect: steal one card from the nominated target.
    [numberCards++] and [numberCards--] are written with the wrap-around of
    [int]: the thief's count wraps at [INT_MAX]. *)
Definition stealCard (i targetIdx : nat) (g : Game) : Game :=
  if 0 <? numberCardsAt g targetIdx then
    upd targetIdx (set_numberCards (fun n => wrap32 (n - 1)))
      (upd i (set_numberCards (fun n => wrap32 (n + 1))) g)
  else g.

(** The value-7 effect: the nominated target draws 2 number cards and 1
    action card. *)
Definition penaltySeven (targetIdx : nat) (g : Game) : Game :=
  let '(numDrawn, g1) := drawFromNumberDeck CARD_7_NUMBER_DRAW g in
  let '(actDrawn, g2) := drawFromActionDeck CARD_7_ACTION_DRAW g1 in
  upd targetIdx (set_actionCards (fun n => n + actDrawn))
    (upd targetIdx (set_numberCards (fun n => n + numDrawn)) g2).

(** 2. Process special effects (0 and 7). *)
Definition effectsBody (inp : RoundInput) (pc : list Z) (i : nat) (g : Game) : Game :=
  let g1 := if playedAt pc i =? 0 then stealCard i (stealFrom inp i) g else g in
  if playedAt pc i =? 7 then penaltySeven (penaltyTo inp i) g1 else g1.

Definition processSpecialEffects (inp : RoundInput) (pc : list Z) (g : Game) : Game :=
  for_loop (length (players g)) (effectsBody inp pc) g.

(** 3. Resolve winner, the branch [winners.size() == 1]. *)
Definition loserBody (winnerIdx : nat) (pc : list Z) (i : nat) (g : Game) : Game :=
  if bool_decide (i ≠ winnerIdx) && negb (playedAt pc i =? -1) then
    drawNumberTo i 1 (upd i (set_consecutiveWins (fun _ => 0)) g)
  else g.

Definition resolveSingle (winnerIdx : nat) (pc : list Z) (g : Game) : Game :=
  let g1 := upd winnerIdx (set_numberCards shed) g in
  let g2 := upd winnerIdx (set_consecutiveWins (fun w => w + 1)) g1 in
  for_loop (length (players g2)) (loserBody winnerIdx pc) g2.

(** 3. Resolve winner, the tie branch. *)
Definition tieShed (g : Game) (w : nat) : Game :=
  upd w (set_consecutiveWins (fun _ => 0)) (upd w (set_numberCards shed) g).

Definition resolveTie (ws : list nat) (g : Game) : Game :=
  let g1 := fold_left tieShed ws g in
  for_loop (length (players g1)) (fun i g' => drawNumberTo i 1 g') g1.

(** ** Game flow logic *)

Definition bonusBody (inp : RoundInput) (i : nat) (g : Game) : Game :=
  if CONSECUTIVE_WINS_THRESHOLD <=? consecutiveWinsAt g i then
    let g1 :=
      if bonusChoice inp i =? 1 then drawActionTo i 1 g
      else
        for_loop (length (players g))
          (fun j g' =>
             if negb (String.eqb (nameAt g' j) (nameAt g' i))
             then drawNumberTo j 2 g' else g') g in
    upd i (set_consecutiveWins (fun _ => 0)) g1
  else g.

Definition checkConsecutiveWins (inp : RoundInput) (g : Game) : Game :=
  for_loop (length (players g)) (bonusBody inp) g.

Definition handleDrawChallenge (winnerIdx : nat) (r : ChallengeResp) (g : Game) : Game :=
  match r with
  | NoChallenge => declareWinner (nameAt g winnerIdx) g
  | Challenge challengerIdx cardType =>
      upd challengerIdx (set_actionCards shed)
        (drawNumberTo winnerIdx (drawAmount cardType) g)
  end.

(** The loop of [checkWinCondition], from the indices still to visit; it
    returns as soon as a challenge phase ends the game. *)
Fixpoint checkWinFrom (idxs : list nat) (resp : nat -> ChallengeResp) (g : Game) : Game :=
  match idxs with
  | [] => g
  | i :: rest =>
      if numberCardsAt g i =? 0 then
        let g1 := handleDrawChallenge i (resp i) g in
        if gameOver g1 then g1 else checkWinFrom rest resp g1
      else checkWinFrom rest resp g
  end.

Definition checkWinCondition (resp : nat -> ChallengeResp) (g : Game) : Game :=
  checkWinFrom (seq 0 (length (players g))) resp g.

Definition resolveWinner (inp : RoundInput) (c : Plays) (g : Game) : Game :=
  match winners c with
  | [] => g
  | [winnerIdx] =>
      checkWinCondition (challengeOf inp)
        (checkConsecutiveWins inp (resolveSingle winnerIdx (playedCards c) g))
  | ws =>
      checkWinCondition (challengeOf inp)
        (checkConsecutiveWins inp (resolveTie ws g))
  end.

Definition handleNumberRound (inp : RoundInput) (g : Game) : Game :=
  let c := collectPlays inp g in
  let g2 := processSpecialEffects inp (playedCards c) (roundGame c) in
  resolveWinner inp c g2.

(** ** Action card handlers *)

Definition parseActionType (actionStr : string) : ActionType :=
  if String.eqb actionStr "BLOCK" then BLOCK
  else if String.eqb actionStr "SKIP" then SKIP
  else if String.eqb actionStr "REVERSE" then REVERSE
  else if String.eqb actionStr "COLOR" then COLOR_CHANGE
  else if String.eqb actionStr "WILD" then WILD
  else if String.eqb actionStr "+2" then DRAW_TWO
  else if String.eqb actionStr "+4" then DRAW_FOUR
  else if String.eqb actionStr "TRUTH" then TRUTH
  else if String.eqb actionStr "DARE" then DARE
  else UNKNOWN.

(** [counter] is the answer to "Did <target> play a BLOCK to counter?". *)
Definition handleBlockCard (playerIdx targetIdx : nat) (counter : bool) (g : Game) : Game :=
  if counter then
    upd targetIdx (set_actionCards shed)
      (upd playerIdx (set_actionCards shed)
         (upd targetIdx (set_numberCards shed)
            (upd playerIdx (set_numberCards shed) g)))
  else
    upd playerIdx (set_actionCards shed)
      (upd targetIdx (set_isBlocked true) g).

(** [swap(players[a].numberCards, players[b].numberCards)]. *)
Definition swapNumberCards (a b : nat) (g : Game) : Game :=
  let na := numberCardsAt g a in
  let nb := numberCardsAt g b in
  upd b (set_numberCards (fun _ => na)) (upd a (set_numberCards (fun _ => nb)) g).

(** [swap(players[a].actionCards, players[b].actionCards)]. *)
Definition swapActionCards (a b : nat) (g : Game) : Game :=
  let xa := actionCardsAt g a in
  let xb := actionCardsAt g b in
  upd b (set_actionCards (fun _ => xa)) (upd a (set_actionCards (fun _ => xb)) g).

(** The body as it is written: two swaps, the decrement, and the two swaps
    again. *)
Definition handleReverseCard (playerIdx targetIdx : nat) (g : Game) : Game :=
  let g1 := swapNumberCards playerIdx targetIdx g in
  let g2 := swapActionCards playerIdx targetIdx g1 in
  let g3 := upd playerIdx (set_actionCards shed) g2 in
  let g4 := swapNumberCards playerIdx targetIdx g3 in
  swapActionCards playerIdx targetIdx g4.

(** The chosen colour is only printed. *)
Definition handleColorChangeCard (playerIdx : nat) (g : Game) : Game :=
  let g1 := for_loop (length (players g)) (fun i g' => upd i (set_numberCards shed) g') g in
  upd playerIdx (set_actionCards shed) g1.

(** [counter] is [None] when the target takes the hit, and the counter card
    otherwise. *)
Definition handleDrawCard (playerIdx : nat) (amount : Z) (targetIdx : nat)
    (counter : option DrawKind) (g : Game) : Game :=
  match counter with
  | Some oppCard =>
      let oppAmount := drawAmount oppCard in
      let diff := Z.abs (amount - oppAmount) in
      let loserDraw := 1 + diff in
      let g1 :=
        if oppAmount <? amount then drawNumberTo targetIdx loserDraw g
        else if amount <? oppAmount then drawNumberTo playerIdx loserDraw g
        else drawNumberTo targetIdx 1 (drawNumberTo playerIdx 1 g) in
      upd targetIdx (set_actionCards shed) (upd playerIdx (set_actionCards shed) g1)
  | None =>
      upd playerIdx (set_actionCards shed) (drawNumberTo targetIdx amount g)
  end.

(** [answered] is the answer to "Did <target> answer?"; [choice] the penalty
    chosen when the answer is no. *)
Definition handleTruthCard (playerIdx targetIdx : nat) (answered : bool) (choice : Z)
    (g : Game) : Game :=
  let g1 :=
    if answered then g
    else if choice =? 1 then drawNumberTo targetIdx 2 (drawActionTo playerIdx 2 g)
    else drawNumberTo targetIdx 5 g in
  upd playerIdx (set_numberCards shed) (upd playerIdx (set_actionCards shed) g1).

(** [completed] is the answer to "Did <target> complete the dare?". *)
Definition handleDareCard (playerIdx targetIdx : nat) (completed : bool) (g : Game) : Game :=
  if completed then
    upd playerIdx (set_numberCards shed) (upd playerIdx (set_actionCards shed) g)
  else declareWinner (nameAt g playerIdx) g.

(** The follow-up answers an action handler may ask for. *)
Record Answers := mkAnswers {
  targetIdx : nat;
  yes : bool;          (* the Y/N prompt of the handler *)
  oppCard : DrawKind;  (* "Enter counter card (+2/+4): " *)
  choice : Z           (* "Penalty Choice" *)
}.

Definition handleActionCard (playerIdx : nat) (actionStr : string) (a : Answers)
    (g : Game) : Game :=
  match parseActionType actionStr with
  | BLOCK | SKIP => handleBlockCard playerIdx (targetIdx a) (yes a) g
  | REVERSE => handleReverseCard playerIdx (targetIdx a) g
  | COLOR_CHANGE | WILD => handleColorChangeCard playerIdx g
  | DRAW_TWO =>
      handleDrawCard playerIdx 2 (targetIdx a) (if yes a then Some (oppCard a) else None) g
  | DRAW_FOUR =>
      handleDrawCard playerIdx 4 (targetIdx a) (if yes a then Some (oppCard a) else None) g
  | TRUTH => handleTruthCard playerIdx (targetIdx a) (yes a) (choice a) g
  | DARE => handleDareCard playerIdx (targetIdx a) (yes a) g
  | UNKNOWN => g
  end.

Definition manualAdjustment (pIdx : nat) (choice newCount : Z) (g : Game) : Game :=
  if choice =? 1 then upd pIdx (set_numberCards (fun _ => newCount)) g
  else if choice =? 2 then upd pIdx (set_actionCards (fun _ => newCount)) g
  else upd pIdx (set_consecutiveWins (fun _ => 0)) g.

(** ** The main loop *)

(** The constructor followed by [setupGame], which asks for two names. *)
Definition setupGame (name1 name2 : string) : Game :=
  mkGame [newPlayer name1 INITIAL_CARDS; newPlayer name2 INITIAL_CARDS]
         INITIAL_NUMBER_DECK INITIAL_ACTION_DECK false EmptyString.

(** One pass through the menu of [run]. *)
Inductive Command :=
| NumberRound (inp : RoundInput)
| ActionCard (playerIdx : nat) (actionStr : string) (a : Answers)
| DisplayState
| Adjust (pIdx : nat) (choice newCount : Z)
| EndGame.

Definition step (g : Game) (c : Command) : Game :=
  match c with
  | NumberRound inp => handleNumberRound inp g
  | ActionCard playerIdx actionStr a => handleActionCard playerIdx actionStr a g
  | DisplayState => g
  | Adjust pIdx choice newCount => manualAdjustment pIdx choice newCount g
  | EndGame => endGame g
  end.

(** [while (!gameOver) { ... }] over the commands typed in. *)
Fixpoint run (cs : list Command) (g : Game) : Game :=
  match cs with
  | [] => g
  | c :: rest => if gameOver g then g else run rest (step g c)
  end.

(** What the validation loops guarantee about the numbers typed in at the
    "New Count" prompt of [manualAdjustment]. *)
Definition validAdjust (choice newCount : Z) : Prop :=
  (choice = 1 -> 0 <= newCount <= 100) /\ (choice = 2 -> 0 <= newCount <= 50).

Definition validCommand (c : Command) : Prop :=
  match c with
  | Adjust _ choice newCount => validAdjust choice newCount
  | _ => True
  end.

(** States the main loop can be in, from a given start. *)
Inductive reachable (g0 : Game) : Game -> Prop :=
| reach_start : reachable g0 g0
| reach_step g c :
    reachable g0 g -> gameOver g = false -> validCommand c ->
    reachable g0 (step g c).

End V3.

(** * The two-player arbiters (versions 1 and 2)

    Both keep the same private members; the two listings differ in the
    bodies of the handlers. *)
Module TwoPlayer.

Inductive Who := PlayerA | PlayerB.

(** The text stored in [winner] / [lastWinner]. *)
Definition whoName (w : Who) : string :=
  match w with PlayerA => "A" | PlayerB => "B" end.

Record State := mkState {
  playerACards : Z;
  playerBCards : Z;
  playerAActionCards : Z;
  playerBActionCards : Z;
  consecutiveWinsA : Z;
  consecutiveWinsB : Z;
  lastWinner : string;
  playerABlocked : bool;
  playerBBlocked : bool;
  numberDeckRemaining : Z;
  actionDeckRemaining : Z;
  gameOver : bool;
  winner : string
}.

(** Member assignments. *)
Definition set_playerACards (v : Z) (s : State) : State :=
  mkState v (playerBCards s) (playerAActionCards s) (playerBActionCards s) (consecutiveWinsA s) (consecutiveWinsB s) (lastWinner s) (playerABlocked s) (playerBBlocked s) (numberDeckRemaining s) (actionDeckRemaining s) (gameOver s) (winner s).
Definition set_playerBCards (v : Z) (s : State) : State :=
  mkState (playerACards s) v (playerAActionCards s) (playerBActionCards s) (consecutiveWinsA s) (consecutiveWinsB s) (lastWinner s) (playerABlocked s) (playerBBlocked s) (numberDeckRemaining s) (actionDeckRemaining s) (gameOver s) (winner s).
Definition set_playerAActionCards (v : Z) (s : State) : State :=
  mkState (playerACards s) (playerBCards s) v (playerBActionCards s) (consecutiveWinsA s) (consecutiveWinsB s) (lastWinner s) (playerABlocked s) (playerBBlocked s) (numberDeckRemaining s) (actionDeckRemaining s) (gameOver s) (winner s).
Definition set_playerBActionCards (v : Z) (s : State) : State :=
  mkState (playerACards s) (playerBCards s) (playerAActionCards s) v (consecutiveWinsA s) (consecutiveWinsB s) (lastWinner s) (playerABlocked s) (playerBBlocked s) (numberDeckRemaining s) (actionDeckRemaining s) (gameOver s) (winner s).
Definition set_consecutiveWinsA (v : Z) (s : State) : State :=
  mkState (playerACards s) (playerBCards s) (playerAActionCards s) (playerBActionCards s) v (consecutiveWinsB s) (lastWinner s) (playerABlocked s) (playerBBlocked s) (numberDeckRemaining s) (actionDeckRemaining s) (gameOver s) (winner s).
Definition set_consecutiveWinsB (v : Z) (s : State) : State :=
  mkState (playerACards s) (playerBCards s) (playerAActionCards s) (playerBActionCards s) (consecutiveWinsA s) v (lastWinner s) (playerABlocked s) (playerBBlocked s) (numberDeckRemaining s) (actionDeckRemaining s) (gameOver s) (winner s).
Definition set_lastWinner (v : string) (s : State) : State :=
  mkState (playerACards s) (playerBCards s) (playerAActionCards s) (playerBActionCards s) (consecutiveWinsA s) (consecutiveWinsB s) v (playerABlocked s) (playerBBlocked s) (numberDeckRemaining s) (actionDeckRemaining s) (gameOver s) (winner s).
Definition set_playerABlocked (v : bool) (s : State) : State :=
  mkState (playerACards s) (playerBCards s) (playerAActionCards s) (playerBActionCards s) (consecutiveWinsA s) (consecutiveWinsB s) (lastWinner s) v (playerBBlocked s) (numberDeckRemaining s) (actionDeckRemaining s) (gameOver s) (winner s).
Definition set_playerBBlocked (v : bool) (s : State) : State :=
  mkState (playerACards s) (playerBCards s) (playerAActionCards s) (playerBActionCards s) (consecutiveWinsA s) (consecutiveWinsB s) (lastWinner s) (playerABlocked s) v (numberDeckRemaining s) (actionDeckRemaining s) (gameOver s) (winner s).
Definition set_numberDeckRemaining (v : Z) (s : State) : State :=
  mkState (playerACards s) (playerBCards s) (playerAActionCards s) (playerBActionCards s) (consecutiveWinsA s) (consecutiveWinsB s) (lastWinner s) (playerABlocked s) (playerBBlocked s) v (actionDeckRemaining s) (gameOver s) (winner s).
Definition set_actionDeckRemaining (v : Z) (s : State) : State :=
  mkState (playerACards s) (playerBCards s) (playerAActionCards s) (playerBActionCards s) (consecutiveWinsA s) (consecutiveWinsB s) (lastWinner s) (playerABlocked s) (playerBBlocked s) (numberDeckRemaining s) v (gameOver s) (winner s).
Definition set_gameOver (v : bool) (s : State) : State :=
  mkState (playerACards s) (playerBCards s) (playerAActionCards s) (playerBActionCards s) (consecutiveWinsA s) (consecutiveWinsB s) (lastWinner s) (playerABlocked s) (playerBBlocked s) (numberDeckRemaining s) (actionDeckRemaining s) v (winner s).
Definition set_winner (v : string) (s : State) : State :=
  mkState (playerACards s) (playerBCards s) (playerAActionCards s) (playerBActionCards s) (consecutiveWinsA s) (consecutiveWinsB s) (lastWinner s) (playerABlocked s) (playerBBlocked s) (numberDeckRemaining s) (actionDeckRemaining s) (gameOver s) v.

(** The constructor. *)
Definition initial : State :=
  mkState 20 20 0 0 0 0 EmptyString false false 68 32 false EmptyString.

(** Answer sequence of the challenge dialogue of [checkWinCondition]:
    no challenge, a challenge with the challenger's only card, or a
    challenge with the named card. *)
Inductive WinResp := NoChal | OnlyCard | Chal (cardType : DrawKind).

End TwoPlayer.

(** * Version 2.0: two players, validated input, clamped counters *)
Module V2.
Import TwoPlayer.

Definition CARD_7_NUMBER_DRAW : Z := 2.
Definition CARD_7_ACTION_DRAW : Z := 1.

Definition drawFromNumberDeck (amount : Z) (s : State) : Z * State :=
  if numberDeckRemaining s <=? 0 then (0, s)
  else
    let actualDraw := Z.min amount (numberDeckRemaining s) in
    (actualDraw, set_numberDeckRemaining (numberDeckRemaining s - actualDraw) s).

Definition drawFromActionDeck (amount : Z) (s : State) : Z * State :=
  if actionDeckRemaining s <=? 0 then (0, s)
  else
    let actualDraw := Z.min amount (actionDeckRemaining s) in
    (actualDraw, set_actionDeckRemaining (actionDeckRemaining s - actualDraw) s).

Definition processNumberCardEffects (numA numB : Z) (s : State) : State :=
  let s1 :=
    if (numA =? 0) && (0 <? playerBCards s) then
      set_playerBCards (playerBCards s - 1) (set_playerACards (playerACards s + 1) s)
    else s in
  let s2 :=
    if (numB =? 0) && (0 <? playerACards s1) then
      set_playerACards (playerACards s1 - 1) (set_playerBCards (playerBCards s1 + 1) s1)
    else s1 in
  let s3 :=
    if numA =? 7 then
      let '(numberDrawn, t1) := drawFromNumberDeck CARD_7_NUMBER_DRAW s2 in
      let '(actionDrawn, t2) := drawFromActionDeck CARD_7_ACTION_DRAW t1 in
      set_playerBActionCards (playerBActionCards t2 + actionDrawn)
        (set_playerBCards (playerBCards t2 + numberDrawn) t2)
    else s2 in
  if numB =? 7 then
    let '(numberDrawn, t1) := drawFromNumberDeck CARD_7_NUMBER_DRAW s3 in
    let '(actionDrawn, t2) := drawFromActionDeck CARD_7_ACTION_DRAW t1 in
    set_playerAActionCards (playerAActionCards t2 + actionDrawn)
      (set_playerACards (playerACards t2 + numberDrawn) t2)
  else s3.

(** [swap(playerACards, playerBCards); swap(playerAActionCards,
    playerBActionCards);] *)
Definition swapHands (s : State) : State :=
  let s1 := set_playerBCards (playerACards s) (set_playerACards (playerBCards s) s) in
  set_playerBActionCards (playerAActionCards s1)
    (set_playerAActionCards (playerBActionCards s1) s1).

Definition shedActionCard (w : Who) (s : State) : State :=
  match w with
  | PlayerA => set_playerAActionCards (Z.max 0 (playerAActionCards s - 1)) s
  | PlayerB => set_playerBActionCards (Z.max 0 (playerBActionCards s - 1)) s
  end.

Definition handleReverseCard (player : Who) (s : State) : State :=
  shedActionCard player (swapHands s).

(** [playerXCards += drawn] for the opponent of [w], resp. for [w]. *)
Definition addCardsTo (w : Who) (drawn : Z) (s : State) : State :=
  match w with
  | PlayerA => set_playerACards (playerACards s + drawn) s
  | PlayerB => set_playerBCards (playerBCards s + drawn) s
  end.

Definition opponent (w : Who) : Who :=
  match w with PlayerA => PlayerB | PlayerB => PlayerA end.

(** Both action counters are clamped down by one; the listing writes the
    two assignments in the order "own, other". *)
Definition bothShedAction (player : Who) (s : State) : State :=
  shedActionCard (opponent player) (shedActionCard player s).

Definition handleDrawCard (player : Who) (drawAmt : Z) (counter : option DrawKind)
    (s : State) : State :=
  match counter with
  | Some oppCard =>
      let oppDraw := drawAmount oppCard in
      if negb (drawAmt =? oppDraw) then
        let difference := Z.abs (drawAmt - oppDraw) in
        let loserDraw := 1 + difference in
        if oppDraw <? drawAmt then
          let '(drawn, s1) := drawFromNumberDeck loserDraw s in
          addCardsTo (opponent player) drawn (bothShedAction player s1)
        else
          let '(drawn, s1) := drawFromNumberDeck loserDraw s in
          addCardsTo player drawn (bothShedAction player s1)
      else
        let s1 := shedActionCard PlayerB (shedActionCard PlayerA s) in
        let '(drawnA, s2) := drawFromNumberDeck 1 s1 in
        let '(drawnB, s3) := drawFromNumberDeck 1 s2 in
        set_playerBCards (playerBCards s3 + drawnB)
          (set_playerACards (playerACards s3 + drawnA) s3)
  | None =>
      let '(drawn, s1) := drawFromNumberDeck drawAmt s in
      addCardsTo (opponent player) drawn (shedActionCard player s1)
  end.

End V2.

(** * Version 1: two players, raw input, no clamping *)
Module V1.
Import TwoPlayer.

(** The answers read during one number round. *)
Record RoundInput := mkRoundInput {
  numA : Z;
  numB : Z;
  bonusChoiceA : Z;
  bonusChoiceB : Z;
  challengeOnA : WinResp;   (* asked when A holds 0 cards *)
  challengeOnB : WinResp    (* asked when B holds 0 cards *)
}.

(** "Handle special effects first". *)
Definition specialEffects (nA nB : Z) (s : State) : State :=
  let s1 :=
    if nA =? 0 then
      set_playerBCards (playerBCards s - 1) (set_playerACards (playerACards s + 1) s)
    else s in
  let s2 :=
    if nB =? 0 then
      set_playerACards (playerACards s1 - 1) (set_playerBCards (playerBCards s1 + 1) s1)
    else s1 in
  let s3 :=
    if nA =? 7 then
      set_actionDeckRemaining (actionDeckRemaining s2 - 1)
        (set_numberDeckRemaining (numberDeckRemaining s2 - 2)
           (set_playerBActionCards (playerBActionCards s2 + 1)
              (set_playerBCards (playerBCards s2 + 2) s2)))
    else s2 in
  if nB =? 7 then
    set_actionDeckRemaining (actionDeckRemaining s3 - 1)
      (set_numberDeckRemaining (numberDeckRemaining s3 - 2)
         (set_playerAActionCards (playerAActionCards s3 + 1)
            (set_playerACards (playerACards s3 + 2) s3)))
  else s3.

(** The winner sheds, the loser draws; used by "Resolve the bid" and by
    [handleBlockedRound]. *)
Definition winsRound (w : Who) (s : State) : State :=
  match w with
  | PlayerA =>
      set_lastWinner "A"
        (set_consecutiveWinsB 0
           (set_consecutiveWinsA (consecutiveWinsA s + 1)
              (set_numberDeckRemaining (numberDeckRemaining s - 1)
                 (set_playerBCards (playerBCards s + 1)
                    (set_playerACards (playerACards s - 1) s)))))
  | PlayerB =>
      set_lastWinner "B"
        (set_consecutiveWinsA 0
           (set_consecutiveWinsB (consecutiveWinsB s + 1)
              (set_numberDeckRemaining (numberDeckRemaining s - 1)
                 (set_playerACards (playerACards s + 1)
                    (set_playerBCards (playerBCards s - 1) s)))))
  end.

Definition resolveBid (nA nB : Z) (s : State) : State :=
  if nB <? nA then winsRound PlayerA s
  else if nA <? nB then winsRound PlayerB s
  else
    (* shed, shed, draw, draw: the counts end where they started *)
    let s1 := set_playerACards (playerACards s - 1) s in
    let s2 := set_playerBCards (playerBCards s1 - 1) s1 in
    let s3 := set_playerACards (playerACards s2 + 1) s2 in
    let s4 := set_playerBCards (playerBCards s3 + 1) s3 in
    set_consecutiveWinsB 0 (set_consecutiveWinsA 0 s4).

Definition checkConsecutiveWins (inp : RoundInput) (s : State) : State :=
  let s1 :=
    if 2 <=? consecutiveWinsA s then
      set_consecutiveWinsA 0
        (if bonusChoiceA inp =? 1 then
           set_actionDeckRemaining (actionDeckRemaining s - 1)
             (set_playerAActionCards (playerAActionCards s + 1) s)
         else
           set_numberDeckRemaining (numberDeckRemaining s - 2)
             (set_playerBCards (playerBCards s + 2) s))
    else s in
  if 2 <=? consecutiveWinsB s1 then
    set_consecutiveWinsB 0
      (if bonusChoiceB inp =? 1 then
         set_actionDeckRemaining (actionDeckRemaining s1 - 1)
           (set_playerBActionCards (playerBActionCards s1 + 1) s1)
       else
         set_numberDeckRemaining (numberDeckRemaining s1 - 2)
           (set_playerACards (playerACards s1 + 2) s1))
  else s1.

Definition checkWinCondition (inp : RoundInput) (s : State) : State :=
  let s1 :=
    if playerACards s =? 0 then
      match challengeOnA inp with
      | OnlyCard =>
          set_numberDeckRemaining (numberDeckRemaining s - 1)
            (set_playerBCards (playerBCards s + 1) s)
      | Chal cardType =>
          set_numberDeckRemaining (numberDeckRemaining s - drawAmount cardType)
            (set_playerBActionCards (playerBActionCards s - 1)
               (set_playerACards (playerACards s + drawAmount cardType) s))
      | NoChal => set_winner "A" (set_gameOver true s)
      end
    else s in
  if playerBCards s1 =? 0 then
    match challengeOnB inp with
    | OnlyCard =>
        set_numberDeckRemaining (numberDeckRemaining s1 - 1)
          (set_playerACards (playerACards s1 + 1) s1)
    | Chal cardType =>
        set_numberDeckRemaining (numberDeckRemaining s1 - drawAmount cardType)
          (set_playerAActionCards (playerAActionCards s1 - 1)
             (set_playerBCards (playerBCards s1 + drawAmount cardType) s1))
    | NoChal => set_winner "B" (set_gameOver true s1)
    end
  else s1.

Definition handleBlockedRound (activePlayer : Who) (inp : RoundInput) (s : State) : State :=
  checkWinCondition inp (checkConsecutiveWins inp (winsRound activePlayer s)).

Definition handleNumberRound (inp : RoundInput) (s : State) : State :=
  if playerABlocked s then
    set_playerABlocked false (handleBlockedRound PlayerB inp s)
  else if playerBBlocked s then
    set_playerBBlocked false (handleBlockedRound PlayerA inp s)
  else
    checkWinCondition inp
      (checkConsecutiveWins inp
         (resolveBid (numA inp) (numB inp) (specialEffects (numA inp) (numB inp) s))).

Definition handleBlockCard (player : Who) (opponentPlayedBlock : bool) (s : State) : State :=
  if opponentPlayedBlock then
    set_playerBActionCards (playerBActionCards s - 1)
      (set_playerAActionCards (playerAActionCards s - 1)
         (set_playerBCards (playerBCards s - 1)
            (set_playerACards (playerACards s - 1) s)))
  else
    match player with
    | PlayerA =>
        set_playerAActionCards (playerAActionCards s - 1) (set_playerBBlocked true s)
    | PlayerB =>
        set_playerBActionCards (playerBActionCards s - 1) (set_playerABlocked true s)
    end.

Definition handleReverseCard (player : Who) (s : State) : State :=
  let s1 := V2.swapHands s in
  match player with
  | PlayerA => set_playerAActionCards (playerAActionCards s1 - 1) s1
  | PlayerB => set_playerBActionCards (playerBActionCards s1 - 1) s1
  end.

Definition handleDareCard (player : Who) (completed : bool) (s : State) : State :=
  if completed then
    match player with
    | PlayerA =>
        set_playerACards (playerACards s - 1)
          (set_playerAActionCards (playerAActionCards s - 1) s)
    | PlayerB =>
        set_playerBCards (playerBCards s - 1)
          (set_playerBActionCards (playerBActionCards s - 1) s)
    end
  else set_winner (whoName player) (set_gameOver true s).

(** The menu entries of [run] that are embedded here. *)
Inductive Command :=
| NumberRound (inp : RoundInput)
| PlayBlock (player : Who) (opponentPlayedBlock : bool)
| PlayReverse (player : Who)
| PlayDare (player : Who) (completed : bool).

Definition step (s : State) (c : Command) : State :=
  match c with
  | NumberRound inp => handleNumberRound inp s
  | PlayBlock p o => handleBlockCard p o s
  | PlayReverse p => handleReverseCard p s
  | PlayDare p d => handleDareCard p d s
  end.

Fixpoint run (cs : list Command) (s : State) : State :=
  match cs with
  | [] => s
  | c :: rest => if gameOver s then s else run rest (step s c)
  end.

End V1.

(** * The browser game (app/js): decks of cards, the block flag

    Timer callbacks ([setTimeout]) are run in the order they are scheduled;
    calls into the UI object only render and are left out. *)
Module Web.

Inductive CardType := NumberCard | ActionCard.

Inductive CardValue :=
| Num (n : Z) | Block | Reverse | Draw2 | Wild | WildDraw4 | Truth | Dare.

Record Card := mkCard {
  type : CardType;
  color : string;
  value : CardValue;
  id : string
}.

(** deck.js *)
Record Deck := mkDeck { deckType : CardType; cards : list Card }.

(** [draw() { return this.cards.pop(); }]: the last card, or [undefined]
    ([None]) on an empty array, which [pop] leaves empty. *)
Definition draw (d : Deck) : option Card * Deck :=
  (last (cards d), mkDeck (deckType d) (removelast (cards d))).

Definition count (d : Deck) : nat := length (cards d).

(** player.js *)
Record Player := mkPlayer {
  name : string;
  isAI : bool;
  numberHand : list Card;
  actionHand : list Card;
  consecutiveWins : Z;
  isBlocked : bool
}.

Definition set_isBlocked (b : bool) (p : Player) : Player :=
  mkPlayer (name p) (isAI p) (numberHand p) (actionHand p) (consecutiveWins p) b.
Definition set_hands (nh ah : list Card) (p : Player) : Player :=
  mkPlayer (name p) (isAI p) nh ah (consecutiveWins p) (isBlocked p).

Definition numberCount (p : Player) : nat := length (numberHand p).
Definition actionCount (p : Player) : nat := length (actionHand p).

Inductive GameState := MENU | PLAY_NUMBER | RESOLVE_NUMBER | PLAY_ACTION | GAME_OVER.

(** game.js; [currentPhase] is not read by the methods embedded here. *)
Record Game := mkGame {
  numberDeck : Deck;
  actionDeck : Deck;
  player : Player;
  ai : Player;
  roundCount : Z;
  state : GameState;
  tempPlayedPlayer : option Card;
  tempPlayedAi : option Card
}.

Inductive Side := Human | Computer.

Definition other (s : Side) : Side :=
  match s with Human => Computer | Computer => Human end.

Definition sideOf (g : Game) (s : Side) : Player :=
  match s with Human => player g | Computer => ai g end.

Definition set_side (s : Side) (p : Player) (g : Game) : Game :=
  match s with
  | Human => mkGame (numberDeck g) (actionDeck g) p (ai g) (roundCount g) (state g)
               (tempPlayedPlayer g) (tempPlayedAi g)
  | Computer => mkGame (numberDeck g) (actionDeck g) (player g) p (roundCount g) (state g)
               (tempPlayedPlayer g) (tempPlayedAi g)
  end.

Definition deckOf (g : Game) (t : CardType) : Deck :=
  match t with NumberCard => numberDeck g | ActionCard => actionDeck g end.

Definition set_deck (t : CardType) (d : Deck) (g : Game) : Game :=
  match t with
  | NumberCard => mkGame d (actionDeck g) (player g) (ai g) (roundCount g) (state g)
                    (tempPlayedPlayer g) (tempPlayedAi g)
  | ActionCard => mkGame (numberDeck g) d (player g) (ai g) (roundCount g) (state g)
                    (tempPlayedPlayer g) (tempPlayedAi g)
  end.

Definition set_tempPlayedAi (c : option Card) (g : Game) : Game :=
  mkGame (numberDeck g) (actionDeck g) (player g) (ai g) (roundCount g) (state g)
         (tempPlayedPlayer g) c.

Definition set_roundCount (n : Z) (g : Game) : Game :=
  mkGame (numberDeck g) (actionDeck g) (player g) (ai g) n (state g)
         (tempPlayedPlayer g) (tempPlayedAi g).

Section Engine.

(** [Player.sortHand]: orders a hand by colour ([localeCompare]) and value;
    the engine only relies on it returning the same cards. *)
Variable sortHand : list Card -> list Card.

Definition addCard (c : Card) (p : Player) : Player :=
  match type c with
  | NumberCard => set_hands (sortHand (numberHand p ++ [c])) (actionHand p) p
  | ActionCard => set_hands (numberHand p) (sortHand (actionHand p ++ [c])) p
  end.

(** [drawCards(player, count, type)]: stops at the first empty deck. *)
Fixpoint drawCards (who : Side) (n : nat) (t : CardType) (g : Game) : Game :=
  match n with
  | O => g
  | S k =>
      if Nat.eqb (count (deckOf g t)) 0 then g
      else
        match draw (deckOf g t) with
        | (Some c, d) => drawCards who k t (set_side who (addCard c (sideOf g who)) (set_deck t d g))
        | (None, d) => g
        end
  end.

(** The [switch] of [resolveAction(user, target, card)]; the target is the
    other side. *)
Definition applyAction (user : Side) (card : Card) (g : Game) : Game :=
  let target := other user in
  match value card with
  | Block => set_side target (set_isBlocked true (sideOf g target)) g
  | Draw2 => drawCards target 2 NumberCard g
  | WildDraw4 => drawCards target 4 NumberCard g
  | Wild => g
  | Reverse =>
      let u := sideOf g user in
      let t := sideOf g target in
      set_side target (set_hands (numberHand u) (actionHand u) t)
        (set_side user (set_hands (numberHand t) (actionHand t) u) g)
  | Truth | Dare =>
      let u := sideOf g user in
      if Nat.ltb 0 (length (numberHand u))
      then set_side user (set_hands (removelast (numberHand u)) (actionHand u) u) g
      else g
  | Num _ => g
  end.

(** [endRound] up to its call of [startRound]. *)
Definition endRoundReset (g : Game) : Game :=
  set_roundCount (roundCount g + 1)
    (set_side Computer (set_isBlocked false (ai g))
       (set_side Human (set_isBlocked false (player g)) g)).

(** [startRound] when not both players are blocked, up to the point where it
    waits for the player's card or calls [resolveRound]; [aiChoice] is what
    [ai.chooseNumberCard] returns. *)
Definition startRoundPlay (aiChoice : option Card) (g : Game) : Game :=
  if negb (isBlocked (ai g)) then set_tempPlayedAi aiChoice g
  else set_tempPlayedAi None g.

(** [startRound]: with both players blocked it clears the flags and calls
    [endRound], whose [startRound] then finds no flag set. *)
Definition startRound (aiChoice : option Card) (g : Game) : Game :=
  if isBlocked (player g) && isBlocked (ai g) then
    startRoundPlay aiChoice
      (endRoundReset
         (set_side Computer (set_isBlocked false (ai g))
            (set_side Human (set_isBlocked false (player g)) g)))
  else startRoundPlay aiChoice g.

Definition endRound (aiChoice : option Card) (g : Game) : Game :=
  startRound aiChoice (endRoundReset g).

(** [resolveAction]: the switch, then [endRound] unless the game is over. *)
Definition resolveAction (user : Side) (card : Card) (aiChoice : option Card)
    (g : Game) : Game :=
  let g1 := applyAction user card g in
  match state g1 with
  | GAME_OVER => g1
  | _ => endRound aiChoice g1
  end.

End Engine.

(** ** deck.js: building and shuffling a deck *)

Definition colors : list string := ["red"; "blue"; "green"; "yellow"].

(** [this.cards.push(new Card(t, color, v, this.generateId()))].
    [generateId] returns a random string: [ids k] stands for the one made
    for the card pushed at position [k]. *)
Definition push (ids : nat -> string) (t : CardType) (c : string) (v : CardValue)
    (l : list Card) : list Card :=
  l ++ [mkCard t c v (ids (length l))].

(** One colour of the number deck: a 0, then two each of 1 to 9. *)
Definition numberCardsFor (ids : nat -> string) (l : list Card) (c : string) : list Card :=
  fold_left
    (fun acc i => push ids NumberCard c (Num i) (push ids NumberCard c (Num i) acc))
    (Z.of_nat <$> seq 1 9)
    (push ids NumberCard c (Num 0) l).

(** One colour of the action deck: twice block, reverse, draw2. *)
Definition actionCardsFor (ids : nat -> string) (l : list Card) (c : string) : list Card :=
  for_loop 2
    (fun _ acc =>
       push ids ActionCard c Draw2
         (push ids ActionCard c Reverse (push ids ActionCard c Block acc))) l.

Definition wildCards (ids : nat -> string) (l : list Card) : list Card :=
  for_loop 4
    (fun _ acc =>
       push ids ActionCard "wild" WildDraw4 (push ids ActionCard "wild" Wild acc)) l.

(** [[cards[i], cards[j]] = [cards[j], cards[i]]]. *)
Definition swapAt (i j : nat) (l : list Card) : list Card :=
  match l !! i, l !! j with
  | Some ci, Some cj => <[j := ci]> (<[i := cj]> l)
  | _, _ => l
  end.

(** [shuffle]: [rnd i] stands for [Math.floor(Math.random() * (i + 1))], a
    number from 0 to [i], drawn at step [i]; [i] runs from the last index
    down to 1. *)
Definition shuffle (rnd : nat -> nat) (l : list Card) : list Card :=
  fold_left (fun acc i => swapAt i (rnd i) acc) (rev (seq 1 (length l - 1))) l.

(** [new Deck(type)], that is [reset]. *)
Definition reset (t : CardType) (ids : nat -> string) (rnd : nat -> nat) : Deck :=
  mkDeck t
    (shuffle rnd
       match t with
       | NumberCard => fold_left (numberCardsFor ids) colors []
       | ActionCard => wildCards ids (fold_left (actionCardsFor ids) colors [])
       end).

(** ** player.js: a new player, and taking a card out of a hand *)

Definition newPlayer (name : string) (isAI : bool) : Player :=
  mkPlayer name isAI [] [] 0 false.

Definition set_consecutiveWins (w : Z) (p : Player) : Player :=
  mkPlayer (name p) (isAI p) (numberHand p) (actionHand p) w (isBlocked p).

(** [removeCard(cardId)]: the first card with that id in the number hand,
    else the first one in the action hand, else [null]. *)
Definition removeCard (cardId : string) (p : Player) : option Card * Player :=
  match list_find (fun c => id c = cardId) (numberHand p) with
  | Some (i, c) => (Some c, set_hands (delete i (numberHand p)) (actionHand p) p)
  | None =>
      match list_find (fun c => id c = cardId) (actionHand p) with
      | Some (i, c) => (Some c, set_hands (numberHand p) (delete i (actionHand p)) p)
      | None => (None, p)
      end
  end.

(** ** game.js: a new game and the number round *)

(** The constructor of [Game]. *)
Definition newGame (idsN : nat -> string) (rndN : nat -> nat)
    (idsA : nat -> string) (rndA : nat -> nat) : Game :=
  mkGame (reset NumberCard idsN rndN) (reset ActionCard idsA rndA)
    (newPlayer "Player" false) (newPlayer "AI" true) 0 MENU None None.

Definition set_state (s : GameState) (g : Game) : Game :=
  mkGame (numberDeck g) (actionDeck g) (player g) (ai g) (roundCount g) s
         (tempPlayedPlayer g) (tempPlayedAi g).

Definition set_tempPlayedPlayer (c : option Card) (g : Game) : Game :=
  mkGame (numberDeck g) (actionDeck g) (player g) (ai g) (roundCount g) (state g)
         c (tempPlayedAi g).

Inductive Phase := PLAYER_ACTION | AI_ACTION | NONE.

(** The game with the two things the round also writes: [currentPhase]
    ([null] at first) and the winner handed to [ui.showGameOver]. *)
Record Table := mkTable {
  game : Game;
  currentPhase : option Phase;
  shownWinner : option Side
}.

Definition set_game (g : Game) (t : Table) : Table :=
  mkTable g (currentPhase t) (shownWinner t).

(** [card && card.value === n]. *)
Definition playedNumber (n : Z) (c : option Card) : bool :=
  match c with
  | Some c => match value c with Num m => m =? n | _ => false end
  | None => false
  end.

(** The text of a value that is not a number. *)
Definition valueText (v : CardValue) : string :=
  match v with
  | Num _ => EmptyString
  | Block => "block"
  | Reverse => "reverse"
  | Draw2 => "draw2"
  | Wild => "wild"
  | WildDraw4 => "wild_draw4"
  | Truth => "truth"
  | Dare => "dare"
  end.

(** [a > b] on card values: numbers by size; a word against a number is
    never greater (the word converts to NaN); two words by their text. *)
Definition jsGreater (a b : CardValue) : bool :=
  match a, b with
  | Num x, Num y => y <? x
  | Num _, _ | _, Num _ => false
  | _, _ => String.ltb (valueText b) (valueText a)
  end.

Inductive RoundWinner := WinPlayer | WinAi | WinTie | WinNone.

(** "Determine Winner" in [resolveRound]. *)
Definition determineWinner (pCard aiCard : option Card) : RoundWinner :=
  match pCard, aiCard with
  | Some _, None => WinPlayer
  | None, Some _ => WinAi
  | Some p, Some a =>
      if jsGreater (value p) (value a) then WinPlayer
      else if jsGreater (value a) (value p) then WinAi
      else WinTie
  | None, None => WinNone
  end.

Section Round.

Variable sortHand : list Card -> list Card.

(** [dealInitialCards]: [addCard(undefined)] throws once the deck is empty. *)
Definition dealTo (who : Side) (g : Game) : option Game :=
  match draw (numberDeck g) with
  | (Some c, d) =>
      Some (set_side who (addCard sortHand c (sideOf g who)) (set_deck NumberCard d g))
  | (None, _) => None
  end.

Fixpoint dealRounds (n : nat) (g : Game) : option Game :=
  match n with
  | O => Some g
  | S k =>
      match dealTo Human g with
      | Some g1 =>
          match dealTo Computer g1 with
          | Some g2 => dealRounds k g2
          | None => None
          end
      | None => None
      end
  end.

Definition dealInitialCards (g : Game) : option Game := dealRounds 20 g.

(** [start], up to the point where the first round waits for the player;
    [aiChoice] is what [ai.chooseNumberCard] returns. *)
Definition start (aiChoice : option Card) (g : Game) : option Game :=
  match dealInitialCards (set_roundCount 1 (set_state PLAY_NUMBER g)) with
  | Some g1 => Some (startRound aiChoice g1)
  | None => None
  end.

(** [handleSteal(thief, victim)], the victim being the other side; [pick]
    stands for the random number, the index taken is in range. *)
Definition handleSteal (thief : Side) (pick : nat) (g : Game) : Game :=
  let victim := other thief in
  let hand := numberHand (sideOf g victim) in
  if (0 <? length hand)%nat then
    match hand !! (pick mod length hand)%nat with
    | Some c =>
        let v := sideOf g victim in
        let g1 := set_side victim
                    (set_hands (delete (pick mod length hand)%nat hand) (actionHand v) v) g in
        set_side thief (addCard sortHand c (sideOf g1 thief)) g1
    | None => g
    end
  else g.

Definition handlePenalty7 (victim : Side) (g : Game) : Game :=
  drawCards sortHand victim 1 ActionCard (drawCards sortHand victim 2 NumberCard g).

(** The loser keeps the played card and draws one. *)
Definition returnAndDraw (who : Side) (c : option Card) (g : Game) : Game :=
  match c with
  | Some c =>
      drawCards sortHand who 1 NumberCard
        (set_side who (addCard sortHand c (sideOf g who)) g)
  | None => g
  end.

Definition set_wins (who : Side) (w : Z) (g : Game) : Game :=
  set_side who (set_consecutiveWins w (sideOf g who)) g.

Definition bonusFor (who : Side) (g : Game) : Game :=
  if 2 <=? consecutiveWins (sideOf g who)
  then set_wins who 0 (drawCards sortHand who 1 ActionCard g)
  else g.

Definition checkConsecutiveWins (g : Game) : Game :=
  bonusFor Computer (bonusFor Human g).

Definition endGame (who : Side) (t : Table) : Table :=
  mkTable (set_state GAME_OVER (game t)) (currentPhase t) (Some who).

Definition checkWinCondition (t : Table) : Table :=
  if Nat.eqb (numberCount (player (game t))) 0 then endGame Human t
  else if Nat.eqb (numberCount (ai (game t))) 0 then endGame Computer t
  else t.

(** [applyRoundResult], up to the timer that starts the action phase. *)
Definition applyRoundResult (w : RoundWinner) (pCard aiCard : option Card)
    (t : Table) : Table :=
  let g := game t in
  let t1 :=
    match w with
    | WinPlayer =>
        let g1 := returnAndDraw Computer aiCard g in
        let g2 := set_wins Human (consecutiveWins (player g1) + 1) g1 in
        mkTable (set_wins Computer 0 g2) (Some PLAYER_ACTION) (shownWinner t)
    | WinAi =>
        let g1 := returnAndDraw Human pCard g in
        let g2 := set_wins Computer (consecutiveWins (ai g1) + 1) g1 in
        mkTable (set_wins Human 0 g2) (Some AI_ACTION) (shownWinner t)
    | WinTie =>
        let g1 := drawCards sortHand Human 1 NumberCard g in
        let g2 := drawCards sortHand Computer 1 NumberCard g1 in
        mkTable (set_wins Computer 0 (set_wins Human 0 g2)) (Some NONE) (shownWinner t)
    | WinNone => t
    end in
  checkWinCondition (set_game (checkConsecutiveWins (game t1)) t1).

(** [resolveRound]; [pick1] and [pick2] are the random numbers of the two
    steals. *)
Definition resolveRound (pick1 pick2 : nat) (t : Table) : Table :=
  let g := game t in
  let pCard := tempPlayedPlayer g in
  let aiCard := tempPlayedAi g in
  let g1 := if playedNumber 0 pCard then handleSteal Human pick1 g else g in
  let g2 := if playedNumber 0 aiCard then handleSteal Computer pick2 g1 else g1 in
  let g3 := if playedNumber 7 pCard then handlePenalty7 Computer g2 else g2 in
  let g4 := if playedNumber 7 aiCard then handlePenalty7 Human g3 else g3 in
  applyRoundResult (determineWinner pCard aiCard) pCard aiCard (set_game g4 t).

(** [playNumberCard(cardId)]. *)
Definition playNumberCard (cardId : string) (pick1 pick2 : nat) (t : Table) : Table :=
  let g := game t in
  let (card, p) := removeCard cardId (player g) in
  resolveRound pick1 pick2 (set_game (set_tempPlayedPlayer card (set_side Human p g)) t).

End Round.

End Web.

(** * Vocabulary of the statements *)
Module Spec.

(** The amount handed out by a draw, in closed form. *)
Definition dealt (amount remaining : Z) : Z :=
  if remaining <=? 0 then 0 else Z.min amount remaining.

(** A clamped draw of [n] from a pool holding [r]: [d] cards are handed out
    and [r'] remain. *)
Definition clampedDraw (n r d r' : Z) : Prop :=
  d = Z.min n r /\ r' = r - d /\ 0 <= r' /\ (r = 0 -> d = 0).

(** Every counter of an N-player game is non-negative. *)
Definition nonneg (g : V3.Game) : Prop :=
  Forall (fun p => 0 <= V3.numberCards p /\ 0 <= V3.actionCards p) (V3.players g)
  /\ 0 <= V3.numberDeckRemaining g /\ 0 <= V3.actionDeckRemaining g.

(** Neither pool of [g'] holds more than it does in [g]. *)
Definition decksLe (g' g : V3.Game) : Prop :=
  V3.numberDeckRemaining g' <= V3.numberDeckRemaining g
  /\ V3.actionDeckRemaining g' <= V3.actionDeckRemaining g.

(** Sum of the number cards in all hands. *)
Definition handTotal (g : V3.Game) : Z :=
  foldr Z.add 0 (V3.numberCards <$> V3.players g).

(** ** Concrete games used as examples *)

(** A two-player round in which player 0 plays 7 against player 1, who
    plays 3; nobody is asked anything else. *)
Definition sevenBeatsThree : V3.RoundInput :=
  V3.mkRoundInput (fun i => if Nat.eqb i 0 then 7 else 3)
    (fun i => (1 - i)%nat) (fun i => (1 - i)%nat)
    (fun _ => 1) (fun _ => V3.NoChallenge).

(** The game "A" against "B" after that first round: A holds 19 number
    cards, B holds 23 number cards and 1 action card. *)
Definition afterFirstRound : V3.Game :=
  V3.step (V3.setupGame "A" "B") (V3.NumberRound sevenBeatsThree).

(** The same position in the two-player arbiters. *)
Definition afterFirstRound2 : TwoPlayer.State :=
  TwoPlayer.mkState 19 23 0 1 1 0 "A" false false 65 31 false EmptyString.

(** Per-player readers of the two-player state. *)
Definition cardsOf (w : TwoPlayer.Who) (s : TwoPlayer.State) : Z :=
  match w with
  | TwoPlayer.PlayerA => TwoPlayer.playerACards s
  | TwoPlayer.PlayerB => TwoPlayer.playerBCards s
  end.

Definition actionCardsOf (w : TwoPlayer.Who) (s : TwoPlayer.State) : Z :=
  match w with
  | TwoPlayer.PlayerA => TwoPlayer.playerAActionCards s
  | TwoPlayer.PlayerB => TwoPlayer.playerBActionCards s
  end.

(** A position in which both players hold action cards. *)
Definition midGame : V3.Game :=
  V3.mkGame [V3.mkPlayer "A" 5 1 0 false; V3.mkPlayer "B" 7 2 0 false] 10 4 false EmptyString.

Definition midGame2 : TwoPlayer.State :=
  TwoPlayer.mkState 5 7 1 2 0 0 EmptyString false false 10 4 false EmptyString.

(** The loser and the winner of an unequal +2/+4 exchange: the smaller card
    loses. *)
Definition loserOf {A} (N N' : DrawKind) (actor target : A) : A :=
  if drawAmount N <? drawAmount N' then actor else target.
Definition winnerOf {A} (N N' : DrawKind) (actor target : A) : A :=
  if drawAmount N <? drawAmount N' then target else actor.

(** Version 1: twenty rounds won by B (a 7 first, then 9s against A's 1s);
    every bonus is taken as an action card, and when B reaches 0 cards A
    answers the challenge prompt with an only card, which keeps the game
    going with B at 0 cards. *)
Definition v1Round (a b : Z) (onB : TwoPlayer.WinResp) : V1.Command :=
  V1.NumberRound (V1.mkRoundInput a b 1 1 TwoPlayer.NoChal onB).

Definition bWinsTwenty : list V1.Command :=
  v1Round 1 7 TwoPlayer.NoChal
  :: repeat (v1Round 1 9 TwoPlayer.NoChal) 18
  ++ [v1Round 1 9 TwoPlayer.OnlyCard].

(** What holds of the counters whatever is played: no number count below
    the range of [int], no negative action count, no negative pool. *)
Definition sane (g : V3.Game) : Prop :=
  Forall (fun p => INT_MIN <= V3.numberCards p /\ 0 <= V3.actionCards p) (V3.players g)
  /\ 0 <= V3.numberDeckRemaining g /\ 0 <= V3.actionDeckRemaining g.

(** [g'] is a later state of the game [g]: the same players by name, no
    pool larger than before, and [sane] if [g] was. *)
Definition evolves (g g' : V3.Game) : Prop :=
  (sane g -> sane g')
  /\ decksLe g' g
  /\ V3.name <$> V3.players g' = V3.name <$> V3.players g.

(** ** The number round in the words of the rules *)

(** The players among the first [k] who are not blocked when the round
    begins. *)
Definition participants (g : V3.Game) (k : nat) : list nat :=
  filter (fun i => V3.isBlockedAt g i = false) (seq 0 k).

(** The highest declared value among them ([-1] when there is none). *)
Definition highest (inp : V3.RoundInput) (g : V3.Game) (k : nat) : Z :=
  fold_left Z.max (V3.cardOf inp <$> participants g k) (-1).

(** The participants who declared the highest value. *)
Definition tied (inp : V3.RoundInput) (g : V3.Game) (k : nat) : list nat :=
  filter (fun i => V3.cardOf inp i = highest inp g k) (participants g k).

(** What a player contributes to the round: the declared card, or the
    marker [-1] for a blocked player. *)
Definition declared (inp : V3.RoundInput) (g : V3.Game) (i : nat) : Z :=
  if V3.isBlockedAt g i then -1 else V3.cardOf inp i.

(** The card a player receives in the draw loop of a tie: the players draw
    one card each in player order from a pool holding [r]. *)
Definition tieDraw (r : Z) (i : nat) : Z :=
  if Z.of_nat i <? r then 1 else 0.

(** The pool after [k] such draws. *)
Definition afterDraws (r : Z) (k : nat) : Z :=
  r - Z.max 0 (Z.min (Z.of_nat k) r).

(** The player vector once the first [k] players have passed the collecting
    loop: their block flags are down. *)
Definition unblockFirst (k : nat) (l : list V3.Player) : list V3.Player :=
  imap (fun j p => if (j <? k)%nat then V3.set_isBlocked false p else p) l.

(** [playedCards] at that point: filled in up to [k], zero beyond. *)
Definition playedPrefix (inp : V3.RoundInput) (g : V3.Game) (k : nat) : list Z :=
  (fun j => if (j <? k)%nat then declared inp g j else 0)
    <$> seq 0 (length (V3.players g)).



(** Three players; "A" has blocked "C" with an uncountered BLOCK card. *)
Definition threeHanded : V3.Game :=
  V3.handleActionCard 0 "BLOCK" (V3.mkAnswers 2 false Plus2 1)
    (V3.mkGame [V3.newPlayer "A" 20; V3.newPlayer "B" 20; V3.newPlayer "C" 20]
               68 32 false EmptyString).

(** Everybody who may play declares a 9; no bonus, no challenge. *)
Definition allPlayNine : V3.RoundInput :=
  V3.mkRoundInput (fun _ => 9) (fun _ => 0%nat) (fun _ => 0%nat)
    (fun _ => 1) (fun _ => V3.NoChallenge).

(** "A" has shed the last number card while the number deck is exhausted;
    "B" holds one action card. *)
Definition lastCard : V3.Game :=
  V3.mkGame [V3.mkPlayer "A" 0 0 0 false; V3.mkPlayer "B" 7 1 0 false]
            0 4 false EmptyString.

(** ** A position of the browser game *)

Definition blockCard : Web.Card := Web.mkCard Web.ActionCard "red" Web.Block "b1".
Definition nineCard : Web.Card := Web.mkCard Web.NumberCard "blue" (Web.Num 9) "n9".
Definition fiveCard : Web.Card := Web.mkCard Web.NumberCard "red" (Web.Num 5) "n5".
Definition twoCard : Web.Card := Web.mkCard Web.NumberCard "green" (Web.Num 2) "n2".

(** Round 3, action phase: the human has just taken the BLOCK card from the
    hand to play it against the AI; nobody is blocked. *)
Definition webActionPhase : Web.Game :=
  Web.mkGame (Web.mkDeck Web.NumberCard [twoCard]) (Web.mkDeck Web.ActionCard [])
    (Web.mkPlayer "Player" false [fiveCard] [] 1 false)
    (Web.mkPlayer "AI" true [nineCard] [] 0 false)
    3 Web.PLAY_ACTION None None.

(** Version 1: eighteen rounds in which A's 7 loses to B's 9 and every
    bonus is taken as "opponent draws 2". *)
Definition sevensAgainstNines : list V1.Command :=
  repeat (V1.NumberRound (V1.mkRoundInput 7 9 2 2 TwoPlayer.NoChal TwoPlayer.NoChal)) 18.

(** ** A round with a single winner *)

(** The players who pay the penalty when [w] wins alone: everybody else who
    declared a card. *)
Definition isLoser (w : nat) (pc : list Z) (i : nat) : bool :=
  bool_decide (i ≠ w) && negb (V3.playedAt pc i =? -1).

(** How many of the first [k] players pay it. *)
Definition losersBefore (w : nat) (pc : list Z) (k : nat) : nat :=
  length (filter (fun i => isLoser w pc i = true) (seq 0 k)).

(** The player vector after the first [k] players have passed the penalty
    loop, fed from a pool that held [r]. *)
Definition paidFirst (w : nat) (pc : list Z) (r : Z) (k : nat) (l : list V3.Player)
    : list V3.Player :=
  imap (fun j p =>
          if (j <? k)%nat && isLoser w pc j
          then V3.set_numberCards (fun n => n + tieDraw r (losersBefore w pc j))
                 (V3.set_consecutiveWins (fun _ => 0) p)
          else p) l.

(** ** The bonus check *)

(** What the bonus check does to one streak counter. *)
Definition bonusReset (w : Z) : Z :=
  if V3.CONSECUTIVE_WINS_THRESHOLD <=? w then 0 else w.

(** ** Counting the cards *)

(** Sum of the action cards in all hands. *)
Definition actionHandTotal (g : V3.Game) : Z :=
  foldr Z.add 0 (V3.actionCards <$> V3.players g).

(** All number cards the arbiter knows of: in the hands and in the pool;
    likewise for action cards. *)
Definition numberTotal (g : V3.Game) : Z := handTotal g + V3.numberDeckRemaining g.
Definition actionTotal (g : V3.Game) : Z := actionHandTotal g + V3.actionDeckRemaining g.

(** The number cards held, a count below 0 taken as an empty hand, plus the
    number pool. *)
Definition heldTotal (g : V3.Game) : Z :=
  foldr Z.add 0 ((fun p => Z.max 0 (V3.numberCards p)) <$> V3.players g)
  + V3.numberDeckRemaining g.

(** [g'] accounts for no more cards than [g]. *)
Definition totalsLe (g' g : V3.Game) : Prop :=
  heldTotal g' <= heldTotal g /\ actionTotal g' <= actionTotal g.

(** [g'] is a later state of [g] that accounts for no more cards; and when
    the cards of [g] number at most [T], no count of [g'] is negative unless
    one of [g] was. *)
Definition plays (T : Z) (g g' : V3.Game) : Prop :=
  evolves g g'
  /\ (sane g -> totalsLe g' g /\ (nonneg g -> heldTotal g <= T -> nonneg g')).

(** The commands of the menu that are play, not a correction by hand. *)
Definition playCommand (c : V3.Command) : Prop :=
  match c with V3.Adjust _ _ _ => False | _ => True end.

(** ** Two plays that bring "A" to no number card *)

(** A's 9 beats B's 3; a streak bonus is taken as an action card, and the
    prompt "Any challenges?" is answered with [r] for either player. *)
Definition nineBeatsThree (r : V3.ChallengeResp) : V3.RoundInput :=
  V3.mkRoundInput (fun i => if Nat.eqb i 0 then 9 else 3)
    (fun i => (1 - i)%nat) (fun i => (1 - i)%nat)
    (fun _ => 1) (fun _ => r).

(** A's 3 loses to B's 9; nobody challenges. *)
Definition threeLosesToNine : V3.RoundInput :=
  V3.mkRoundInput (fun i => if Nat.eqb i 0 then 3 else 9)
    (fun i => (1 - i)%nat) (fun i => (1 - i)%nat)
    (fun _ => 1) (fun _ => V3.NoChallenge).

(** Both play a 7 and name the other one for the penalty. *)
Definition sevenEach : V3.RoundInput :=
  V3.mkRoundInput (fun _ => 7) (fun i => (1 - i)%nat) (fun i => (1 - i)%nat)
    (fun _ => 1) (fun _ => V3.NoChallenge).

(** A plays a 0 and steals from B, who wins the round with a 9. *)
Definition zeroAgainstNine : V3.RoundInput :=
  V3.mkRoundInput (fun i => if Nat.eqb i 0 then 0 else 9)
    (fun i => (1 - i)%nat) (fun i => (1 - i)%nat)
    (fun _ => 1) (fun _ => V3.NoChallenge).

(** A wins nineteen rounds in a row and is left with one number card. *)
Definition nineteenWins : list V3.Command :=
  repeat (V3.NumberRound (nineBeatsThree V3.NoChallenge)) 19.

(** A plays DARE on B, who completes the dare. *)
Definition dareCompleted : V3.Command :=
  V3.ActionCard 0 "DARE" (V3.mkAnswers 1 true Plus2 1).

(** Twelve rounds of 7 against 7 use up the number deck; A then wins
    forty-one rounds, B answering "Any challenges?" with a +2. *)
Definition emptyDeckWins : list V3.Command :=
  repeat (V3.NumberRound sevenEach) 12
  ++ repeat (V3.NumberRound (nineBeatsThree (V3.Challenge 1 Plus2))) 41.

End Spec.

(** * Facts about the N-player arbiter (version 3) *)
Module V3Facts.
Import V3.
Import Spec.

(** ** Reading the player vector after an assignment *)

Lemma length_upd i f g : length (players (upd i f g)) = length (players g).
Proof. apply length_alter. Qed.

Lemma at_upd_ne {A} (r : Player -> A) d i j f g :
  i ≠ j ->
  from_option r d (players (upd i f g) !! j) = from_option r d (players g !! j).
Proof. intros Hne. unfold upd; simpl. by rewrite list_lookup_alter_ne. Qed.

Lemma at_upd_frame {A} (r : Player -> A) d i j f g :
  (forall p, r (f p) = r p) ->
  from_option r d (players (upd i f g) !! j) = from_option r d (players g !! j).
Proof.
  intros Hf. unfold upd; simpl. rewrite list_lookup_alter.
  case_decide; [subst|done]. destruct (players g !! j); simpl; auto.
Qed.

Lemma at_upd_eq {A} (r : Player -> A) d i f g :
  (i < length (players g))%nat ->
  from_option r d (players (upd i f g) !! i)
  = from_option (fun p => r (f p)) d (players g !! i).
Proof.
  intros Hi. unfold upd; simpl. rewrite list_lookup_alter_eq.
  destruct (players g !! i); reflexivity.
Qed.

Lemma numberCardsAt_upd_eq i h g :
  (i < length (players g))%nat ->
  numberCardsAt (upd i (set_numberCards h) g) i = h (numberCardsAt g i).
Proof.
  intros Hi. unfold numberCardsAt. rewrite at_upd_eq by done.
  destruct (lookup_lt_is_Some_2 _ _ Hi) as [p ->]. reflexivity.
Qed.

Lemma actionCardsAt_upd_eq i h g :
  (i < length (players g))%nat ->
  actionCardsAt (upd i (set_actionCards h) g) i = h (actionCardsAt g i).
Proof.
  intros Hi. unfold actionCardsAt. rewrite at_upd_eq by done.
  destruct (lookup_lt_is_Some_2 _ _ Hi) as [p ->]. reflexivity.
Qed.

Lemma consecutiveWinsAt_upd_eq i h g :
  (i < length (players g))%nat ->
  consecutiveWinsAt (upd i (set_consecutiveWins h) g) i = h (consecutiveWinsAt g i).
Proof.
  intros Hi. unfold consecutiveWinsAt. rewrite at_upd_eq by done.
  destruct (lookup_lt_is_Some_2 _ _ Hi) as [p ->]. reflexivity.
Qed.

Lemma isBlockedAt_upd_eq i b g :
  (i < length (players g))%nat ->
  isBlockedAt (upd i (set_isBlocked b) g) i = b.
Proof.
  intros Hi. unfold isBlockedAt. rewrite at_upd_eq by done.
  destruct (lookup_lt_is_Some_2 _ _ Hi) as [p ->]. reflexivity.
Qed.


(** Assignments to one member leave the reads of the others alone, and
    assignments to one player leave the reads of the others alone. *)
Lemma numberCardsAt_upd_ne i j f g : i ≠ j -> numberCardsAt (upd i f g) j = numberCardsAt g j.
Proof. intros. unfold numberCardsAt. by apply at_upd_ne. Qed.
Lemma numberCardsAt_upd_actionCards i j h g : numberCardsAt (upd i (set_actionCards h) g) j = numberCardsAt g j.
Proof. unfold numberCardsAt. apply at_upd_frame. by intros []. Qed.
Lemma numberCardsAt_upd_consecutiveWins i j h g : numberCardsAt (upd i (set_consecutiveWins h) g) j = numberCardsAt g j.
Proof. unfold numberCardsAt. apply at_upd_frame. by intros []. Qed.
Lemma numberCardsAt_upd_isBlocked i j b g : numberCardsAt (upd i (set_isBlocked b) g) j = numberCardsAt g j.
Proof. unfold numberCardsAt. apply at_upd_frame. by intros []. Qed.
Lemma actionCardsAt_upd_ne i j f g : i ≠ j -> actionCardsAt (upd i f g) j = actionCardsAt g j.
Proof. intros. unfold actionCardsAt. by apply at_upd_ne. Qed.
Lemma actionCardsAt_upd_numberCards i j h g : actionCardsAt (upd i (set_numberCards h) g) j = actionCardsAt g j.
Proof. unfold actionCardsAt. apply at_upd_frame. by intros []. Qed.
Lemma actionCardsAt_upd_consecutiveWins i j h g : actionCardsAt (upd i (set_consecutiveWins h) g) j = actionCardsAt g j.
Proof. unfold actionCardsAt. apply at_upd_frame. by intros []. Qed.
Lemma actionCardsAt_upd_isBlocked i j b g : actionCardsAt (upd i (set_isBlocked b) g) j = actionCardsAt g j.
Proof. unfold actionCardsAt. apply at_upd_frame. by intros []. Qed.
Lemma consecutiveWinsAt_upd_ne i j f g : i ≠ j -> consecutiveWinsAt (upd i f g) j = consecutiveWinsAt g j.
Proof. intros. unfold consecutiveWinsAt. by apply at_upd_ne. Qed.
Lemma consecutiveWinsAt_upd_numberCards i j h g : consecutiveWinsAt (upd i (set_numberCards h) g) j = consecutiveWinsAt g j.
Proof. unfold consecutiveWinsAt. apply at_upd_frame. by intros []. Qed.
Lemma consecutiveWinsAt_upd_actionCards i j h g : consecutiveWinsAt (upd i (set_actionCards h) g) j = consecutiveWinsAt g j.
Proof. unfold consecutiveWinsAt. apply at_upd_frame. by intros []. Qed.
Lemma consecutiveWinsAt_upd_isBlocked i j b g : consecutiveWinsAt (upd i (set_isBlocked b) g) j = consecutiveWinsAt g j.
Proof. unfold consecutiveWinsAt. apply at_upd_frame. by intros []. Qed.
Lemma isBlockedAt_upd_ne i j f g : i ≠ j -> isBlockedAt (upd i f g) j = isBlockedAt g j.
Proof. intros. unfold isBlockedAt. by apply at_upd_ne. Qed.
Lemma isBlockedAt_upd_numberCards i j h g : isBlockedAt (upd i (set_numberCards h) g) j = isBlockedAt g j.
Proof. unfold isBlockedAt. apply at_upd_frame. by intros []. Qed.
Lemma isBlockedAt_upd_actionCards i j h g : isBlockedAt (upd i (set_actionCards h) g) j = isBlockedAt g j.
Proof. unfold isBlockedAt. apply at_upd_frame. by intros []. Qed.
Lemma isBlockedAt_upd_consecutiveWins i j h g : isBlockedAt (upd i (set_consecutiveWins h) g) j = isBlockedAt g j.
Proof. unfold isBlockedAt. apply at_upd_frame. by intros []. Qed.
Lemma nameAt_upd_ne i j f g : i ≠ j -> nameAt (upd i f g) j = nameAt g j.
Proof. intros. unfold nameAt. by apply at_upd_ne. Qed.
Lemma nameAt_upd_numberCards i j h g : nameAt (upd i (set_numberCards h) g) j = nameAt g j.
Proof. unfold nameAt. apply at_upd_frame. by intros []. Qed.
Lemma nameAt_upd_actionCards i j h g : nameAt (upd i (set_actionCards h) g) j = nameAt g j.
Proof. unfold nameAt. apply at_upd_frame. by intros []. Qed.
Lemma nameAt_upd_consecutiveWins i j h g : nameAt (upd i (set_consecutiveWins h) g) j = nameAt g j.
Proof. unfold nameAt. apply at_upd_frame. by intros []. Qed.
Lemma nameAt_upd_isBlocked i j b g : nameAt (upd i (set_isBlocked b) g) j = nameAt g j.
Proof. unfold nameAt. apply at_upd_frame. by intros []. Qed.

Create Rewrite HintDb upd.
#[export] Hint Rewrite numberCardsAt_upd_actionCards numberCardsAt_upd_consecutiveWins numberCardsAt_upd_isBlocked actionCardsAt_upd_numberCards actionCardsAt_upd_consecutiveWins actionCardsAt_upd_isBlocked consecutiveWinsAt_upd_numberCards consecutiveWinsAt_upd_actionCards consecutiveWinsAt_upd_isBlocked isBlockedAt_upd_numberCards isBlockedAt_upd_actionCards isBlockedAt_upd_consecutiveWins nameAt_upd_numberCards nameAt_upd_actionCards nameAt_upd_consecutiveWins nameAt_upd_isBlocked : upd.
#[export] Hint Rewrite length_upd : upd.

(** Drawing does not touch the player vector. *)
Lemma drawFromNumberDeck_players a g : players (snd (drawFromNumberDeck a g)) = players g.
Proof. unfold drawFromNumberDeck. by destruct (_ <=? _). Qed.

Lemma drawFromActionDeck_players a g : players (snd (drawFromActionDeck a g)) = players g.
Proof. unfold drawFromActionDeck. by destruct (_ <=? _). Qed.

Lemma drawNumberTo_eq i a g :
  drawNumberTo i a g
  = upd i (set_numberCards (fun n => n + fst (drawFromNumberDeck a g)))
      (snd (drawFromNumberDeck a g)).
Proof. unfold drawNumberTo. by destruct (drawFromNumberDeck a g). Qed.

Lemma drawActionTo_eq i a g :
  drawActionTo i a g
  = upd i (set_actionCards (fun n => n + fst (drawFromActionDeck a g)))
      (snd (drawFromActionDeck a g)).
Proof. unfold drawActionTo. by destruct (drawFromActionDeck a g). Qed.

Lemma drawFromNumberDeck_fst a g :
  fst (drawFromNumberDeck a g) = dealt a (numberDeckRemaining g).
Proof. unfold drawFromNumberDeck, dealt. by destruct (_ <=? _). Qed.

Lemma drawFromNumberDeck_snd a g :
  snd (drawFromNumberDeck a g)
  = set_numberDeck (numberDeckRemaining g - dealt a (numberDeckRemaining g)) g.
Proof.
  unfold drawFromNumberDeck, dealt. destruct (_ <=? _); simpl; [|done].
  destruct g; unfold set_numberDeck; simpl. f_equal. lia.
Qed.

Lemma drawFromActionDeck_fst a g :
  fst (drawFromActionDeck a g) = dealt a (actionDeckRemaining g).
Proof. unfold drawFromActionDeck, dealt. by destruct (_ <=? _). Qed.

Lemma drawFromActionDeck_snd a g :
  snd (drawFromActionDeck a g)
  = set_actionDeck (actionDeckRemaining g - dealt a (actionDeckRemaining g)) g.
Proof.
  unfold drawFromActionDeck, dealt. destruct (_ <=? _); simpl; [|done].
  destruct g; unfold set_actionDeck; simpl. f_equal. lia.
Qed.

Lemma dealt_bounds a r : 0 <= a -> 0 <= dealt a r /\ (0 <= r -> dealt a r <= r).
Proof. unfold dealt. destruct (Z.leb_spec r 0); lia. Qed.

Lemma dealt_min a r : 0 <= a -> 0 <= r -> dealt a r = Z.min a r.
Proof. unfold dealt. destruct (Z.leb_spec r 0); lia. Qed.

(** ** The wrap-around of [int] *)

Lemma wrap32_range z : INT_MIN <= wrap32 z <= INT_MAX.
Proof.
  unfold wrap32, INT_MIN, INT_MAX.
  pose proof (Z.mod_pos_bound (z - -2147483648) 4294967296 ltac:(lia)). lia.
Qed.

Lemma wrap32_id z : INT_MIN <= z <= INT_MAX -> wrap32 z = z.
Proof.
  unfold wrap32, INT_MIN, INT_MAX. intros Hz.
  rewrite Z.mod_small by lia. lia.
Qed.

(** Out of range only downwards: a wrapped sum is never above the sum. *)
Lemma wrap32_le z : INT_MIN <= z -> wrap32 z <= z.
Proof.
  unfold wrap32, INT_MIN. intros Hz.
  pose proof (Z.mod_le (z - -2147483648) 4294967296 ltac:(lia) ltac:(lia)). lia.
Qed.

End V3Facts.

(** * Facts about the two-player arbiter of version 2 *)
Module V2Facts.
Import TwoPlayer V2 Spec.

Lemma v2_drawFromNumberDeck_fst a s :
  fst (drawFromNumberDeck a s) = dealt a (numberDeckRemaining s).
Proof. unfold drawFromNumberDeck, dealt. by destruct (_ <=? _). Qed.

Lemma v2_drawFromNumberDeck_snd a s :
  snd (drawFromNumberDeck a s)
  = set_numberDeckRemaining (numberDeckRemaining s - dealt a (numberDeckRemaining s)) s.
Proof.
  unfold drawFromNumberDeck, dealt. destruct (_ <=? _); simpl; [|done].
  destruct s; unfold set_numberDeckRemaining; simpl. f_equal. lia.
Qed.

Lemma v2_drawFromActionDeck_fst a s :
  fst (drawFromActionDeck a s) = dealt a (actionDeckRemaining s).
Proof. unfold drawFromActionDeck, dealt. by destruct (_ <=? _). Qed.

Lemma v2_drawFromActionDeck_snd a s :
  snd (drawFromActionDeck a s)
  = set_actionDeckRemaining (actionDeckRemaining s - dealt a (actionDeckRemaining s)) s.
Proof.
  unfold drawFromActionDeck, dealt. destruct (_ <=? _); simpl; [|done].
  destruct s; unfold set_actionDeckRemaining; simpl. f_equal. lia.
Qed.

End V2Facts.

(** * The deck operations *)

Lemma dealt_clamped n r : 0 <= n -> 0 <= r -> Spec.clampedDraw n r (Spec.dealt n r) (r - Spec.dealt n r).
Proof.
  intros Hn Hr. unfold Spec.clampedDraw, Spec.dealt.
  destruct (Z.leb_spec r 0); lia.
Qed.

(** C6. With a pool [r >= 0] and a request [n >= 0], [drawFromNumberDeck]
    and [drawFromActionDeck] (versions 3 and 2) hand out [min n r], lower
    the pool by exactly that amount, hand out 0 from an empty pool, never
    leave the pool negative and change nothing else in the game.  The
    functions are total: a request beyond the pool is a partial draw. *)
Theorem draw_is_clamped (g : V3.Game) (s : TwoPlayer.State) (n : Z) :
  0 <= n ->
  0 <= V3.numberDeckRemaining g -> 0 <= V3.actionDeckRemaining g ->
  0 <= TwoPlayer.numberDeckRemaining s -> 0 <= TwoPlayer.actionDeckRemaining s ->
  (let '(d, g') := V3.drawFromNumberDeck n g in
   Spec.clampedDraw n (V3.numberDeckRemaining g) d (V3.numberDeckRemaining g')
   /\ g' = V3.set_numberDeck (V3.numberDeckRemaining g - d) g)
  /\ (let '(d, g') := V3.drawFromActionDeck n g in
      Spec.clampedDraw n (V3.actionDeckRemaining g) d (V3.actionDeckRemaining g')
      /\ g' = V3.set_actionDeck (V3.actionDeckRemaining g - d) g)
  /\ (let '(d, s') := V2.drawFromNumberDeck n s in
      Spec.clampedDraw n (TwoPlayer.numberDeckRemaining s) d (TwoPlayer.numberDeckRemaining s')
      /\ s' = TwoPlayer.set_numberDeckRemaining (TwoPlayer.numberDeckRemaining s - d) s)
  /\ (let '(d, s') := V2.drawFromActionDeck n s in
      Spec.clampedDraw n (TwoPlayer.actionDeckRemaining s) d (TwoPlayer.actionDeckRemaining s')
      /\ s' = TwoPlayer.set_actionDeckRemaining (TwoPlayer.actionDeckRemaining s - d) s).
Proof.
  intros Hn Hg1 Hg2 Hs1 Hs2. repeat split.
  - pose proof (V3Facts.drawFromNumberDeck_fst n g) as Hf.
    pose proof (V3Facts.drawFromNumberDeck_snd n g) as Hs.
    destruct (V3.drawFromNumberDeck n g) as [d g']; simpl in *; subst.
    split; [|done]. simpl. by apply dealt_clamped.
  - pose proof (V3Facts.drawFromActionDeck_fst n g) as Hf.
    pose proof (V3Facts.drawFromActionDeck_snd n g) as Hs.
    destruct (V3.drawFromActionDeck n g) as [d g']; simpl in *; subst.
    split; [|done]. simpl. by apply dealt_clamped.
  - pose proof (V2Facts.v2_drawFromNumberDeck_fst n s) as Hf.
    pose proof (V2Facts.v2_drawFromNumberDeck_snd n s) as Hs.
    destruct (V2.drawFromNumberDeck n s) as [d s']; simpl in *; subst.
    split; [|done]. simpl. by apply dealt_clamped.
  - pose proof (V2Facts.v2_drawFromActionDeck_fst n s) as Hf.
    pose proof (V2Facts.v2_drawFromActionDeck_snd n s) as Hs.
    destruct (V2.drawFromActionDeck n s) as [d s']; simpl in *; subst.
    split; [|done]. simpl. by apply dealt_clamped.
Qed.

Lemma draw_is_clamped_witness :
  (0 <= 70 /\ 0 <= V3.numberDeckRemaining (V3.setupGame "A" "B")
   /\ 0 <= TwoPlayer.actionDeckRemaining TwoPlayer.initial)
  /\ Spec.clampedDraw 70 68 68 0 /\ Spec.clampedDraw 70 32 32 0.
Proof.
  split; [cbv -[Z.le]; lia|].
  destruct (draw_is_clamped (V3.setupGame "A" "B") TwoPlayer.initial 70)
    as (H1 & H2 & H3 & H4); [lia | cbv -[Z.le]; lia ..|].
  split; [exact (proj1 H1) | exact (proj1 H4)].
Defined.

(** * Dare *)

(** C9. When the target refuses a Dare, [handleDareCard] sets [gameOver],
    names the actor as winner and leaves the player vector (all counts,
    streaks and block flags) and both pools as they were; the same holds
    through the dispatch of [handleActionCard] on "DARE". *)
Theorem dare_refused_ends_game (g : V3.Game) (playerIdx target : nat) (k : DrawKind) (c : Z) :
  let g' := V3.handleDareCard playerIdx target false g in
  V3.gameOver g' = true
  /\ V3.winner g' = V3.nameAt g playerIdx
  /\ V3.players g' = V3.players g
  /\ V3.numberDeckRemaining g' = V3.numberDeckRemaining g
  /\ V3.actionDeckRemaining g' = V3.actionDeckRemaining g
  /\ V3.handleActionCard playerIdx "DARE" (V3.mkAnswers target false k c) g = g'.
Proof. repeat split. Qed.

(** * Reverse *)

Module ReverseFacts.
Import V3 V3Facts Spec.

Lemma players_ext (g1 g2 : Game) :
  players g1 = players g2 ->
  numberDeckRemaining g1 = numberDeckRemaining g2 ->
  actionDeckRemaining g1 = actionDeckRemaining g2 ->
  gameOver g1 = gameOver g2 -> winner g1 = winner g2 -> g1 = g2.
Proof. destruct g1, g2; simpl; intros; subst; reflexivity. Qed.

(** X4.  What the body of version 3 amounts to: the second pair of swaps undoes
    the first, so both hands stay where they were and the decrement lands on
    the target's action count. *)
Lemma handleReverseCard_net (a t : nat) (g : Game) :
  a ≠ t -> (a < length (players g))%nat -> (t < length (players g))%nat ->
  handleReverseCard a t g = upd t (set_actionCards shed) g.
Proof.
  intros Hne Ha Ht.
  destruct (lookup_lt_is_Some_2 _ _ Ha) as [pa Hpa].
  destruct (lookup_lt_is_Some_2 _ _ Ht) as [pt Hpt].
  apply players_ext; try reflexivity.
  apply list_eq; intros j.
  unfold handleReverseCard, swapNumberCards, swapActionCards, numberCardsAt,
    actionCardsAt, upd; simpl.
  rewrite !list_lookup_alter.
  repeat (case_decide; subst; try congruence);
    rewrite ?Hpa, ?Hpt; simpl; rewrite ?Hpa, ?Hpt; simpl;
    try reflexivity; destruct pa, pt; reflexivity.
Qed.

End ReverseFacts.

(** C3, evaluated.  In the position after the first round (A: 19 number
    cards and no action card, B: 23 number cards and 1 action card) B plays
    REVERSE on A.  Removing the card first and exchanging the hands
    afterwards would leave A with 23/0 and B with 19/0.  Version 3 leaves
    both hands where they were, B's card included; version 2 exchanges the
    hands and takes the card from the hand B receives, so that the played
    card ends up with A. *)
Theorem reverse_on_first_round_position :
  V3.players Spec.afterFirstRound
    = [V3.mkPlayer "A" 19 0 1 false; V3.mkPlayer "B" 23 1 0 false]
  /\ V3.players (V3.handleActionCard 1 "REVERSE" (V3.mkAnswers 0 false Plus2 1)
                  Spec.afterFirstRound)
    = [V3.mkPlayer "A" 19 0 1 false; V3.mkPlayer "B" 23 1 0 false]
  /\ (let s := V2.handleReverseCard TwoPlayer.PlayerB Spec.afterFirstRound2 in
      (TwoPlayer.playerACards s, TwoPlayer.playerAActionCards s) = (23, 1)
      /\ (TwoPlayer.playerBCards s, TwoPlayer.playerBActionCards s) = (19, 0)).
Proof. vm_compute. repeat split. Qed.

(** * Draw Two / Draw Four *)

Lemma shed_pos x : 1 <= x -> V3.shed x = x - 1.
Proof. unfold V3.shed. lia. Qed.

Lemma drawAmount_gap (N N' : DrawKind) :
  N ≠ N' -> 1 + Z.abs (drawAmount N - drawAmount N') = 3.
Proof. destruct N, N'; simpl; intros; congruence || lia. Qed.

Module DrawFacts.
Import V3 V3Facts Spec.

Lemma handleDrawCard_unequal (g : Game) (a t : nat) (N N' : DrawKind) :
  N ≠ N' ->
  handleDrawCard a (drawAmount N) t (Some N') g
  = upd t (set_actionCards shed)
      (upd a (set_actionCards shed) (drawNumberTo (loserOf N N' a t) 3 g)).
Proof. destruct N, N'; intros; congruence || reflexivity. Qed.

End DrawFacts.

(** C7. A +2/+4 play countered with the other card: the player who named the
    smaller card draws [drawFromNumberDeck(3)] ([3 = 1 + |N - N'|]), the
    other player's number count is unchanged, and both action counts are
    clamped down by one, i.e. lowered by exactly one for a player who holds
    a card.  In particular +2 countered by +4 makes the actor draw.  Stated
    for [handleDrawCard] of version 3 (any two distinct players) and of
    version 2. *)
Theorem draw_counter_unequal (g : V3.Game) (a t : nat) (s : TwoPlayer.State)
    (p : TwoPlayer.Who) (N N' : DrawKind) :
  N ≠ N' -> a ≠ t ->
  (a < length (V3.players g))%nat -> (t < length (V3.players g))%nat ->
  1 + Z.abs (drawAmount N - drawAmount N') = 3
  /\ Spec.loserOf Plus2 Plus4 a t = a
  /\ (let g' := V3.handleDrawCard a (drawAmount N) t (Some N') g in
      let drawn := fst (V3.drawFromNumberDeck 3 g) in
      let loser := Spec.loserOf N N' a t in
      let winner := Spec.winnerOf N N' a t in
      V3.numberCardsAt g' loser = V3.numberCardsAt g loser + drawn
      /\ V3.numberCardsAt g' winner = V3.numberCardsAt g winner
      /\ V3.actionCardsAt g' a = V3.shed (V3.actionCardsAt g a)
      /\ V3.actionCardsAt g' t = V3.shed (V3.actionCardsAt g t)
      /\ (1 <= V3.actionCardsAt g a -> V3.actionCardsAt g' a = V3.actionCardsAt g a - 1)
      /\ (1 <= V3.actionCardsAt g t -> V3.actionCardsAt g' t = V3.actionCardsAt g t - 1)
      /\ V3.numberDeckRemaining g' = V3.numberDeckRemaining g - drawn
      /\ V3.actionDeckRemaining g' = V3.actionDeckRemaining g)
  /\ (let s' := V2.handleDrawCard p (drawAmount N) (Some N') s in
      let drawn := fst (V2.drawFromNumberDeck 3 s) in
      let loser := Spec.loserOf N N' p (V2.opponent p) in
      let winner := Spec.winnerOf N N' p (V2.opponent p) in
      Spec.cardsOf loser s' = Spec.cardsOf loser s + drawn
      /\ Spec.cardsOf winner s' = Spec.cardsOf winner s
      /\ Spec.actionCardsOf TwoPlayer.PlayerA s'
         = Z.max 0 (Spec.actionCardsOf TwoPlayer.PlayerA s - 1)
      /\ Spec.actionCardsOf TwoPlayer.PlayerB s'
         = Z.max 0 (Spec.actionCardsOf TwoPlayer.PlayerB s - 1)
      /\ TwoPlayer.numberDeckRemaining s' = TwoPlayer.numberDeckRemaining s - drawn).
Proof.
  intros HN Hat Ha Ht.
  split; [by apply drawAmount_gap|]. split; [reflexivity|]. split.
  - cbv zeta. rewrite DrawFacts.handleDrawCard_unequal by done.
    rewrite V3Facts.drawNumberTo_eq, V3Facts.drawFromNumberDeck_snd,
      V3Facts.drawFromNumberDeck_fst.
    destruct (lookup_lt_is_Some_2 _ _ Ha) as [pa Hpa].
    destruct (lookup_lt_is_Some_2 _ _ Ht) as [pt Hpt].
    unfold V3.numberCardsAt, V3.actionCardsAt, V3.upd, Spec.loserOf, Spec.winnerOf.
    destruct N, N'; try congruence; simpl;
      rewrite !list_lookup_alter;
      repeat (case_decide; subst; try congruence);
      rewrite ?Hpa, ?Hpt; simpl;
      repeat split; try reflexivity; try (intros; by apply shed_pos).
  - cbv zeta. rewrite V2Facts.v2_drawFromNumberDeck_fst.
    unfold V2.handleDrawCard.
    pose proof (V2Facts.v2_drawFromNumberDeck_fst 3 s) as Hf.
    pose proof (V2Facts.v2_drawFromNumberDeck_snd 3 s) as Hs.
    destruct N, N'; try congruence; simpl;
      try change (1 + Z.abs (2 - 4)) with 3; try change (1 + Z.abs (4 - 2)) with 3;
      destruct (V2.drawFromNumberDeck 3 s) as [d s1]; simpl in *; subst;
      destruct p; simpl; repeat split; reflexivity.
Qed.

Lemma draw_counter_unequal_witness :
  (Plus2 ≠ Plus4 /\ 0%nat ≠ 1%nat
   /\ (0 < length (V3.players Spec.midGame))%nat
   /\ (1 < length (V3.players Spec.midGame))%nat)
  /\ (let g' := V3.handleDrawCard 0 2 1 (Some Plus4) Spec.midGame in
      V3.numberCardsAt g' 0 = 8 /\ V3.numberCardsAt g' 1 = 7
      /\ V3.actionCardsAt g' 0 = 0 /\ V3.actionCardsAt g' 1 = 1).
Proof.
  assert (H1 : Plus2 ≠ Plus4) by discriminate.
  assert (H2 : 0%nat ≠ 1%nat) by lia.
  assert (H3 : (0 < length (V3.players Spec.midGame))%nat) by (simpl; lia).
  assert (H4 : (1 < length (V3.players Spec.midGame))%nat) by (simpl; lia).
  split; [tauto|].
  destruct (draw_counter_unequal Spec.midGame 0 1 Spec.midGame2 TwoPlayer.PlayerA
              Plus2 Plus4 H1 H2 H3 H4) as (_ & _ & H & _).
  destruct H as (h1 & h2 & h3 & h4 & _).
  exact (conj h1 (conj h2 (conj h3 h4))).
Defined.

(** * The value-0 steal *)

Module StealFacts.
Import V3 V3Facts Spec.

Lemma handTotal_alter (l : list Player) (i : nat) (f : Z -> Z) (p : Player) :
  l !! i = Some p ->
  foldr Z.add 0 (numberCards <$> alter (set_numberCards f) i l)
  = foldr Z.add 0 (numberCards <$> l) - numberCards p + f (numberCards p).
Proof.
  revert i. induction l as [|q l IH]; intros [|i] Hi; csimpl in *; try discriminate.
  - injection Hi as ->. simpl. lia.
  - specialize (IH i Hi). simpl in *. lia.
Qed.

Lemma handTotal_upd (g : Game) (i : nat) (f : Z -> Z) :
  (i < length (players g))%nat ->
  handTotal (upd i (set_numberCards f) g)
  = handTotal g - numberCardsAt g i + f (numberCardsAt g i).
Proof.
  intros Hi. destruct (lookup_lt_is_Some_2 _ _ Hi) as [p Hp].
  unfold handTotal, numberCardsAt, upd; simpl.
  rewrite (handTotal_alter _ _ _ _ Hp), Hp. reflexivity.
Qed.

(** X2.  The steal of version 3, for a requester [i] and a target [t] as
    [getValidatedPlayerIndex] returns it (in range, not the requester), on
    counts that are [int]s.  When the target holds a card and the requester
    holds fewer than [INT_MAX], exactly one card changes hands and the
    number cards in hands and pool are conserved.  When the target holds a
    card and the requester holds [INT_MAX], the increment wraps and the
    requester is left with [INT_MIN].  When the target holds none nothing
    happens.  The pools are never involved. *)
Lemma steal_transfers_one_card (g : Game) (i t : nat) :
  i ≠ t -> (i < length (players g))%nat -> (t < length (players g))%nat ->
  numberCardsAt g t <= INT_MAX ->
  let g' := stealCard i t g in
  (0 < numberCardsAt g t -> INT_MIN <= numberCardsAt g i < INT_MAX ->
     numberCardsAt g' i = numberCardsAt g i + 1
     /\ numberCardsAt g' t = numberCardsAt g t - 1
     /\ (forall j, j ≠ i -> j ≠ t -> players g' !! j = players g !! j)
     /\ (forall j, actionCardsAt g' j = actionCardsAt g j)
     /\ handTotal g' + numberDeckRemaining g' = handTotal g + numberDeckRemaining g)
  /\ (0 < numberCardsAt g t -> numberCardsAt g i = INT_MAX ->
       numberCardsAt g' i = INT_MIN
       /\ numberCardsAt g' t = numberCardsAt g t - 1)
  /\ (numberCardsAt g t <= 0 -> g' = g)
  /\ numberDeckRemaining g' = numberDeckRemaining g
  /\ actionDeckRemaining g' = actionDeckRemaining g.
Proof.
  intros Hne Hi Ht Htmax g'. subst g'. unfold stealCard.
  destruct (Z.ltb_spec 0 (numberCardsAt g t)) as [Hpos|Hle].
  - assert (Hthief : numberCardsAt
                       (upd t (set_numberCards (fun n => wrap32 (n - 1)))
                          (upd i (set_numberCards (fun n => wrap32 (n + 1))) g)) i
                     = wrap32 (numberCardsAt g i + 1)).
    { rewrite numberCardsAt_upd_ne by done.
      by rewrite (numberCardsAt_upd_eq i (fun n => wrap32 (n + 1))). }
    assert (Hdown : wrap32 (numberCardsAt g t - 1) = numberCardsAt g t - 1)
      by (apply wrap32_id; unfold INT_MIN, INT_MAX in *; lia).
    assert (Htarget : numberCardsAt
                        (upd t (set_numberCards (fun n => wrap32 (n - 1)))
                           (upd i (set_numberCards (fun n => wrap32 (n + 1))) g)) t
                      = numberCardsAt g t - 1).
    { rewrite (numberCardsAt_upd_eq t (fun n => wrap32 (n - 1)))
        by (by rewrite length_upd).
      by rewrite numberCardsAt_upd_ne by done. }
    split; [intros _ Hrange|split; [intros _ Hmax|split; [lia|done]]].
    + assert (Hup : wrap32 (numberCardsAt g i + 1) = numberCardsAt g i + 1)
        by (apply wrap32_id; unfold INT_MIN, INT_MAX in *; lia).
      rewrite Hthief, Htarget, Hup.
      split; [done|]. split; [done|]. split; [|split].
      * intros j Hji Hjt. unfold upd; simpl.
        rewrite !list_lookup_alter_ne by done. reflexivity.
      * intros j. by autorewrite with upd.
      * simpl. rewrite handTotal_upd by (by rewrite length_upd).
        rewrite handTotal_upd by done.
        rewrite numberCardsAt_upd_ne by done.
        rewrite Hup, Hdown. lia.
    + rewrite Hthief, Htarget, Hmax. split; reflexivity.
  - split; [lia|]. split; [lia|]. repeat split.
Qed.

(** Inside the round the steal is what a played 0 triggers. *)
Lemma effectsBody_zero (inp : RoundInput) (pc : list Z) (i : nat) (g : Game) :
  playedAt pc i = 0 -> effectsBody inp pc i g = stealCard i (stealFrom inp i) g.
Proof. intros H. unfold effectsBody. rewrite H. reflexivity. Qed.

End StealFacts.

(** C2, evaluated on version 1.  After the twenty rounds of
    [Spec.bWinsTwenty] the game is still running and B holds no number
    card.  When A then plays 0, the special-effect code of version 1 moves a
    card all the same: A goes from 43 to 44 and B from 0 to -1, where a
    steal from an empty hand is to change nothing (as the guarded steals of
    versions 2 and 3 do). *)
Theorem v1_steal_from_empty_hand :
  let s := V1.run Spec.bWinsTwenty TwoPlayer.initial in
  TwoPlayer.gameOver s = false
  /\ (TwoPlayer.playerACards s, TwoPlayer.playerBCards s) = (43, 0)
  /\ (let s' := V1.specialEffects 0 5 s in
      (TwoPlayer.playerACards s', TwoPlayer.playerBCards s') = (44, -1))
  /\ (let s' := V2.processNumberCardEffects 0 5 s in
      (TwoPlayer.playerACards s', TwoPlayer.playerBCards s') = (43, 0)).
Proof. vm_compute. repeat split. Qed.

(** * Invariants of the N-player arbiter *)

Module InvariantFacts.
Import V3 V3Facts Spec.

Lemma for_loop_ind {S : Type} (P : S -> Prop) (n : nat) (body : nat -> S -> S) (s : S) :
  (forall i x, (i < n)%nat -> P x -> P (body i x)) -> P s -> P (for_loop n body s).
Proof.
  unfold for_loop. intros Hbody.
  assert (H : forall l x, (forall i, In i l -> (i < n)%nat) -> P x ->
                          P (fold_left (fun acc i => body i acc) l x)).
  { induction l as [|i l IH]; intros x Hl Hx; simpl; [done|].
    apply IH; [intros j Hj; apply Hl; by right|].
    apply Hbody; [apply Hl; by left|done]. }
  intros Hs. apply H; [|done]. intros i Hi. apply in_seq in Hi. lia.
Qed.

Lemma fold_left_ind {S A : Type} (P : S -> Prop) (f : S -> A -> S) (l : list A) (s : S) :
  (forall a x, P x -> P (f x a)) -> P s -> P (fold_left f l s).
Proof. intros Hf. revert s. induction l; simpl; auto. Qed.

Lemma evolves_refl g : evolves g g.
Proof. unfold evolves, decksLe. split; [auto|]. split; [lia|reflexivity]. Qed.

Lemma evolves_trans g1 g2 g3 : evolves g1 g2 -> evolves g2 g3 -> evolves g1 g3.
Proof.
  unfold evolves, decksLe. intros (N1 & D1 & E1) (N2 & D2 & E2).
  split; [auto|]. split; [lia|congruence].
Qed.

Lemma names_alter (f : Player -> Player) i (l : list Player) :
  (forall p, name (f p) = name p) -> name <$> alter f i l = name <$> l.
Proof.
  intros Hf. rewrite (list_fmap_alter name f id).
  - by apply list_alter_id.
  - apply Forall_forall. intros p _. apply Hf.
Qed.

(** An assignment to one player that keeps the name and lands on counts in
    the ranges of [sane]. *)
Lemma evolves_upd g x i f :
  (forall p, name (f p) = name p) ->
  (sane g -> sane x -> forall p, players x !! i = Some p ->
     INT_MIN <= numberCards (f p) /\ 0 <= actionCards (f p)) ->
  evolves g x -> evolves g (upd i f x).
Proof.
  intros Hname Hf (N & D & E).
  unfold evolves, decksLe, upd in *; simpl.
  split; [|split; [lia|by rewrite names_alter]].
  intros Hg. pose proof (N Hg) as Hx. destruct Hx as (Hall & Hn & Ha).
  split; [|done].
  apply Forall_alter; [done|]. intros p Hp _. apply Hf; auto.
Qed.

Lemma sane_lookup x i p :
  sane x -> players x !! i = Some p -> INT_MIN <= numberCards p /\ 0 <= actionCards p.
Proof.
  intros (Hall & _) Hp. rewrite Forall_lookup in Hall. by apply (Hall i).
Qed.

Lemma nonneg_lookup x i p :
  nonneg x -> players x !! i = Some p -> 0 <= numberCards p /\ 0 <= actionCards p.
Proof.
  intros (Hall & _) Hp. rewrite Forall_lookup in Hall. by apply (Hall i).
Qed.

Lemma sane_of_nonneg x : nonneg x -> sane x.
Proof.
  intros (Hall & Hn & Ha). split; [|done].
  eapply Forall_impl; [exact Hall|]. intros p [H1 H2]. unfold INT_MIN. lia.
Qed.

Lemma sane_numberCardsAt x i : sane x -> INT_MIN <= numberCardsAt x i.
Proof.
  intros Hx. unfold numberCardsAt.
  destruct (players x !! i) eqn:Hp; simpl; [|unfold INT_MIN; lia].
  by apply (sane_lookup x i).
Qed.

Lemma sane_actionCardsAt x i : sane x -> 0 <= actionCardsAt x i.
Proof.
  intros Hx. unfold actionCardsAt. destruct (players x !! i) eqn:Hp; simpl; [|lia].
  by apply (sane_lookup x i).
Qed.

Lemma nonneg_numberCardsAt x i : nonneg x -> 0 <= numberCardsAt x i.
Proof.
  intros Hx. unfold numberCardsAt. destruct (players x !! i) eqn:Hp; simpl; [|lia].
  by apply (nonneg_lookup x i).
Qed.

Lemma nonneg_actionCardsAt x i : nonneg x -> 0 <= actionCardsAt x i.
Proof.
  intros Hx. unfold actionCardsAt. destruct (players x !! i) eqn:Hp; simpl; [|lia].
  by apply (nonneg_lookup x i).
Qed.

Lemma shed_nonneg x : 0 <= shed x.
Proof. unfold shed. lia. Qed.

Lemma evolves_shed_number g x i :
  evolves g x -> evolves g (upd i (set_numberCards shed) x).
Proof.
  apply evolves_upd; [done|]. intros Hg Hx p Hp. simpl.
  pose proof (shed_nonneg (numberCards p)).
  split; [unfold INT_MIN; lia|by apply (sane_lookup x i)].
Qed.

Lemma evolves_shed_action g x i :
  evolves g x -> evolves g (upd i (set_actionCards shed) x).
Proof.
  apply evolves_upd; [done|]. intros Hg Hx p Hp. simpl.
  split; [by apply (sane_lookup x i)|apply shed_nonneg].
Qed.

Lemma evolves_set_wins g x i h :
  evolves g x -> evolves g (upd i (set_consecutiveWins h) x).
Proof.
  apply evolves_upd; [done|]. intros Hg Hx p Hp. simpl. by apply (sane_lookup x i).
Qed.

Lemma evolves_set_blocked g x i b :
  evolves g x -> evolves g (upd i (set_isBlocked b) x).
Proof.
  apply evolves_upd; [done|]. intros Hg Hx p Hp. simpl. by apply (sane_lookup x i).
Qed.

Lemma evolves_add_number g x i d :
  0 <= d -> evolves g x -> evolves g (upd i (set_numberCards (fun n => n + d)) x).
Proof.
  intros Hd. apply evolves_upd; [done|]. intros Hg Hx p Hp. simpl.
  destruct (sane_lookup x i p Hx Hp). lia.
Qed.

Lemma evolves_add_action g x i d :
  0 <= d -> evolves g x -> evolves g (upd i (set_actionCards (fun n => n + d)) x).
Proof.
  intros Hd. apply evolves_upd; [done|]. intros Hg Hx p Hp. simpl.
  destruct (sane_lookup x i p Hx Hp). lia.
Qed.

Lemma evolves_assign_number g x i v :
  (sane g -> INT_MIN <= v) -> evolves g x ->
  evolves g (upd i (set_numberCards (fun _ => v)) x).
Proof.
  intros Hv. apply evolves_upd; [done|]. intros Hg Hx p Hp. simpl.
  destruct (sane_lookup x i p Hx Hp). auto.
Qed.

Lemma evolves_assign_action g x i v :
  (sane g -> 0 <= v) -> evolves g x ->
  evolves g (upd i (set_actionCards (fun _ => v)) x).
Proof.
  intros Hv. apply evolves_upd; [done|]. intros Hg Hx p Hp. simpl.
  destruct (sane_lookup x i p Hx Hp). auto.
Qed.

Lemma evolves_draw_number g x a :
  0 <= a -> evolves g x -> evolves g (snd (drawFromNumberDeck a x)).
Proof.
  intros Ha Hx. apply (evolves_trans _ x); [done|].
  rewrite drawFromNumberDeck_snd.
  pose proof (dealt_bounds a (numberDeckRemaining x) Ha) as [Hd0 Hd1].
  unfold evolves, decksLe, sane; simpl.
  repeat split; try tauto; lia.
Qed.

Lemma evolves_draw_action g x a :
  0 <= a -> evolves g x -> evolves g (snd (drawFromActionDeck a x)).
Proof.
  intros Ha Hx. apply (evolves_trans _ x); [done|].
  rewrite drawFromActionDeck_snd.
  pose proof (dealt_bounds a (actionDeckRemaining x) Ha) as [Hd0 Hd1].
  unfold evolves, decksLe, sane; simpl.
  repeat split; try tauto; lia.
Qed.

Lemma evolves_drawNumberTo g x i a :
  0 <= a -> evolves g x -> evolves g (drawNumberTo i a x).
Proof.
  intros Ha Hx. rewrite drawNumberTo_eq. apply evolves_add_number.
  - rewrite drawFromNumberDeck_fst. by apply dealt_bounds.
  - by apply evolves_draw_number.
Qed.

Lemma evolves_drawActionTo g x i a :
  0 <= a -> evolves g x -> evolves g (drawActionTo i a x).
Proof.
  intros Ha Hx. rewrite drawActionTo_eq. apply evolves_add_action.
  - rewrite drawFromActionDeck_fst. by apply dealt_bounds.
  - by apply evolves_draw_action.
Qed.

Lemma evolves_for_loop g x n body :
  (forall i y, evolves g y -> evolves g (body i y)) ->
  evolves g x -> evolves g (for_loop n body x).
Proof. intros Hb. apply for_loop_ind. auto. Qed.

Create HintDb ev.
#[export] Hint Resolve evolves_refl evolves_shed_number evolves_shed_action
  evolves_set_wins evolves_set_blocked evolves_drawNumberTo evolves_drawActionTo
  evolves_draw_number evolves_draw_action : ev.
#[export] Hint Extern 1 (0 <= _) => (unfold CARD_7_NUMBER_DRAW, CARD_7_ACTION_DRAW; lia) : ev.

(** *** The number round *)

Lemma evolves_stealCard g x i t : evolves g x -> evolves g (stealCard i t x).
Proof.
  intros Hx. unfold stealCard.
  destruct (Z.ltb_spec 0 (numberCardsAt x t)) as [Hpos|]; [|done].
  apply evolves_upd; [done| |].
  - intros _ Hn p Hp. simpl.
    split; [apply wrap32_range|by apply (sane_lookup _ _ _ Hn Hp)].
  - apply evolves_upd; [done| |done]. intros _ Hn p Hp. simpl.
    split; [apply wrap32_range|by apply (sane_lookup x i)].
Qed.

Lemma penaltySeven_eq t x :
  penaltySeven t x
  = let g1 := snd (drawFromNumberDeck CARD_7_NUMBER_DRAW x) in
    let g2 := snd (drawFromActionDeck CARD_7_ACTION_DRAW g1) in
    upd t (set_actionCards (fun n => n + fst (drawFromActionDeck CARD_7_ACTION_DRAW g1)))
      (upd t (set_numberCards (fun n => n + fst (drawFromNumberDeck CARD_7_NUMBER_DRAW x))) g2).
Proof.
  unfold penaltySeven. destruct (drawFromNumberDeck _ x) as [d1 g1]. simpl.
  by destruct (drawFromActionDeck _ g1) as [d2 g2].
Qed.

Lemma evolves_penaltySeven g x t : evolves g x -> evolves g (penaltySeven t x).
Proof.
  intros Hx. rewrite penaltySeven_eq. cbv zeta.
  apply evolves_add_action;
    [rewrite drawFromActionDeck_fst; by apply dealt_bounds|].
  apply evolves_add_number;
    [rewrite drawFromNumberDeck_fst; by apply dealt_bounds|].
  auto with ev.
Qed.

Lemma evolves_effectsBody g x inp pc i : evolves g x -> evolves g (effectsBody inp pc i x).
Proof.
  intros Hx. unfold effectsBody.
  repeat destruct (_ =? _); auto using evolves_penaltySeven, evolves_stealCard.
Qed.

Lemma evolves_processSpecialEffects g x inp pc :
  evolves g x -> evolves g (processSpecialEffects inp pc x).
Proof. apply evolves_for_loop. intros. by apply evolves_effectsBody. Qed.

Lemma evolves_collectPlays g inp : evolves g (roundGame (collectPlays inp g)).
Proof.
  unfold collectPlays.
  apply (for_loop_ind (fun c => evolves g (roundGame c))); [|apply evolves_refl].
  intros i c _ Hc. unfold collectBody.
  destruct (isBlockedAt _ _); simpl; [auto with ev|].
  repeat destruct (_ <? _); repeat destruct (_ =? _); done.
Qed.

Lemma evolves_resolveSingle g x w pc : evolves g x -> evolves g (resolveSingle w pc x).
Proof.
  intros Hx. unfold resolveSingle. apply evolves_for_loop; [|auto with ev].
  intros i y Hy. unfold loserBody. destruct (_ && _); auto with ev.
Qed.

Lemma evolves_resolveTie g x ws : evolves g x -> evolves g (resolveTie ws x).
Proof.
  intros Hx. unfold resolveTie. apply evolves_for_loop; [auto with ev|].
  apply (fold_left_ind (evolves g)); [|done].
  intros w y Hy. unfold tieShed. auto with ev.
Qed.

(** *** Bonus and win evaluation *)

Lemma evolves_bonusBody g x inp i : evolves g x -> evolves g (bonusBody inp i x).
Proof.
  intros Hx. unfold bonusBody. destruct (_ <=? _); [|done].
  apply evolves_set_wins. destruct (_ =? _); [auto with ev|].
  apply evolves_for_loop; [|done].
  intros j y Hy. destruct (negb _); auto with ev.
Qed.

Lemma evolves_checkConsecutiveWins g x inp :
  evolves g x -> evolves g (checkConsecutiveWins inp x).
Proof. apply evolves_for_loop. intros. by apply evolves_bonusBody. Qed.

Lemma evolves_declareWinner g x w : evolves g x -> evolves g (declareWinner w x).
Proof.
  intros Hx. apply (evolves_trans _ x); [done|].
  unfold evolves, decksLe, sane; simpl. split; [auto|]. split; [lia|done].
Qed.

Lemma drawAmount_nonneg k : 0 <= drawAmount k.
Proof. destruct k; simpl; lia. Qed.

Lemma evolves_handleDrawChallenge g x i r :
  evolves g x -> evolves g (handleDrawChallenge i r x).
Proof.
  intros Hx. destruct r as [|c k]; simpl.
  - by apply evolves_declareWinner.
  - apply evolves_shed_action, evolves_drawNumberTo; [apply drawAmount_nonneg|done].
Qed.

Lemma evolves_checkWinFrom g idxs resp x :
  evolves g x -> evolves g (checkWinFrom idxs resp x).
Proof.
  revert x. induction idxs as [|i rest IH]; intros x Hx; simpl; [done|].
  destruct (_ =? _); [|by apply IH].
  pose proof (evolves_handleDrawChallenge g x i (resp i) Hx).
  destruct (gameOver _); [done|by apply IH].
Qed.

Lemma evolves_checkWinCondition g resp x :
  evolves g x -> evolves g (checkWinCondition resp x).
Proof. apply evolves_checkWinFrom. Qed.

Lemma evolves_handleNumberRound g inp : evolves g (handleNumberRound inp g).
Proof.
  unfold handleNumberRound, resolveWinner.
  pose proof (evolves_processSpecialEffects g _ inp
                (playedCards (collectPlays inp g)) (evolves_collectPlays g inp)) as H2.
  destruct (winners (collectPlays inp g)) as [|w [|w' ws]]; [done| |].
  - by apply evolves_checkWinCondition, evolves_checkConsecutiveWins, evolves_resolveSingle.
  - by apply evolves_checkWinCondition, evolves_checkConsecutiveWins, evolves_resolveTie.
Qed.

(** *** Action cards and corrections *)

Lemma evolves_handleBlockCard g a t counter : evolves g (handleBlockCard a t counter g).
Proof. unfold handleBlockCard. destruct counter; auto 6 with ev. Qed.

Lemma evolves_swapNumberCards g x a b : evolves g x -> evolves g (swapNumberCards a b x).
Proof.
  intros Hx. unfold swapNumberCards.
  repeat apply evolves_assign_number; try done;
    intros Hg; apply sane_numberCardsAt; by apply Hx.
Qed.

Lemma evolves_swapActionCards g x a b : evolves g x -> evolves g (swapActionCards a b x).
Proof.
  intros Hx. unfold swapActionCards.
  repeat apply evolves_assign_action; try done;
    intros Hg; apply sane_actionCardsAt; by apply Hx.
Qed.

Lemma evolves_handleReverseCard g a t : evolves g (handleReverseCard a t g).
Proof.
  unfold handleReverseCard.
  auto 8 using evolves_swapNumberCards, evolves_swapActionCards with ev.
Qed.

Lemma evolves_handleColorChangeCard g a : evolves g (handleColorChangeCard a g).
Proof.
  unfold handleColorChangeCard. apply evolves_shed_action, evolves_for_loop; auto with ev.
Qed.

Lemma evolves_handleDrawCard g a amount t counter :
  0 <= amount -> evolves g (handleDrawCard a amount t counter g).
Proof.
  intros Hamt. unfold handleDrawCard. destruct counter as [k|].
  - apply evolves_shed_action, evolves_shed_action.
    repeat destruct (_ <? _); repeat apply evolves_drawNumberTo; auto with ev; lia.
  - apply evolves_shed_action, evolves_drawNumberTo; auto with ev.
Qed.

Lemma evolves_handleTruthCard g a t answered choice :
  evolves g (handleTruthCard a t answered choice g).
Proof.
  unfold handleTruthCard. apply evolves_shed_number, evolves_shed_action.
  destruct answered; [auto with ev|].
  destruct (_ =? _); repeat first [apply evolves_drawNumberTo | apply evolves_drawActionTo];
    auto with ev; lia.
Qed.

Lemma evolves_handleDareCard g a t completed : evolves g (handleDareCard a t completed g).
Proof.
  unfold handleDareCard. destruct completed; [auto with ev|].
  apply evolves_declareWinner, evolves_refl.
Qed.

Lemma evolves_handleActionCard g a actionStr ans :
  evolves g (handleActionCard a actionStr ans g).
Proof.
  unfold handleActionCard.
  destruct (parseActionType actionStr);
    auto using evolves_handleBlockCard, evolves_handleReverseCard,
      evolves_handleColorChangeCard, evolves_handleTruthCard, evolves_handleDareCard,
      evolves_refl;
    apply evolves_handleDrawCard; lia.
Qed.

Lemma evolves_manualAdjustment g pIdx choice newCount :
  validAdjust choice newCount -> evolves g (manualAdjustment pIdx choice newCount g).
Proof.
  intros [H1 H2]. unfold manualAdjustment.
  destruct (Z.eqb_spec choice 1);
    [apply evolves_assign_number; [unfold INT_MIN; lia|apply evolves_refl]|].
  destruct (Z.eqb_spec choice 2); [apply evolves_assign_action; [lia|apply evolves_refl]|].
  auto with ev.
Qed.

Lemma evolves_endGame g : evolves g (endGame g).
Proof.
  unfold evolves, decksLe, sane; simpl. split; [auto|]. split; [lia|done].
Qed.

(** Every pass through the menu leads to a later state. *)
Lemma evolves_step g c : validCommand c -> evolves g (step g c).
Proof.
  destruct c; simpl; intros Hv.
  - apply evolves_handleNumberRound.
  - apply evolves_handleActionCard.
  - apply evolves_refl.
  - by apply evolves_manualAdjustment.
  - apply evolves_endGame.
Qed.

Lemma evolves_reachable g0 g : reachable g0 g -> evolves g0 g.
Proof.
  induction 1 as [|g c Hr IH Hgo Hv]; [apply evolves_refl|].
  apply (evolves_trans _ g); [done|by apply evolves_step].
Qed.

Lemma nonneg_setupGame name1 name2 : nonneg (setupGame name1 name2).
Proof.
  unfold nonneg, setupGame; simpl. split; [|unfold INITIAL_NUMBER_DECK, INITIAL_ACTION_DECK; lia].
  repeat constructor; simpl; unfold INITIAL_CARDS; lia.
Qed.

(** Along every play of version 3, whatever is answered at the prompts: no
    action count and no pool becomes negative, and no number count leaves
    the range of [int] downwards. *)
Theorem reachable_sane (g0 g : Game) :
  sane g0 -> reachable g0 g -> sane g.
Proof. intros H0 Hr. by apply (evolves_reachable g0 g Hr). Qed.

Corollary reachable_from_setup_sane (name1 name2 : string) (g : Game) :
  reachable (setupGame name1 name2) g -> sane g.
Proof.
  intros Hr. apply (reachable_sane _ g (sane_of_nonneg _ (nonneg_setupGame name1 name2)) Hr).
Qed.

End InvariantFacts.

(** * The number round of version 3 *)

Module RoundFacts.
Import V3 V3Facts Spec.

Lemma for_loop_S {S : Type} (n : nat) (body : nat -> S -> S) (s : S) :
  for_loop (Datatypes.S n) body s = body n (for_loop n body s).
Proof. unfold for_loop. rewrite seq_S, fold_left_app. reflexivity. Qed.

Lemma for_loop_0 {S : Type} (body : nat -> S -> S) (s : S) : for_loop 0 body s = s.
Proof. reflexivity. Qed.

(** *** Step 1: collecting the plays *)

Lemma participants_S g k :
  participants g (S k)
  = participants g k ++ (if isBlockedAt g k then [] else [k]).
Proof.
  unfold participants. rewrite seq_S, filter_app. f_equal. simpl.
  rewrite filter_cons, filter_nil.
  destruct (isBlockedAt g k); by case_decide.
Qed.

Lemma fold_max_init (l : list Z) (a : Z) : a <= fold_left Z.max l a.
Proof.
  revert a. induction l as [|y l IH]; intros a; simpl; [lia|].
  etransitivity; [|apply IH]. lia.
Qed.

Lemma fold_max_le (l : list Z) (a x : Z) :
  x ∈ l -> x <= fold_left Z.max l a.
Proof.
  revert a. induction l as [|y l IH]; intros a Hx; [by apply not_elem_of_nil in Hx|].
  simpl. apply elem_of_cons in Hx as [->|Hx]; [|by apply IH].
  etransitivity; [|apply fold_max_init]. lia.
Qed.

Lemma highest_ge inp g k i :
  i ∈ participants g k -> cardOf inp i <= highest inp g k.
Proof.
  intros Hi. unfold highest. apply fold_max_le.
  apply list_elem_of_fmap. by exists i.
Qed.

Lemma highest_S inp g k :
  highest inp g (S k)
  = if isBlockedAt g k then highest inp g k
    else Z.max (highest inp g k) (cardOf inp k).
Proof.
  unfold highest. rewrite participants_S.
  destruct (isBlockedAt g k); [by rewrite app_nil_r|].
  rewrite fmap_app, fold_left_app. reflexivity.
Qed.

Lemma filter_none {A} (P : A -> Prop) `{forall x, Decision (P x)} (l : list A) :
  Forall (fun x => ~ P x) l -> filter P l = [].
Proof.
  induction 1 as [|x l Hx _ IH]; [done|].
  by rewrite filter_cons_False.
Qed.

Lemma tied_S inp g k :
  tied inp g (S k)
  = if isBlockedAt g k then tied inp g k
    else if highest inp g k <? cardOf inp k then [k]
    else if cardOf inp k =? highest inp g k then tied inp g k ++ [k]
    else tied inp g k.
Proof.
  unfold tied. rewrite highest_S, participants_S.
  destruct (isBlockedAt g k) eqn:Hb; [by rewrite app_nil_r|].
  rewrite filter_app, filter_cons, filter_nil.
  destruct (Z.ltb_spec (highest inp g k) (cardOf inp k)) as [Hlt|Hge].
  - rewrite Z.max_r by lia. rewrite decide_True by done.
    rewrite filter_none; [done|].
    apply Forall_forall. intros i Hi Heq.
    pose proof (highest_ge inp g k i Hi). lia.
  - rewrite Z.max_l by lia.
    destruct (Z.eqb_spec (cardOf inp k) (highest inp g k)) as [Heq|Hne].
    + by rewrite decide_True.
    + rewrite decide_False by done. by rewrite app_nil_r.
Qed.


Lemma set_isBlocked_id p : isBlocked p = false -> set_isBlocked false p = p.
Proof. destruct p; simpl; intros ->; reflexivity. Qed.

Lemma unblockFirst_lookup k l j :
  unblockFirst k l !! j = (fun p => if (j <? k)%nat then set_isBlocked false p else p) <$> l !! j.
Proof. unfold unblockFirst. by rewrite list_lookup_imap. Qed.

Lemma isBlockedAt_unblockFirst k g j :
  (k <= j)%nat -> isBlockedAt (set_players (unblockFirst k (players g)) g) j = isBlockedAt g j.
Proof.
  intros Hkj. unfold isBlockedAt; simpl. rewrite unblockFirst_lookup.
  destruct (players g !! j); simpl; [|done].
  destruct (Nat.ltb_spec j k); [lia|done].
Qed.

Lemma playedPrefix_lookup inp g k j :
  (j < length (players g))%nat ->
  playedPrefix inp g k !! j = Some (if (j <? k)%nat then declared inp g j else 0).
Proof.
  intros Hj. unfold playedPrefix. rewrite list_lookup_fmap, lookup_seq_lt by done. reflexivity.
Qed.

Lemma length_playedPrefix inp g k : length (playedPrefix inp g k) = length (players g).
Proof. unfold playedPrefix. by rewrite length_fmap, length_seq. Qed.

Lemma playedPrefix_S inp g k :
  (k < length (players g))%nat ->
  <[k := declared inp g k]> (playedPrefix inp g k) = playedPrefix inp g (S k).
Proof.
  intros Hk. apply list_eq. intros j.
  destruct (decide (j < length (players g))%nat) as [Hj|Hj].
  - rewrite list_lookup_insert by (by rewrite length_playedPrefix). 
    rewrite !playedPrefix_lookup by done.
    case_decide as Hd.
    + destruct Hd as [-> _]. destruct (Nat.ltb_spec j (S j)); [done|lia].
    + destruct (Nat.ltb_spec j k), (Nat.ltb_spec j (S k)); try done; try lia.
      destruct (decide (k = j)); [|lia]. subst. exfalso. apply Hd. split; [done|].
      by rewrite length_playedPrefix.
  - rewrite !lookup_ge_None_2; [done| |]; rewrite ?length_insert, length_playedPrefix; lia.
Qed.

Lemma unblockFirst_0 l : unblockFirst 0 l = l.
Proof.
  apply list_eq. intros j. rewrite unblockFirst_lookup.
  destruct (l !! j); reflexivity.
Qed.

Lemma unblockFirst_S_blocked k l :
  alter (set_isBlocked false) k (unblockFirst k l) = unblockFirst (S k) l.
Proof.
  apply list_eq. intros j. rewrite list_lookup_alter, !unblockFirst_lookup.
  case_decide; subst.
  - destruct (l !! j); simpl; [|done].
    destruct (Nat.ltb_spec j j); [lia|]. destruct (Nat.ltb_spec j (S j)); [done|lia].
  - destruct (l !! j); simpl; [|done].
    destruct (Nat.ltb_spec j k), (Nat.ltb_spec j (S k)); try done; lia.
Qed.

Lemma unblockFirst_S_free k l :
  from_option isBlocked false (l !! k) = false ->
  unblockFirst k l = unblockFirst (S k) l.
Proof.
  intros Hk. apply list_eq. intros j. rewrite !unblockFirst_lookup.
  destruct (l !! j) as [p|] eqn:Hp; simpl; [|done].
  destruct (Nat.ltb_spec j k), (Nat.ltb_spec j (S k)); try done; try lia.
  assert (j = k) as -> by lia. rewrite Hp in Hk. simpl in Hk.
  by rewrite set_isBlocked_id.
Qed.

Lemma replicate_zero inp g : replicate (length (players g)) 0 = playedPrefix inp g 0.
Proof.
  apply list_eq. intros j.
  destruct (decide (j < length (players g))%nat) as [Hj|Hj].
  - rewrite lookup_replicate_2, playedPrefix_lookup by done. reflexivity.
  - rewrite !lookup_ge_None_2; [done| |]; rewrite ?length_replicate, ?length_playedPrefix; lia.
Qed.

Lemma set_players_same g : set_players (players g) g = g.
Proof. by destruct g. Qed.

Lemma collect_prefix inp g k :
  (k <= length (players g))%nat ->
  for_loop k (collectBody inp) (mkPlays g (replicate (length (players g)) 0) (-1) [])
  = mkPlays (set_players (unblockFirst k (players g)) g)
            (playedPrefix inp g k) (highest inp g k) (tied inp g k).
Proof.
  induction k as [|k IH]; intros Hk.
  - rewrite for_loop_0, unblockFirst_0, set_players_same, <- replicate_zero. reflexivity.
  - rewrite for_loop_S, IH by lia. unfold collectBody. cbn [roundGame playedCards maxCard winners].
    rewrite isBlockedAt_unblockFirst by done.
    rewrite highest_S, tied_S. unfold declared in *.
    pose proof (playedPrefix_S inp g k ltac:(lia)) as HP. unfold declared in HP.
    destruct (isBlockedAt g k) eqn:Hb.
    + f_equal; [|done]. unfold upd; simpl. by rewrite unblockFirst_S_blocked.
    + rewrite HP. rewrite <- (unblockFirst_S_free k) by done.
      destruct (Z.ltb_spec (highest inp g k) (cardOf inp k)).
      * f_equal. lia.
      * destruct (Z.eqb_spec (cardOf inp k) (highest inp g k)); f_equal; lia.
Qed.

Lemma unblockFirst_all (l : list Player) :
  unblockFirst (length l) l = set_isBlocked false <$> l.
Proof.
  apply list_eq. intros j. rewrite unblockFirst_lookup, list_lookup_fmap.
  destruct (l !! j) as [p|] eqn:Hp; simpl; [|done].
  apply lookup_lt_Some in Hp. destruct (Nat.ltb_spec j (length l)); [done|lia].
Qed.

Lemma playedPrefix_all inp g :
  playedPrefix inp g (length (players g)) = declared inp g <$> seq 0 (length (players g)).
Proof.
  unfold playedPrefix. apply list_fmap_ext. intros i j Hj.
  apply lookup_seq in Hj as [-> Hj]. simpl.
  destruct (Nat.ltb_spec i (length (players g))); [done|lia].
Qed.

(** The collecting loop in closed form: every block flag is down, a blocked
    player is recorded with the marker [-1] and every other player with the
    declared card, [maxCard] is the highest declared card and [winners] are
    the participants who declared it, in player order. *)
Lemma collectPlays_spec inp g :
  collectPlays inp g
  = mkPlays (set_players (set_isBlocked false <$> players g) g)
            (declared inp g <$> seq 0 (length (players g)))
            (highest inp g (length (players g)))
            (tied inp g (length (players g))).
Proof.
  unfold collectPlays. rewrite collect_prefix by done.
  by rewrite unblockFirst_all, playedPrefix_all.
Qed.

Lemma tied_NoDup inp g k : NoDup (tied inp g k).
Proof. unfold tied, participants. apply NoDup_filter, NoDup_filter, NoDup_seq. Qed.

Lemma tied_lt inp g k i : i ∈ tied inp g k -> (i < k)%nat /\ isBlockedAt g i = false.
Proof.
  unfold tied, participants. rewrite !list_elem_of_filter.
  intros (_ & Hb & Hi). apply elem_of_seq in Hi. split; [lia|done].
Qed.


(** *** Step 3, the tie branch *)


Lemma dealt_one_afterDraws r k : dealt 1 (afterDraws r k) = tieDraw r k.
Proof.
  unfold dealt, afterDraws, tieDraw.
  destruct (Z.leb_spec (r - Z.max 0 (Z.min (Z.of_nat k) r)) 0),
           (Z.ltb_spec (Z.of_nat k) r); lia.
Qed.

Lemma afterDraws_S r k : afterDraws r (S k) = afterDraws r k - tieDraw r k.
Proof.
  unfold afterDraws, tieDraw. destruct (Z.ltb_spec (Z.of_nat k) r); lia.
Qed.

Lemma afterDraws_0 r : afterDraws r 0 = r.
Proof. unfold afterDraws. lia. Qed.






End RoundFacts.
Module BlockFacts.
Import V3 V3Facts Spec RoundFacts InvariantFacts.

(** The vector of block flags. *)
Lemma flags_upd i f x :
  (forall p, isBlocked (f p) = isBlocked p) ->
  isBlocked <$> players (upd i f x) = isBlocked <$> players x.
Proof.
  intros Hf. unfold upd; simpl. rewrite (list_fmap_alter isBlocked f id).
  - by apply list_alter_id.
  - apply Forall_forall. intros p _. apply Hf.
Qed.

Lemma flags_upd_number i h x :
  isBlocked <$> players (upd i (set_numberCards h) x) = isBlocked <$> players x.
Proof. by apply flags_upd. Qed.
Lemma flags_upd_action i h x :
  isBlocked <$> players (upd i (set_actionCards h) x) = isBlocked <$> players x.
Proof. by apply flags_upd. Qed.
Lemma flags_upd_wins i h x :
  isBlocked <$> players (upd i (set_consecutiveWins h) x) = isBlocked <$> players x.
Proof. by apply flags_upd. Qed.

Lemma flags_drawNumberTo i a x :
  isBlocked <$> players (drawNumberTo i a x) = isBlocked <$> players x.
Proof. by rewrite drawNumberTo_eq, flags_upd_number, drawFromNumberDeck_players. Qed.

Lemma flags_drawActionTo i a x :
  isBlocked <$> players (drawActionTo i a x) = isBlocked <$> players x.
Proof. by rewrite drawActionTo_eq, flags_upd_action, drawFromActionDeck_players. Qed.

Create Rewrite HintDb flags.
#[export] Hint Rewrite flags_upd_number flags_upd_action flags_upd_wins
  flags_drawNumberTo flags_drawActionTo : flags.

Lemma flags_for_loop n body x :
  (forall i y, isBlocked <$> players (body i y) = isBlocked <$> players y) ->
  isBlocked <$> players (for_loop n body x) = isBlocked <$> players x.
Proof.
  intros Hb.
  apply (for_loop_ind (fun y => isBlocked <$> players y = isBlocked <$> players x));
    [|done].
  intros i y _ Hy. by rewrite Hb.
Qed.

Lemma flags_stealCard i t x :
  isBlocked <$> players (stealCard i t x) = isBlocked <$> players x.
Proof. unfold stealCard. destruct (_ <? _); by autorewrite with flags. Qed.

Lemma flags_penaltySeven t x :
  isBlocked <$> players (penaltySeven t x) = isBlocked <$> players x.
Proof.
  rewrite penaltySeven_eq. cbv zeta. autorewrite with flags.
  by rewrite drawFromActionDeck_players, drawFromNumberDeck_players.
Qed.

Lemma flags_processSpecialEffects inp pc x :
  isBlocked <$> players (processSpecialEffects inp pc x) = isBlocked <$> players x.
Proof.
  apply flags_for_loop. intros i y. unfold effectsBody.
  repeat destruct (_ =? _); by rewrite ?flags_penaltySeven, ?flags_stealCard.
Qed.

Lemma flags_resolveSingle w pc x :
  isBlocked <$> players (resolveSingle w pc x) = isBlocked <$> players x.
Proof.
  unfold resolveSingle. rewrite flags_for_loop; [by autorewrite with flags|].
  intros i y. unfold loserBody. destruct (_ && _); by autorewrite with flags.
Qed.

Lemma flags_resolveTie ws x :
  isBlocked <$> players (resolveTie ws x) = isBlocked <$> players x.
Proof.
  unfold resolveTie. rewrite flags_for_loop by (intros; by autorewrite with flags).
  apply (fold_left_ind (fun y => isBlocked <$> players y = isBlocked <$> players x));
    [|done].
  intros w y Hy. unfold tieShed. by autorewrite with flags.
Qed.

Lemma flags_checkConsecutiveWins inp x :
  isBlocked <$> players (checkConsecutiveWins inp x) = isBlocked <$> players x.
Proof.
  apply flags_for_loop. intros i y. unfold bonusBody.
  destruct (_ <=? _); [|done]. autorewrite with flags.
  destruct (_ =? _); [by autorewrite with flags|].
  apply flags_for_loop. intros j z. destruct (negb _); by autorewrite with flags.
Qed.

Lemma flags_handleDrawChallenge i r x :
  isBlocked <$> players (handleDrawChallenge i r x) = isBlocked <$> players x.
Proof. destruct r; [reflexivity|]. unfold handleDrawChallenge. by autorewrite with flags. Qed.

Lemma flags_checkWinCondition resp x :
  isBlocked <$> players (checkWinCondition resp x) = isBlocked <$> players x.
Proof.
  unfold checkWinCondition. generalize (seq 0 (length (players x))). intros idxs.
  revert x. induction idxs as [|i rest IH]; intros x; simpl; [done|].
  destruct (_ =? _); [|apply IH].
  destruct (gameOver _); [apply flags_handleDrawChallenge|].
  by rewrite IH, flags_handleDrawChallenge.
Qed.

Lemma flags_resolveWinner inp c x :
  isBlocked <$> players (resolveWinner inp c x) = isBlocked <$> players x.
Proof.
  unfold resolveWinner. destruct (winners c) as [|w [|w' ws]]; [done| |].
  - by rewrite flags_checkWinCondition, flags_checkConsecutiveWins, flags_resolveSingle.
  - by rewrite flags_checkWinCondition, flags_checkConsecutiveWins, flags_resolveTie.
Qed.

(** A number round leaves every block flag down. *)
Lemma flags_handleNumberRound inp g :
  isBlocked <$> players (handleNumberRound inp g) = (fun _ => false) <$> players g.
Proof.
  unfold handleNumberRound.
  rewrite flags_resolveWinner, flags_processSpecialEffects, collectPlays_spec. simpl.
  rewrite <- list_fmap_compose. by apply list_fmap_ext.
Qed.

Lemma isBlockedAt_flags g j :
  isBlockedAt g j = default false ((isBlocked <$> players g) !! j).
Proof. unfold isBlockedAt. rewrite list_lookup_fmap. by destruct (players g !! j). Qed.

Lemma isBlockedAt_after_round inp g j : isBlockedAt (handleNumberRound inp g) j = false.
Proof.
  rewrite isBlockedAt_flags, flags_handleNumberRound, list_lookup_fmap.
  by destruct (players g !! j).
Qed.

(** Action cards other than an uncountered Block, and corrections, leave
    the flags alone; Block can only raise one. *)
Lemma flags_handleReverseCard a t x :
  isBlocked <$> players (handleReverseCard a t x) = isBlocked <$> players x.
Proof.
  unfold handleReverseCard, swapNumberCards, swapActionCards. by autorewrite with flags.
Qed.

Lemma flags_handleColorChangeCard a x :
  isBlocked <$> players (handleColorChangeCard a x) = isBlocked <$> players x.
Proof.
  unfold handleColorChangeCard. autorewrite with flags.
  apply flags_for_loop. intros. by autorewrite with flags.
Qed.

Lemma flags_handleDrawCard a amount t counter x :
  isBlocked <$> players (handleDrawCard a amount t counter x) = isBlocked <$> players x.
Proof.
  unfold handleDrawCard. destruct counter; [|by autorewrite with flags].
  autorewrite with flags. repeat destruct (_ <? _); by autorewrite with flags.
Qed.

Lemma flags_handleTruthCard a t answered choice x :
  isBlocked <$> players (handleTruthCard a t answered choice x) = isBlocked <$> players x.
Proof.
  unfold handleTruthCard. autorewrite with flags.
  destruct answered; [done|]. destruct (_ =? _); by autorewrite with flags.
Qed.

Lemma flags_handleDareCard a t completed x :
  isBlocked <$> players (handleDareCard a t completed x) = isBlocked <$> players x.
Proof. unfold handleDareCard. destruct completed; [by autorewrite with flags|reflexivity]. Qed.

Lemma flags_manualAdjustment pIdx choice newCount x :
  isBlocked <$> players (manualAdjustment pIdx choice newCount x) = isBlocked <$> players x.
Proof. unfold manualAdjustment. repeat destruct (_ =? _); by autorewrite with flags. Qed.

Lemma blocked_handleBlockCard a t counter x j :
  isBlockedAt x j = true -> isBlockedAt (handleBlockCard a t counter x) j = true.
Proof.
  intros Hj. unfold handleBlockCard. destruct counter.
  - rewrite isBlockedAt_flags in *. by autorewrite with flags.
  - autorewrite with upd.
    unfold isBlockedAt in *. unfold upd; simpl. rewrite list_lookup_alter.
    case_decide; subst; [|done].
    destruct (players x !! j); simpl in *; done.
Qed.

(** Between two number rounds a raised flag stays up. *)
Lemma blocked_until_round g c j :
  (forall inp, c ≠ NumberRound inp) ->
  isBlockedAt g j = true -> isBlockedAt (step g c) j = true.
Proof.
  intros Hc Hj. destruct c as [inp|a actionStr ans| |pIdx choice newCount|]; simpl.
  - by destruct (Hc inp).
  - unfold handleActionCard.
    destruct (parseActionType actionStr); try done;
      try (by apply blocked_handleBlockCard);
      rewrite isBlockedAt_flags in *;
      by rewrite ?flags_handleReverseCard, ?flags_handleColorChangeCard,
           ?flags_handleDrawCard, ?flags_handleTruthCard, ?flags_handleDareCard.
  - done.
  - rewrite isBlockedAt_flags in *. by rewrite flags_manualAdjustment.
  - done.
Qed.

End BlockFacts.

(** * Ties *)

Module TieFacts.
Import V3 V3Facts Spec RoundFacts InvariantFacts BlockFacts.

Lemma length_evolves g x : evolves g x -> length (players x) = length (players g).
Proof.
  intros (_ & _ & Hn). rewrite <- (length_fmap name (players x)), Hn.
  apply length_fmap.
Qed.


Lemma playedAt_declared inp g j :
  (j < length (players g))%nat ->
  playedAt (playedCards (collectPlays inp g)) j = declared inp g j.
Proof.
  intros Hj. rewrite collectPlays_spec. unfold playedAt; simpl.
  by rewrite list_lookup_fmap, lookup_seq_lt.
Qed.


End TieFacts.








(** * The win evaluation *)

Module WinFacts.
Import V3 V3Facts Spec RoundFacts InvariantFacts TieFacts.

Lemma nameAt_evolves g x i : evolves g x -> nameAt x i = nameAt g i.
Proof.
  intros (_ & _ & Hn). unfold nameAt.
  assert (Hl : (name <$> players x) !! i = (name <$> players g) !! i)
    by (by rewrite Hn).
  rewrite !list_lookup_fmap in Hl.
  destruct (players x !! i), (players g !! i); simpl in *; congruence.
Qed.

Lemma numberCardsAt_drawNumberTo_ne i j a x :
  i ≠ j -> numberCardsAt (drawNumberTo i a x) j = numberCardsAt x j.
Proof.
  intros Hne. rewrite drawNumberTo_eq, numberCardsAt_upd_ne by done.
  unfold numberCardsAt. by rewrite drawFromNumberDeck_players.
Qed.

Lemma numberCardsAt_drawNumberTo_eq i a x :
  (i < length (players x))%nat ->
  numberCardsAt (drawNumberTo i a x) i
  = numberCardsAt x i + fst (drawFromNumberDeck a x).
Proof.
  intros Hi. rewrite drawNumberTo_eq.
  rewrite numberCardsAt_upd_eq by (by rewrite drawFromNumberDeck_players).
  unfold numberCardsAt. by rewrite drawFromNumberDeck_players.
Qed.

Lemma actionCardsAt_drawNumberTo i a x j :
  actionCardsAt (drawNumberTo i a x) j = actionCardsAt x j.
Proof.
  rewrite drawNumberTo_eq. autorewrite with upd.
  unfold actionCardsAt. by rewrite drawFromNumberDeck_players.
Qed.

Lemma numberCardsAt_handleDrawChallenge_ne i r x j :
  i ≠ j -> numberCardsAt (handleDrawChallenge i r x) j = numberCardsAt x j.
Proof.
  intros Hne. destruct r as [|c k]; [reflexivity|].
  unfold handleDrawChallenge. autorewrite with upd.
  by apply numberCardsAt_drawNumberTo_ne.
Qed.

Lemma numberCardsAt_checkWinFrom idxs resp x j :
  j ∉ idxs -> numberCardsAt (checkWinFrom idxs resp x) j = numberCardsAt x j.
Proof.
  revert x. induction idxs as [|i rest IH]; intros x Hj; simpl; [done|].
  apply not_elem_of_cons in Hj as [Hne Hj].
  destruct (_ =? _); [|by apply IH].
  destruct (gameOver _).
  - by apply numberCardsAt_handleDrawChallenge_ne.
  - by rewrite IH, numberCardsAt_handleDrawChallenge_ne.
Qed.

(** The game ends in [handleDrawChallenge] only, so the evaluation of a list
    of players splits at any point: the players after the point are visited
    unless one before it has won. *)
Lemma gameOver_challenged i c k x :
  gameOver (handleDrawChallenge i (Challenge c k) x) = gameOver x.
Proof.
  unfold handleDrawChallenge. rewrite drawNumberTo_eq.
  unfold drawFromNumberDeck. by destruct (_ <=? _).
Qed.

Lemma checkWinFrom_app l1 l2 resp x :
  gameOver x = false ->
  checkWinFrom (l1 ++ l2) resp x
  = let x1 := checkWinFrom l1 resp x in
    if gameOver x1 then x1 else checkWinFrom l2 resp x1.
Proof.
  revert x. induction l1 as [|i l1 IH]; intros x Hx; simpl.
  - by rewrite Hx.
  - destruct (_ =? _); [|by apply IH].
    destruct (gameOver (handleDrawChallenge i (resp i) x)) eqn:Hgo.
    + by rewrite Hgo.
    + by apply IH.
Qed.

Lemma seq_split (i n : nat) :
  (i < n)%nat -> seq 0 n = seq 0 i ++ i :: seq (S i) (n - S i).
Proof.
  intros Hi. replace n with (i + S (n - S i))%nat at 1 by lia.
  rewrite seq_app. simpl. reflexivity.
Qed.

(** Every pass of [checkWinCondition] takes a player who holds no number
    card through the challenge phase, unless a player before has just been
    declared winner. *)
Lemma checkWinCondition_enters (resp : nat -> ChallengeResp) (g : Game) (i : nat) :
  gameOver g = false -> (i < length (players g))%nat -> numberCardsAt g i = 0 ->
  let g1 := checkWinFrom (seq 0 i) resp g in
  gameOver g1 = false ->
  numberCardsAt g1 i = 0
  /\ checkWinCondition resp g
     = (let g2 := handleDrawChallenge i (resp i) g1 in
        if gameOver g2 then g2
        else checkWinFrom (seq (S i) (length (players g) - S i)) resp g2).
Proof.
  intros Hgo Hi Hz g1 Hgo1.
  assert (Hz1 : numberCardsAt g1 i = 0).
  { subst g1. rewrite numberCardsAt_checkWinFrom; [done|].
    intros Hin. apply elem_of_seq in Hin. lia. }
  split; [done|].
  unfold checkWinCondition. rewrite (seq_split i) by done.
  rewrite checkWinFrom_app by done. fold g1. cbv zeta. rewrite Hgo1.
  simpl. rewrite Hz1. reflexivity.
Qed.

End WinFacts.

(** The challenge phase once it is entered.  [handleDrawChallenge] for a
    player [i] holding no number card: unchallenged, the game is over and
    [i] is the winner, nothing else changes; challenged by [c] with a +2 or
    +4, [i] draws [drawFromNumberDeck(N)], [c]'s action count is clamped
    down by one (one lower when [c] holds a card), and neither [gameOver]
    nor [winner] is touched.  [checkWinCondition] takes every player
    holding no number card through this phase each time it runs, unless a
    player before has just won.  It runs at the end of a number round
    only. *)
Lemma challenge_phase_effects (g : V3.Game) (i c : nat) (N : DrawKind)
    (resp resp' : nat -> V3.ChallengeResp) :
  V3.gameOver g = false ->
  (i < length (V3.players g))%nat -> (c < length (V3.players g))%nat -> c ≠ i ->
  V3.numberCardsAt g i = 0 ->
  (* no challenge *)
  (let g' := V3.handleDrawChallenge i V3.NoChallenge g in
   V3.gameOver g' = true /\ V3.winner g' = V3.nameAt g i
   /\ V3.players g' = V3.players g
   /\ V3.numberDeckRemaining g' = V3.numberDeckRemaining g
   /\ V3.actionDeckRemaining g' = V3.actionDeckRemaining g)
  (* a challenge with a draw card *)
  /\ (let g' := V3.handleDrawChallenge i (V3.Challenge c N) g in
      let drawn := fst (V3.drawFromNumberDeck (drawAmount N) g) in
      V3.numberCardsAt g' i = 0 + drawn
      /\ V3.numberDeckRemaining g' = V3.numberDeckRemaining g - drawn
      /\ V3.actionCardsAt g' c = V3.shed (V3.actionCardsAt g c)
      /\ (1 <= V3.actionCardsAt g c -> V3.actionCardsAt g' c = V3.actionCardsAt g c - 1)
      /\ V3.gameOver g' = false /\ V3.winner g' = V3.winner g
      (* the next evaluation, should the player still hold no card *)
      /\ (V3.numberCardsAt g' i = 0 ->
          let g1 := V3.checkWinFrom (seq 0 i) resp' g' in
          V3.gameOver g1 = false ->
          V3.checkWinCondition resp' g'
          = (let g2 := V3.handleDrawChallenge i (resp' i) g1 in
             if V3.gameOver g2 then g2
             else V3.checkWinFrom (seq (S i) (length (V3.players g) - S i)) resp' g2)
          /\ (resp' i = V3.NoChallenge ->
              V3.gameOver (V3.checkWinCondition resp' g') = true
              /\ V3.winner (V3.checkWinCondition resp' g') = V3.nameAt g i)))
  (* the evaluation that finds the player at 0 *)
  /\ (let g1 := V3.checkWinFrom (seq 0 i) resp g in
      V3.gameOver g1 = false ->
      V3.checkWinCondition resp g
      = (let g2 := V3.handleDrawChallenge i (resp i) g1 in
         if V3.gameOver g2 then g2
         else V3.checkWinFrom (seq (S i) (length (V3.players g) - S i)) resp g2)).
Proof.
  intros Hgo Hi Hc Hci Hz. split; [repeat split|]. split.
  - cbv zeta.
    set (g' := V3.handleDrawChallenge i (V3.Challenge c N) g).
    assert (Hlen : length (V3.players g') = length (V3.players g)).
    { apply TieFacts.length_evolves, InvariantFacts.evolves_handleDrawChallenge,
        InvariantFacts.evolves_refl. }
    assert (Hnames : V3.nameAt g' i = V3.nameAt g i).
    { apply WinFacts.nameAt_evolves, InvariantFacts.evolves_handleDrawChallenge,
        InvariantFacts.evolves_refl. }
    assert (Hgo' : V3.gameOver g' = false)
      by (subst g'; by rewrite WinFacts.gameOver_challenged).
    split.
    { subst g'. unfold V3.handleDrawChallenge.
      rewrite V3Facts.numberCardsAt_upd_actionCards.
      rewrite WinFacts.numberCardsAt_drawNumberTo_eq by done. by rewrite Hz. }
    split.
    { subst g'. unfold V3.handleDrawChallenge. rewrite V3Facts.drawNumberTo_eq.
      rewrite V3Facts.drawFromNumberDeck_snd, V3Facts.drawFromNumberDeck_fst. reflexivity. }
    assert (Hact : V3.actionCardsAt g' c = V3.shed (V3.actionCardsAt g c)).
    { subst g'. unfold V3.handleDrawChallenge.
      rewrite V3Facts.actionCardsAt_upd_eq.
      - by rewrite WinFacts.actionCardsAt_drawNumberTo.
      - rewrite (TieFacts.length_evolves g); [done|].
        apply InvariantFacts.evolves_drawNumberTo;
          [apply InvariantFacts.drawAmount_nonneg|apply InvariantFacts.evolves_refl]. }
    split; [done|]. split; [intros; rewrite Hact; by apply shed_pos|].
    split; [done|]. split.
    { subst g'. unfold V3.handleDrawChallenge. rewrite V3Facts.drawNumberTo_eq.
      unfold V3.drawFromNumberDeck. by destruct (_ <=? _). }
    intros Hz' Hgo1. set (g1 := V3.checkWinFrom (seq 0 i) resp' g') in *.
    assert (Hi' : (i < length (V3.players g'))%nat) by lia.
    destruct (WinFacts.checkWinCondition_enters resp' g' i Hgo' Hi' Hz' Hgo1)
      as [Hz1 Heq].
    rewrite Hlen in Heq. split; [exact Heq|].
    intros Hno. rewrite Heq, Hno. cbn.
    split; [done|].
    rewrite <- Hnames.
    apply WinFacts.nameAt_evolves, InvariantFacts.evolves_checkWinFrom,
      InvariantFacts.evolves_refl.
  - intros g1 Hgo1.
    by destruct (WinFacts.checkWinCondition_enters resp g i Hgo Hi Hz Hgo1).
Qed.

(** C5, where the program departs from it.  Two plays from the start of
    "A" against "B".

    (1) A wins nineteen rounds and holds one number card, then sheds it
    with a completed DARE: A holds no number card, nobody has been asked
    for a challenge, and the game is not over; the menu comes back.  In the
    round after, A's 3 loses to B's 9, A draws the loser's card, and the
    game goes on without a winner.

    (2) The number deck is used up, A sheds the last card by winning a
    round, and B challenges with a +2: A draws nothing and is still at 0, B
    has paid one action card, and the round is over with no second
    challenge phase and no winner.  In the round after, A steals a card
    with a 0 and the game goes on without a winner. *)
Theorem zero_count_not_evaluated :
  let start := V3.setupGame "A" "B" in
  (let g0 := V3.run Spec.nineteenWins start in
   let g1 := V3.run (Spec.nineteenWins ++ [Spec.dareCompleted]) start in
   let g2 := V3.run (Spec.nineteenWins
                     ++ [Spec.dareCompleted; V3.NumberRound Spec.threeLosesToNine])
                    start in
   (V3.numberCardsAt g0 0 = 1 /\ V3.gameOver g0 = false)
   /\ g1 = V3.handleDareCard 0 1 true g0
   /\ (V3.numberCardsAt g1 0 = 0 /\ V3.gameOver g1 = false /\ V3.winner g1 = "")
   /\ (V3.numberCardsAt g2 0 = 1 /\ V3.gameOver g2 = false /\ V3.winner g2 = ""))
  /\ (let g0 := V3.run (take 52 Spec.emptyDeckWins) start in
      let g1 := V3.run Spec.emptyDeckWins start in
      let g2 := V3.run (Spec.emptyDeckWins ++ [V3.NumberRound Spec.zeroAgainstNine])
                       start in
      (V3.numberCardsAt g0 0 = 1 /\ V3.numberDeckRemaining g0 = 0
       /\ V3.actionCardsAt g0 1 = 12 /\ V3.gameOver g0 = false)
      /\ (V3.numberCardsAt g1 0 = 0 /\ V3.numberDeckRemaining g1 = 0
          /\ V3.actionCardsAt g1 1 = 11
          /\ V3.gameOver g1 = false /\ V3.winner g1 = "")
      /\ (V3.numberCardsAt g2 0 = 1 /\ V3.actionCardsAt g2 1 = 11
          /\ V3.gameOver g2 = false /\ V3.winner g2 = "")).
Proof. vm_compute. repeat split. Qed.

(** * Blocking *)

(** X3.  In version 3 a block lasts exactly one number round: the blocked player
    is recorded with the marker and cannot be a winner, the round leaves
    every flag down whatever its outcome, the player declares a card in the
    round after, and no other command of the menu lowers a raised flag. *)
Lemma block_lasts_one_round (g : V3.Game) (inp inp' : V3.RoundInput) (i : nat) :
  (i < length (V3.players g))%nat -> V3.isBlockedAt g i = true ->
  let c := V3.collectPlays inp g in
  V3.playedAt (V3.playedCards c) i = -1
  /\ (i ∉ V3.winners c)
  /\ (forall j, V3.isBlockedAt (V3.handleNumberRound inp g) j = false)
  /\ V3.playedAt (V3.playedCards (V3.collectPlays inp' (V3.handleNumberRound inp g))) i
     = V3.cardOf inp' i
  /\ (forall cmd, (forall r, cmd ≠ V3.NumberRound r) ->
        V3.isBlockedAt (V3.step g cmd) i = true).
Proof.
  intros Hi Hb c. subst c. split.
  { rewrite TieFacts.playedAt_declared by done. unfold Spec.declared. by rewrite Hb. }
  split.
  { rewrite RoundFacts.collectPlays_spec. simpl. intros Hin.
    apply RoundFacts.tied_lt in Hin as [_ Hf]. congruence. }
  split; [intros j; apply BlockFacts.isBlockedAt_after_round|].
  split.
  { rewrite TieFacts.playedAt_declared.
    - unfold Spec.declared. by rewrite BlockFacts.isBlockedAt_after_round.
    - rewrite (TieFacts.length_evolves g); [done|].
      apply InvariantFacts.evolves_handleNumberRound. }
  intros cmd Hcmd. by apply BlockFacts.blocked_until_round.
Qed.

Module WebFacts.
Import Web.

(** Whoever plays BLOCK in the browser game, [resolveAction] hands over to
    [endRound], which lowers both flags before [startRound] looks at them. *)
Lemma block_cleared_by_endRound sortHand (user : Side) (card : Card)
    (aiChoice : option Card) (g : Game) :
  value card = Block -> state g ≠ GAME_OVER ->
  isBlocked (sideOf (applyAction sortHand user card g) (other user)) = true
  /\ (let g' := resolveAction sortHand user card aiChoice g in
      isBlocked (player g') = false /\ isBlocked (ai g') = false
      /\ tempPlayedAi g' = aiChoice
      /\ roundCount g' = roundCount g + 1).
Proof.
  intros Hv Hs. unfold resolveAction, applyAction. rewrite Hv.
  destruct user; simpl; (split; [reflexivity|]);
    destruct (state g); try congruence; repeat split.
Qed.

Lemma draw_count (d : Deck) : count (snd (draw d)) = (count d - 1)%nat.
Proof.
  unfold draw, count; simpl. destruct (cards d) as [|c l] using rev_ind; [done|].
  rewrite removelast_last, length_app. simpl. by rewrite Nat.add_sub.
Qed.

Lemma drawCards_counts sortHand who n t g :
  (count (numberDeck (drawCards sortHand who n t g)) <= count (numberDeck g))%nat
  /\ (count (actionDeck (drawCards sortHand who n t g)) <= count (actionDeck g))%nat.
Proof.
  revert g. induction n as [|n IH]; intros g; cbn [drawCards]; [lia|].
  destruct (Nat.eqb_spec (count (deckOf g t)) 0); [lia|].
  pose proof (draw_count (deckOf g t)) as Hc.
  destruct (draw (deckOf g t)) as [[c|] d] eqn:Hd; [|lia].
  simpl in Hc.
  match goal with |- context [drawCards _ _ _ _ ?x] => specialize (IH x) end.
  destruct t, who; simpl in *; lia.
Qed.

End WebFacts.

(** C8, evaluated on the browser game.  In the action phase of round 3 the
    human plays BLOCK against the AI.  [applyAction] raises the AI's flag;
    [resolveAction] goes on to [endRound], which lowers it again before
    round 4 starts: in round 4 the AI is not skipped (its chosen card is
    stored as its play) although no round has passed with the AI blocked. *)
Theorem web_block_never_takes_effect :
  let raised := Web.applyAction id Web.Human Spec.blockCard Spec.webActionPhase in
  let next := Web.resolveAction id Web.Human Spec.blockCard (Some Spec.nineCard)
                Spec.webActionPhase in
  Web.isBlocked (Web.ai Spec.webActionPhase) = false
  /\ Web.isBlocked (Web.ai raised) = true
  /\ Web.roundCount next = 4
  /\ Web.isBlocked (Web.ai next) = false
  /\ Web.tempPlayedAi next = Some Spec.nineCard.
Proof. vm_compute. repeat split. Qed.

(** * The pools only shrink *)

Lemma decksLe_run (cs : list V3.Command) (g : V3.Game) :
  (forall c, Spec.decksLe (V3.step g c) g) ->
  (forall x c, Spec.decksLe (V3.step x c) x) -> Spec.decksLe (V3.run cs g) g.
Proof.
  intros _ Hstep. revert g. induction cs as [|c cs IH]; intros g; simpl.
  - unfold Spec.decksLe. lia.
  - destruct (V3.gameOver g); [unfold Spec.decksLe; lia|].
    specialize (IH (V3.step g c)). specialize (Hstep g c).
    unfold Spec.decksLe in *. lia.
Qed.

Lemma decksLe_step (g : V3.Game) (c : V3.Command) : Spec.decksLe (V3.step g c) g.
Proof.
  destruct c as [inp|a actionStr ans| |pIdx choice newCount|]; simpl.
  - apply InvariantFacts.evolves_handleNumberRound.
  - apply InvariantFacts.evolves_handleActionCard.
  - unfold Spec.decksLe. lia.
  - unfold V3.manualAdjustment, Spec.decksLe.
    repeat destruct (_ =? _); simpl; lia.
  - unfold Spec.decksLe. simpl. lia.
Qed.

(** C10.  No operation of the engine returns a card to a pool: a pass
    through the menu of version 3 (number round, any action card, display,
    manual adjustment, ending the game), the bonus and win evaluations on
    their own, and any sequence of commands leave [numberDeckRemaining] and
    [actionDeckRemaining] no larger than they were; in the browser game
    [Deck.draw] takes one card off a deck (none off an empty one) and
    [drawCards] never lets a deck grow. *)
Theorem decks_never_grow (g : V3.Game) (c : V3.Command) (cs : list V3.Command)
    (inp : V3.RoundInput) (resp : nat -> V3.ChallengeResp)
    (d : Web.Deck) (sortHand : list Web.Card -> list Web.Card) (wg : Web.Game)
    (who : Web.Side) (k : nat) (t : Web.CardType) :
  Spec.decksLe (V3.step g c) g
  /\ Spec.decksLe (V3.run cs g) g
  /\ Spec.decksLe (V3.checkConsecutiveWins inp g) g
  /\ Spec.decksLe (V3.checkWinCondition resp g) g
  /\ Web.count (snd (Web.draw d)) = (Web.count d - 1)%nat
  /\ (Web.count (Web.numberDeck (Web.drawCards sortHand who k t wg))
      <= Web.count (Web.numberDeck wg))%nat
  /\ (Web.count (Web.actionDeck (Web.drawCards sortHand who k t wg))
      <= Web.count (Web.actionDeck wg))%nat.
Proof.
  split; [apply decksLe_step|].
  split; [apply decksLe_run; auto using decksLe_step|].
  split; [apply InvariantFacts.evolves_checkConsecutiveWins, InvariantFacts.evolves_refl|].
  split; [apply InvariantFacts.evolves_checkWinCondition, InvariantFacts.evolves_refl|].
  split; [apply WebFacts.draw_count|].
  apply WebFacts.drawCards_counts.
Qed.

(** * Counters below zero in version 1 *)

(** C1, evaluated on version 1, which subtracts without clamping.  From the
    initial state (20 number cards each, no action cards, pools 68 and 32):
    one accepted DARE played by A leaves A with -1 action cards; the twenty
    rounds of [Spec.bWinsTwenty] followed by a round in which A plays 0
    against B's 5 leave B with -2 number cards; the eighteen rounds of
    [Spec.sevensAgainstNines] leave -4 cards in the number pool.  The game
    is still running in each of these states. *)
Theorem v1_counters_go_negative :
  (let s := V1.run [V1.PlayDare TwoPlayer.PlayerA true] TwoPlayer.initial in
   TwoPlayer.playerAActionCards s = -1 /\ TwoPlayer.gameOver s = false)
  /\ (let s := V1.run (Spec.bWinsTwenty ++ [Spec.v1Round 0 5 TwoPlayer.NoChal])
                 TwoPlayer.initial in
      TwoPlayer.playerBCards s = -2 /\ TwoPlayer.gameOver s = false)
  /\ (let s := V1.run Spec.sevensAgainstNines TwoPlayer.initial in
      TwoPlayer.numberDeckRemaining s = -4 /\ TwoPlayer.gameOver s = false).
Proof. vm_compute. repeat split. Qed.

(** * Further properties of the N-player arbiter *)

Lemma steal_transfers_one_card_witness :
  (0%nat ≠ 1%nat /\ (1 < length (V3.players Spec.midGame))%nat)
  /\ V3.numberCardsAt (V3.stealCard 0 1 Spec.midGame) 0 = 6
  /\ V3.numberCardsAt (V3.stealCard 0 1 Spec.midGame) 1 = 6
  /\ V3.stealCard 1 0 Spec.lastCard = Spec.lastCard.
Proof.
  assert (H1 : 0%nat ≠ 1%nat) by lia.
  assert (H2 : (0 < length (V3.players Spec.midGame))%nat) by (simpl; lia).
  assert (H3 : (1 < length (V3.players Spec.midGame))%nat) by (simpl; lia).
  assert (Hm : V3.numberCardsAt Spec.midGame 1 <= INT_MAX) by (vm_compute; discriminate).
  split; [by split|].
  destruct (StealFacts.steal_transfers_one_card Spec.midGame 0 1 H1 H2 H3 Hm)
    as (Hpos & _).
  assert (Hp : 0 < V3.numberCardsAt Spec.midGame 1) by (vm_compute; reflexivity).
  assert (Hr : INT_MIN <= V3.numberCardsAt Spec.midGame 0 < INT_MAX)
    by (vm_compute; split; [discriminate|reflexivity]).
  destruct (Hpos Hp Hr) as (Ha & Hb & _).
  split; [exact Ha|]. split; [exact Hb|].
  assert (H4 : 1%nat ≠ 0%nat) by lia.
  assert (H5 : (1 < length (V3.players Spec.lastCard))%nat) by (simpl; lia).
  assert (H6 : (0 < length (V3.players Spec.lastCard))%nat) by (simpl; lia).
  assert (Hm' : V3.numberCardsAt Spec.lastCard 0 <= INT_MAX)
    by (vm_compute; discriminate).
  destruct (StealFacts.steal_transfers_one_card Spec.lastCard 1 0 H4 H5 H6 Hm')
    as (_ & _ & Hzero & _).
  apply Hzero. vm_compute. discriminate.
Defined.

Lemma block_lasts_one_round_witness :
  ((2 < length (V3.players Spec.threeHanded))%nat
   /\ V3.isBlockedAt Spec.threeHanded 2 = true)
  /\ V3.playedAt (V3.playedCards (V3.collectPlays Spec.allPlayNine Spec.threeHanded)) 2 = -1
  /\ V3.isBlockedAt (V3.handleNumberRound Spec.allPlayNine Spec.threeHanded) 2 = false
  /\ V3.isBlockedAt (V3.step Spec.threeHanded V3.DisplayState) 2 = true.
Proof.
  assert (H1 : (2 < length (V3.players Spec.threeHanded))%nat) by (vm_compute; lia).
  assert (H2 : V3.isBlockedAt Spec.threeHanded 2 = true) by reflexivity.
  split; [by split|].
  destruct (block_lasts_one_round Spec.threeHanded Spec.allPlayNine Spec.allPlayNine 2
              H1 H2) as (Ha & _ & Hb & _ & Hc).
  split; [exact Ha|]. split; [exact (Hb 2%nat)|].
  apply Hc. intros r. discriminate.
Defined.

Lemma handleReverseCard_net_witness :
  (1%nat ≠ 0%nat /\ (1 < length (V3.players Spec.midGame))%nat)
  /\ V3.handleReverseCard 1 0 Spec.midGame
     = V3.mkGame [V3.mkPlayer "A" 5 0 0 false; V3.mkPlayer "B" 7 2 0 false]
                 10 4 false EmptyString.
Proof.
  assert (H1 : 1%nat ≠ 0%nat) by lia.
  assert (H2 : (1 < length (V3.players Spec.midGame))%nat) by (simpl; lia).
  assert (H3 : (0 < length (V3.players Spec.midGame))%nat) by (simpl; lia).
  split; [by split|].
  rewrite (ReverseFacts.handleReverseCard_net 1 0 Spec.midGame H1 H2 H3).
  reflexivity.
Defined.

Module ExtraFacts.
Import V3 V3Facts Spec RoundFacts InvariantFacts.

Lemma fold_max_bound (l : list Z) (a b : Z) :
  a <= b -> Forall (fun x => x <= b) l -> fold_left Z.max l a <= b.
Proof.
  revert a. induction l as [|x l IH]; intros a Ha Hl; simpl; [done|].
  apply Forall_cons in Hl as [Hx Hl]. apply IH; [lia|done].
Qed.

Lemma elem_of_participants g k i :
  i ∈ participants g k <-> (i < k)%nat /\ isBlockedAt g i = false.
Proof.
  unfold participants. rewrite list_elem_of_filter, elem_of_seq. intuition lia.
Qed.

(** A loop that assigns to every element in turn. *)
Lemma for_loop_upd_prefix (f : Player -> Player) (g : Game) (k : nat) :
  for_loop k (fun i g' => upd i f g') g
  = set_players (imap (fun j p => if (j <? k)%nat then f p else p) (players g)) g.
Proof.
  induction k as [|k IH].
  - rewrite for_loop_0. rewrite <- (set_players_same g) at 1. f_equal.
    apply list_eq. intros j. rewrite list_lookup_imap. by destruct (players g !! j).
  - rewrite for_loop_S, IH. unfold upd, set_players; simpl. f_equal.
    apply list_eq. intros j. rewrite list_lookup_alter, !list_lookup_imap.
    case_decide; subst.
    + destruct (players g !! j); simpl; [|done].
      destruct (Nat.ltb_spec j j); [lia|]. destruct (Nat.ltb_spec j (S j)); [done|lia].
    + destruct (players g !! j); simpl; [|done].
      destruct (Nat.ltb_spec j k), (Nat.ltb_spec j (S k)); try done; lia.
Qed.

Lemma for_loop_upd_all (f : Player -> Player) (g : Game) :
  for_loop (length (players g)) (fun i g' => upd i f g') g
  = set_players (f <$> players g) g.
Proof.
  rewrite for_loop_upd_prefix. f_equal.
  apply list_eq. intros j. rewrite list_lookup_imap, list_lookup_fmap.
  destruct (players g !! j) eqn:Hj; simpl; [|done].
  apply lookup_lt_Some in Hj. destruct (Nat.ltb_spec j (length (players g))); [done|lia].
Qed.

(** A selection from [s, s+1, ...] lists its members in increasing order. *)
Lemma filter_seq_increasing (P : nat -> Prop) `{!forall i, Decision (P i)}
    (n s k1 k2 a b : nat) :
  filter P (seq s n) !! k1 = Some a -> filter P (seq s n) !! k2 = Some b ->
  (k1 < k2)%nat -> (a < b)%nat.
Proof.
  revert s k1 k2. induction n as [|n IH]; intros s k1 k2 Ha Hb Hk; simpl in *;
    [done|].
  rewrite filter_cons in Ha, Hb. destruct (decide (P s)); [|by apply (IH (S s) k1 k2)].
  destruct k2 as [|k2]; [lia|]. simpl in Hb.
  destruct k1 as [|k1]; simpl in Ha.
  - injection Ha as <-.
    apply list_elem_of_lookup_2, list_elem_of_filter in Hb as [_ Hb].
    apply elem_of_seq in Hb. lia.
  - apply (IH (S s) k1 k2); [done|done|lia].
Qed.

End ExtraFacts.

(** X5.  Winner determination of a number round, for cards as the prompt
    accepts them (0 to 9): a player is among [winners] exactly when the
    player is not blocked and no other participant declared a higher card;
    the winners are listed in seating order, each once; and [maxCard] is the
    card the winners declared. *)
Theorem winners_are_highest_bidders (inp : V3.RoundInput) (g : V3.Game) (i : nat) :
  (forall j, 0 <= V3.cardOf inp j <= 9) ->
  let n := length (V3.players g) in
  let c := V3.collectPlays inp g in
  (i ∈ V3.winners c <->
     (i < n)%nat /\ V3.isBlockedAt g i = false
     /\ forall j, (j < n)%nat -> V3.isBlockedAt g j = false ->
                  V3.cardOf inp j <= V3.cardOf inp i)
  /\ (forall k1 k2 a b, V3.winners c !! k1 = Some a -> V3.winners c !! k2 = Some b ->
        (k1 < k2)%nat -> (a < b)%nat)
  /\ NoDup (V3.winners c)
  /\ (i ∈ V3.winners c -> V3.maxCard c = V3.cardOf inp i).
Proof.
  intros Hvalid n c. subst c. rewrite RoundFacts.collectPlays_spec. simpl. fold n.
  split; [|split; [|split; [apply RoundFacts.tied_NoDup|]]].
  - unfold Spec.tied. rewrite list_elem_of_filter, ExtraFacts.elem_of_participants.
    split.
    + intros (Heq & Hi & Hb). repeat split; try done.
      intros j Hj Hbj. rewrite Heq. apply RoundFacts.highest_ge.
      by apply ExtraFacts.elem_of_participants.
    + intros (Hi & Hb & Hmax). repeat split; try done.
      apply Z.le_antisymm.
      * apply RoundFacts.highest_ge. by apply ExtraFacts.elem_of_participants.
      * unfold Spec.highest. apply ExtraFacts.fold_max_bound.
        { specialize (Hvalid i). lia. }
        apply Forall_forall. intros x Hx.
        apply list_elem_of_fmap in Hx as (j & -> & Hj).
        apply ExtraFacts.elem_of_participants in Hj as [Hj Hbj]. by apply Hmax.
  - unfold Spec.tied, Spec.participants. rewrite list_filter_filter.
    intros k1 k2 a b. apply ExtraFacts.filter_seq_increasing.
  - unfold Spec.tied. rewrite list_elem_of_filter. intros [Heq _]. done.
Qed.

Lemma winners_are_highest_bidders_witness :
  (forall j, 0 <= V3.cardOf Spec.sevenBeatsThree j <= 9)
  /\ (0%nat ∈ V3.winners (V3.collectPlays Spec.sevenBeatsThree (V3.setupGame "A" "B")))
  /\ V3.maxCard (V3.collectPlays Spec.sevenBeatsThree (V3.setupGame "A" "B")) = 7.
Proof.
  assert (Hv : forall j, 0 <= V3.cardOf Spec.sevenBeatsThree j <= 9).
  { intros j. simpl. destruct (Nat.eqb j 0); lia. }
  split; [exact Hv|].
  destruct (winners_are_highest_bidders Spec.sevenBeatsThree (V3.setupGame "A" "B") 0 Hv)
    as (Hiff & _ & _ & Hmax).
  assert (Hin : 0%nat ∈ V3.winners (V3.collectPlays Spec.sevenBeatsThree
                                      (V3.setupGame "A" "B"))).
  { apply Hiff. split; [simpl; lia|]. split; [reflexivity|].
    intros j _ _. simpl. destruct (Nat.eqb j 0); lia. }
  split; [exact Hin|]. exact (Hmax Hin).
Defined.

(** X6.  A number round in which every player is blocked only lowers the
    block flags: nobody sheds or draws, no streak changes, and neither the
    bonus nor the win evaluation runs (a player holding no number card is
    not asked about challenges in such a round). *)
Theorem all_blocked_round_only_unblocks (inp : V3.RoundInput) (g : V3.Game) :
  (forall i, (i < length (V3.players g))%nat -> V3.isBlockedAt g i = true) ->
  V3.handleNumberRound inp g
  = V3.set_players (V3.set_isBlocked false <$> V3.players g) g.
Proof.
  intros Hall. unfold V3.handleNumberRound, V3.resolveWinner.
  rewrite RoundFacts.collectPlays_spec. simpl.
  assert (Hpart : Spec.participants g (length (V3.players g)) = []).
  { unfold Spec.participants. apply RoundFacts.filter_none.
    apply Forall_forall. intros i Hi Hb. apply elem_of_seq in Hi.
    rewrite Hall in Hb by lia. discriminate. }
  unfold Spec.tied. rewrite Hpart, filter_nil.
  unfold V3.processSpecialEffects. simpl. rewrite length_fmap.
  apply (InvariantFacts.for_loop_ind
           (fun x => x = V3.set_players (V3.set_isBlocked false <$> V3.players g) g));
    [|done].
  intros i x Hi ->. unfold V3.effectsBody, V3.playedAt.
  rewrite list_lookup_fmap, lookup_seq_lt by done. simpl.
  unfold Spec.declared. rewrite Hall by done. reflexivity.
Qed.

Lemma all_blocked_round_only_unblocks_witness :
  let g := V3.mkGame [V3.mkPlayer "A" 0 1 1 true; V3.mkPlayer "B" 3 0 0 true]
                     5 5 false EmptyString in
  (forall i, (i < length (V3.players g))%nat -> V3.isBlockedAt g i = true)
  /\ V3.handleNumberRound Spec.allPlayNine g
     = V3.mkGame [V3.mkPlayer "A" 0 1 1 false; V3.mkPlayer "B" 3 0 0 false]
                 5 5 false EmptyString.
Proof.
  intros g.
  assert (H : forall i, (i < length (V3.players g))%nat -> V3.isBlockedAt g i = true).
  { intros [|[|i]] Hi; [reflexivity|reflexivity|simpl in Hi; lia]. }
  split; [exact H|].
  rewrite (all_blocked_round_only_unblocks Spec.allPlayNine g H). reflexivity.
Defined.

(** X7.  The value-7 penalty: the nominated target receives
    [min(2, numberDeckRemaining)] number cards and
    [min(1, actionDeckRemaining)] action cards (nothing from an exhausted
    pool), both pools drop by what was handed out and no other player is
    touched.  With 1 card in the number pool and none in the action pool the
    target gets 1 number card and no action card. *)
Theorem penalty_seven_draws (g : V3.Game) (inp : V3.RoundInput) (pc : list Z)
    (i t : nat) :
  (t < length (V3.players g))%nat ->
  let g' := V3.penaltySeven t g in
  let dn := Spec.dealt 2 (V3.numberDeckRemaining g) in
  let da := Spec.dealt 1 (V3.actionDeckRemaining g) in
  V3.numberCardsAt g' t = V3.numberCardsAt g t + dn
  /\ V3.actionCardsAt g' t = V3.actionCardsAt g t + da
  /\ V3.numberDeckRemaining g' = V3.numberDeckRemaining g - dn
  /\ V3.actionDeckRemaining g' = V3.actionDeckRemaining g - da
  /\ (forall j, j ≠ t -> V3.players g' !! j = V3.players g !! j)
  /\ (V3.numberDeckRemaining g = 1 -> V3.actionDeckRemaining g = 0 -> dn = 1 /\ da = 0)
  /\ (V3.playedAt pc i = 7 -> V3.penaltyTo inp i = t ->
      V3.effectsBody inp pc i g = g').
Proof.
  intros Ht. cbv zeta.
  destruct (lookup_lt_is_Some_2 _ _ Ht) as [pt Hpt].
  assert (Hbody : V3.playedAt pc i = 7 -> V3.penaltyTo inp i = t ->
                  V3.effectsBody inp pc i g = V3.penaltySeven t g).
  { intros H7 Hto. unfold V3.effectsBody. rewrite H7, Hto. reflexivity. }
  rewrite InvariantFacts.penaltySeven_eq in *. cbv zeta in *.
  rewrite !V3Facts.drawFromActionDeck_fst, !V3Facts.drawFromNumberDeck_fst,
    !V3Facts.drawFromActionDeck_snd, !V3Facts.drawFromNumberDeck_snd in *.
  unfold V3.numberCardsAt, V3.actionCardsAt, V3.upd in *; simpl in *.
  rewrite !list_lookup_alter_eq, Hpt. simpl.
  split; [reflexivity|]. split; [reflexivity|].
  split; [reflexivity|]. split; [reflexivity|].
  split; [intros j Hj; by rewrite !list_lookup_alter_ne|].
  split; [|exact Hbody].
  intros Hn Ha. unfold Spec.dealt. rewrite Hn, Ha. split; reflexivity.
Qed.

Lemma penalty_seven_draws_witness :
  (1 < length (V3.players Spec.lastCard))%nat
  /\ V3.numberCardsAt (V3.penaltySeven 1 Spec.lastCard) 1 = 7
  /\ V3.actionCardsAt (V3.penaltySeven 1 Spec.lastCard) 1 = 2
  /\ V3.actionDeckRemaining (V3.penaltySeven 1 Spec.lastCard) = 3.
Proof.
  assert (H : (1 < length (V3.players Spec.lastCard))%nat) by (simpl; lia).
  split; [exact H|].
  destruct (penalty_seven_draws Spec.lastCard Spec.allPlayNine [] 0 1 H)
    as (Hn & Ha & _ & Hd & _).
  exact (conj Hn (conj Ha Hd)).
Defined.

(** Reads of the members of two players [a] and [t] after a chain of
    assignments. *)
Ltac read_players Hpa Hpt :=
  unfold V3.numberCardsAt, V3.actionCardsAt, V3.consecutiveWinsAt, V3.isBlockedAt,
    V3.upd; simpl;
  rewrite ?list_lookup_alter;
  repeat (case_decide; subst; try congruence);
  rewrite ?Hpa, ?Hpt; simpl.

(** X8.  COLOR CHANGE: every player, the actor included, sheds one number
    card (a player holding none keeps 0), the actor sheds one action card,
    and nothing else changes: pools, streaks, block flags and the end of the
    game are as before. *)
Theorem color_change_sheds_everyone (g : V3.Game) (a : nat) :
  let g' := V3.handleColorChangeCard a g in
  g' = V3.set_players
         (alter (V3.set_actionCards V3.shed) a (V3.set_numberCards V3.shed <$> V3.players g)) g
  /\ (forall j, V3.numberCardsAt g' j = V3.shed (V3.numberCardsAt g j))
  /\ V3.actionCardsAt g' a = V3.shed (V3.actionCardsAt g a)
  /\ (forall j, j ≠ a -> V3.actionCardsAt g' j = V3.actionCardsAt g j)
  /\ (forall j, V3.consecutiveWinsAt g' j = V3.consecutiveWinsAt g j
                /\ V3.isBlockedAt g' j = V3.isBlockedAt g j)
  /\ V3.numberDeckRemaining g' = V3.numberDeckRemaining g
  /\ V3.actionDeckRemaining g' = V3.actionDeckRemaining g
  /\ V3.gameOver g' = V3.gameOver g.
Proof.
  cbv zeta. unfold V3.handleColorChangeCard.
  rewrite ExtraFacts.for_loop_upd_all.
  split; [reflexivity|].
  unfold V3.numberCardsAt, V3.actionCardsAt, V3.consecutiveWinsAt, V3.isBlockedAt,
    V3.upd; simpl.
  split.
  { intros j. rewrite list_lookup_alter, !list_lookup_fmap.
    case_decide; subst; destruct (V3.players g !! j); reflexivity. }
  split.
  { rewrite list_lookup_alter_eq, list_lookup_fmap.
    destruct (V3.players g !! a); reflexivity. }
  split.
  { intros j Hj. rewrite list_lookup_alter_ne, list_lookup_fmap by done.
    destruct (V3.players g !! j); reflexivity. }
  split; [|done].
  intros j. rewrite list_lookup_alter, !list_lookup_fmap.
  case_decide; subst; destruct (V3.players g !! j); split; reflexivity.
Qed.

(** X9.  BLOCK played by [a] on [t].  Countered with a BLOCK: both players
    shed one number card and one action card, clamped at 0, and no block
    flag changes.  Not countered: [t]'s flag is raised, [a] sheds one
    action card, and no number count changes.  The pools are not touched in
    either case. *)
Theorem block_card_effects (g : V3.Game) (a t : nat) :
  a ≠ t -> (a < length (V3.players g))%nat -> (t < length (V3.players g))%nat ->
  (let g' := V3.handleBlockCard a t true g in
   V3.numberCardsAt g' a = V3.shed (V3.numberCardsAt g a)
   /\ V3.numberCardsAt g' t = V3.shed (V3.numberCardsAt g t)
   /\ V3.actionCardsAt g' a = V3.shed (V3.actionCardsAt g a)
   /\ V3.actionCardsAt g' t = V3.shed (V3.actionCardsAt g t)
   /\ (forall j, V3.isBlockedAt g' j = V3.isBlockedAt g j)
   /\ (forall j, j ≠ a -> j ≠ t -> V3.players g' !! j = V3.players g !! j)
   /\ V3.numberDeckRemaining g' = V3.numberDeckRemaining g
   /\ V3.actionDeckRemaining g' = V3.actionDeckRemaining g)
  /\ (let g' := V3.handleBlockCard a t false g in
      V3.isBlockedAt g' t = true
      /\ (forall j, j ≠ t -> V3.isBlockedAt g' j = V3.isBlockedAt g j)
      /\ V3.actionCardsAt g' a = V3.shed (V3.actionCardsAt g a)
      /\ (forall j, j ≠ a -> V3.actionCardsAt g' j = V3.actionCardsAt g j)
      /\ (forall j, V3.numberCardsAt g' j = V3.numberCardsAt g j)
      /\ V3.numberDeckRemaining g' = V3.numberDeckRemaining g
      /\ V3.actionDeckRemaining g' = V3.actionDeckRemaining g).
Proof.
  intros Hne Ha Ht.
  destruct (lookup_lt_is_Some_2 _ _ Ha) as [pa Hpa].
  destruct (lookup_lt_is_Some_2 _ _ Ht) as [pt Hpt].
  split; cbv zeta; unfold V3.handleBlockCard.
  - repeat split; try (read_players Hpa Hpt; reflexivity).
    + intros j. read_players Hpa Hpt; try reflexivity;
        destruct (V3.players g !! j); reflexivity.
    + intros j Hja Hjt. unfold V3.upd; simpl.
      by rewrite !list_lookup_alter_ne.
  - repeat split; try (read_players Hpa Hpt; reflexivity).
    + intros j Hj. read_players Hpa Hpt; try reflexivity;
        destruct (V3.players g !! j); reflexivity.
    + intros j Hj. read_players Hpa Hpt; try reflexivity;
        destruct (V3.players g !! j); reflexivity.
    + intros j. read_players Hpa Hpt; try reflexivity;
        destruct (V3.players g !! j); reflexivity.
Qed.

Lemma block_card_effects_witness :
  (0%nat ≠ 1%nat /\ (1 < length (V3.players Spec.midGame))%nat)
  /\ V3.isBlockedAt (V3.handleBlockCard 0 1 false Spec.midGame) 1 = true
  /\ V3.actionCardsAt (V3.handleBlockCard 0 1 false Spec.midGame) 0 = 0
  /\ V3.numberCardsAt (V3.handleBlockCard 0 1 true Spec.midGame) 1 = 6.
Proof.
  assert (H1 : 0%nat ≠ 1%nat) by lia.
  assert (H2 : (0 < length (V3.players Spec.midGame))%nat) by (simpl; lia).
  assert (H3 : (1 < length (V3.players Spec.midGame))%nat) by (simpl; lia).
  split; [by split|].
  destruct (block_card_effects Spec.midGame 0 1 H1 H2 H3) as (Hc & Hu).
  destruct Hc as (_ & Hc2 & _). destruct Hu as (Hu1 & _ & Hu3 & _).
  exact (conj Hu1 (conj Hu3 Hc2)).
Defined.

(** X10.  TRUTH played by [a] on [t].  Whatever the answer, [a] sheds one
    action card and one number card (clamped).  When [t] answers nothing
    else happens.  When [t] refuses and [a] picks penalty 1, [a] first draws
    [drawFromActionDeck(2)] (so the card shed comes off the enlarged hand)
    and [t] draws [drawFromNumberDeck(2)]; with any other pick [t] draws
    [drawFromNumberDeck(5)] and no action card is drawn. *)
Theorem truth_card_effects (g : V3.Game) (a t : nat) (choice : Z) :
  a ≠ t -> (a < length (V3.players g))%nat -> (t < length (V3.players g))%nat ->
  let nd := V3.numberDeckRemaining g in
  let ad := V3.actionDeckRemaining g in
  (let g' := V3.handleTruthCard a t true choice g in
   V3.numberCardsAt g' a = V3.shed (V3.numberCardsAt g a)
   /\ V3.actionCardsAt g' a = V3.shed (V3.actionCardsAt g a)
   /\ V3.players g' !! t = V3.players g !! t
   /\ V3.numberDeckRemaining g' = nd /\ V3.actionDeckRemaining g' = ad)
  /\ (let g' := V3.handleTruthCard a t false 1 g in
      V3.numberCardsAt g' a = V3.shed (V3.numberCardsAt g a)
      /\ V3.actionCardsAt g' a = V3.shed (V3.actionCardsAt g a + Spec.dealt 2 ad)
      /\ V3.numberCardsAt g' t = V3.numberCardsAt g t + Spec.dealt 2 nd
      /\ V3.actionCardsAt g' t = V3.actionCardsAt g t
      /\ V3.numberDeckRemaining g' = nd - Spec.dealt 2 nd
      /\ V3.actionDeckRemaining g' = ad - Spec.dealt 2 ad)
  /\ (choice ≠ 1 ->
      let g' := V3.handleTruthCard a t false choice g in
      V3.numberCardsAt g' a = V3.shed (V3.numberCardsAt g a)
      /\ V3.actionCardsAt g' a = V3.shed (V3.actionCardsAt g a)
      /\ V3.numberCardsAt g' t = V3.numberCardsAt g t + Spec.dealt 5 nd
      /\ V3.actionCardsAt g' t = V3.actionCardsAt g t
      /\ V3.numberDeckRemaining g' = nd - Spec.dealt 5 nd
      /\ V3.actionDeckRemaining g' = ad).
Proof.
  intros Hne Ha Ht.
  destruct (lookup_lt_is_Some_2 _ _ Ha) as [pa Hpa].
  destruct (lookup_lt_is_Some_2 _ _ Ht) as [pt Hpt].
  cbv zeta. unfold V3.handleTruthCard. split; [|split].
  - repeat split; read_players Hpa Hpt; reflexivity.
  - simpl.
    rewrite V3Facts.drawNumberTo_eq, V3Facts.drawFromNumberDeck_fst,
      V3Facts.drawFromNumberDeck_snd, V3Facts.drawActionTo_eq,
      V3Facts.drawFromActionDeck_fst, V3Facts.drawFromActionDeck_snd.
    repeat split; read_players Hpa Hpt; reflexivity.
  - intros Hch. destruct (Z.eqb_spec choice 1); [done|].
    rewrite V3Facts.drawNumberTo_eq, V3Facts.drawFromNumberDeck_fst,
      V3Facts.drawFromNumberDeck_snd.
    repeat split; read_players Hpa Hpt; reflexivity.
Qed.

Lemma truth_card_effects_witness :
  (0%nat ≠ 1%nat /\ (1 < length (V3.players Spec.midGame))%nat /\ 2 ≠ 1)
  /\ V3.numberCardsAt (V3.handleTruthCard 0 1 false 2 Spec.midGame) 1 = 12
  /\ V3.actionCardsAt (V3.handleTruthCard 0 1 false 1 Spec.midGame) 0 = 2
  /\ V3.numberCardsAt (V3.handleTruthCard 0 1 true 1 Spec.midGame) 0 = 4.
Proof.
  assert (H1 : 0%nat ≠ 1%nat) by lia.
  assert (H2 : (0 < length (V3.players Spec.midGame))%nat) by (simpl; lia).
  assert (H3 : (1 < length (V3.players Spec.midGame))%nat) by (simpl; lia).
  assert (H4 : 2 ≠ 1) by lia.
  split; [by repeat split|].
  destruct (truth_card_effects Spec.midGame 0 1 2 H1 H2 H3) as (Hy & Hn1 & Hn2).
  destruct Hy as (Hy1 & _). destruct Hn1 as (_ & Hn12 & _).
  destruct (Hn2 H4) as (_ & _ & Hn23 & _).
  exact (conj Hn23 (conj Hn12 Hy1)).
Defined.

(** X11.  +2/+4 played by [a] on [t] outside the unequal exchange.  Not
    countered: [t] draws [drawFromNumberDeck(N)] and only [a] sheds an
    action card.  Countered with the same card: both shed their action
    card and each draws [drawFromNumberDeck(1)], the actor first, so that
    with a single card left in the pool the actor gets it and the target
    gets none. *)
Theorem draw_card_plain_and_equal (g : V3.Game) (a t : nat) (N : DrawKind) :
  a ≠ t -> (a < length (V3.players g))%nat -> (t < length (V3.players g))%nat ->
  let nd := V3.numberDeckRemaining g in
  (let g' := V3.handleDrawCard a (drawAmount N) t None g in
   V3.numberCardsAt g' t = V3.numberCardsAt g t + Spec.dealt (drawAmount N) nd
   /\ V3.numberCardsAt g' a = V3.numberCardsAt g a
   /\ V3.actionCardsAt g' a = V3.shed (V3.actionCardsAt g a)
   /\ V3.actionCardsAt g' t = V3.actionCardsAt g t
   /\ V3.numberDeckRemaining g' = nd - Spec.dealt (drawAmount N) nd)
  /\ (let g' := V3.handleDrawCard a (drawAmount N) t (Some N) g in
      let first := Spec.dealt 1 nd in
      let second := Spec.dealt 1 (nd - first) in
      V3.numberCardsAt g' a = V3.numberCardsAt g a + first
      /\ V3.numberCardsAt g' t = V3.numberCardsAt g t + second
      /\ V3.actionCardsAt g' a = V3.shed (V3.actionCardsAt g a)
      /\ V3.actionCardsAt g' t = V3.shed (V3.actionCardsAt g t)
      /\ V3.numberDeckRemaining g' = nd - first - second
      /\ (nd = 1 -> first = 1 /\ second = 0)).
Proof.
  intros Hne Ha Ht.
  destruct (lookup_lt_is_Some_2 _ _ Ha) as [pa Hpa].
  destruct (lookup_lt_is_Some_2 _ _ Ht) as [pt Hpt].
  cbv zeta. unfold V3.handleDrawCard. split.
  - rewrite V3Facts.drawNumberTo_eq, V3Facts.drawFromNumberDeck_fst,
      V3Facts.drawFromNumberDeck_snd.
    repeat split; read_players Hpa Hpt; reflexivity.
  - rewrite Z.ltb_irrefl.
    rewrite !V3Facts.drawNumberTo_eq, !V3Facts.drawFromNumberDeck_fst,
      !V3Facts.drawFromNumberDeck_snd.
    cbn [V3.numberDeckRemaining V3.upd V3.set_players V3.set_numberDeck].
    repeat split; try (read_players Hpa Hpt; reflexivity).
    all: match goal with H : V3.numberDeckRemaining _ = 1 |- _ => by rewrite H end.
Qed.

Lemma draw_card_plain_and_equal_witness :
  (0%nat ≠ 1%nat /\ (1 < length (V3.players Spec.midGame))%nat)
  /\ V3.numberCardsAt (V3.handleDrawCard 0 4 1 None Spec.midGame) 1 = 11
  /\ V3.numberCardsAt (V3.handleDrawCard 0 2 1 (Some Plus2) Spec.midGame) 0 = 6.
Proof.
  assert (H1 : 0%nat ≠ 1%nat) by lia.
  assert (H2 : (0 < length (V3.players Spec.midGame))%nat) by (simpl; lia).
  assert (H3 : (1 < length (V3.players Spec.midGame))%nat) by (simpl; lia).
  split; [by split|].
  destruct (draw_card_plain_and_equal Spec.midGame 0 1 Plus4 H1 H2 H3) as ((Hp & _) & _).
  destruct (draw_card_plain_and_equal Spec.midGame 0 1 Plus2 H1 H2 H3) as (_ & He & _).
  exact (conj Hp He).
Defined.

(** * A round with a single winner *)

Module SingleFacts.
Import V3 V3Facts Spec RoundFacts InvariantFacts.

Lemma losersBefore_S w pc k :
  losersBefore w pc (S k)
  = (losersBefore w pc k + (if isLoser w pc k then 1 else 0))%nat.
Proof.
  unfold losersBefore. rewrite seq_S, filter_app, length_app. simpl.
  rewrite filter_cons, filter_nil. destruct (isLoser w pc k); by case_decide.
Qed.

Lemma paidFirst_0 w pc r l : paidFirst w pc r 0 l = l.
Proof.
  apply list_eq. intros j. unfold paidFirst. rewrite list_lookup_imap.
  destruct (l !! j); reflexivity.
Qed.

Lemma paidFirst_S_loser w pc r k l :
  isLoser w pc k = true ->
  alter (set_numberCards (fun n => n + tieDraw r (losersBefore w pc k))) k
    (alter (set_consecutiveWins (fun _ => 0)) k (paidFirst w pc r k l))
  = paidFirst w pc r (S k) l.
Proof.
  intros Hk. apply list_eq. intros j. unfold paidFirst.
  rewrite !list_lookup_alter, !list_lookup_imap.
  repeat (case_decide; subst; try done).
  - rewrite Nat.ltb_irrefl, (proj2 (Nat.ltb_lt j (S j))) by lia.
    destruct (l !! j); simpl; [|done]. by rewrite Hk.
  - destruct (Nat.ltb_spec j k), (Nat.ltb_spec j (S k)); try lia;
      destruct (l !! j); done.
Qed.

Lemma paidFirst_S_other w pc r k l :
  isLoser w pc k = false -> paidFirst w pc r k l = paidFirst w pc r (S k) l.
Proof.
  intros Hk. apply list_eq. intros j. unfold paidFirst. rewrite !list_lookup_imap.
  destruct (Nat.ltb_spec j k), (Nat.ltb_spec j (S k)); try lia;
    destruct (l !! j); try done.
  assert (j = k) as -> by lia. simpl. by rewrite Hk.
Qed.

(** The penalty loop of the single-winner branch, after [k] players. *)
Lemma penalty_loop_prefix (w : nat) (pc : list Z) (x : Game) (k : nat) :
  for_loop k (loserBody w pc) x
  = mkGame (paidFirst w pc (numberDeckRemaining x) k (players x))
           (afterDraws (numberDeckRemaining x) (losersBefore w pc k))
           (actionDeckRemaining x) (gameOver x) (winner x).
Proof.
  induction k as [|k IH].
  - rewrite for_loop_0, paidFirst_0. unfold losersBefore. simpl.
    rewrite afterDraws_0. by destruct x.
  - rewrite for_loop_S, IH, losersBefore_S. unfold loserBody.
    fold (isLoser w pc k). destruct (isLoser w pc k) eqn:Hk.
    + rewrite drawNumberTo_eq, drawFromNumberDeck_fst, drawFromNumberDeck_snd.
      cbn [players numberDeckRemaining upd set_players].
      rewrite dealt_one_afterDraws.
      unfold upd, set_players, set_numberDeck; simpl.
      rewrite paidFirst_S_loser by done.
      replace (losersBefore w pc k + 1)%nat with (S (losersBefore w pc k)) by lia.
      by rewrite afterDraws_S.
    + rewrite <- paidFirst_S_other by done.
      by rewrite Nat.add_0_r.
Qed.

End SingleFacts.

(** X12.  The branch for a single winner [w], run on the state [g2] left by
    the 0 and 7 effects: [w] sheds one number card (clamped) and the streak
    of [w] grows by one; every other player who declared a card loses the
    streak and draws [drawFromNumberDeck(1)], in player order, from the pool
    the paying players before left; a blocked player (marked [-1]) is not
    touched at all, unlike in a tie.  Action counts are not involved. *)
Theorem single_winner_round (pc : list Z) (g2 : V3.Game) (w : nat) :
  (w < length (V3.players g2))%nat ->
  let g3 := V3.resolveSingle w pc g2 in
  let r := V3.numberDeckRemaining g2 in
  V3.numberCardsAt g3 w = V3.shed (V3.numberCardsAt g2 w)
  /\ V3.consecutiveWinsAt g3 w = V3.consecutiveWinsAt g2 w + 1
  /\ (forall j, j ≠ w -> V3.playedAt pc j ≠ -1 -> (j < length (V3.players g2))%nat ->
        V3.numberCardsAt g3 j
        = V3.numberCardsAt g2 j
          + Spec.dealt 1 (Spec.afterDraws r (Spec.losersBefore w pc j))
        /\ V3.consecutiveWinsAt g3 j = 0)
  /\ (forall j, j ≠ w -> V3.playedAt pc j = -1 ->
        V3.players g3 !! j = V3.players g2 !! j)
  /\ (forall j, V3.actionCardsAt g3 j = V3.actionCardsAt g2 j)
  /\ V3.numberDeckRemaining g3
     = Spec.afterDraws r (Spec.losersBefore w pc (length (V3.players g2)))
  /\ V3.actionDeckRemaining g3 = V3.actionDeckRemaining g2.
Proof.
  intros Hw. cbv zeta. unfold V3.resolveSingle.
  rewrite SingleFacts.penalty_loop_prefix.
  destruct (lookup_lt_is_Some_2 _ _ Hw) as [pw Hpw].
  assert (HLw : Spec.isLoser w pc w = false).
  { unfold Spec.isLoser. by rewrite bool_decide_eq_false_2 by (intros ?; done). }
  unfold V3.numberCardsAt, V3.consecutiveWinsAt, V3.actionCardsAt, Spec.paidFirst,
    V3.upd; simpl.
  rewrite !length_alter.
  split; [|split; [|split; [|split; [|split; [|split]]]]]; try reflexivity.
  - rewrite list_lookup_imap, !list_lookup_alter_eq, Hpw. simpl.
    rewrite HLw, andb_false_r. reflexivity.
  - rewrite list_lookup_imap, !list_lookup_alter_eq, Hpw. simpl.
    rewrite HLw, andb_false_r. reflexivity.
  - intros j Hjw Hpl Hj.
    destruct (lookup_lt_is_Some_2 _ _ Hj) as [pj Hpj].
    rewrite list_lookup_imap, !list_lookup_alter_ne, Hpj by done. simpl.
    destruct (Nat.ltb_spec j (length (V3.players g2))); [|lia].
    assert (HL : Spec.isLoser w pc j = true).
    { unfold Spec.isLoser. rewrite bool_decide_eq_true_2 by done.
      destruct (Z.eqb_spec (V3.playedAt pc j) (-1)); done. }
    rewrite HL. simpl. rewrite RoundFacts.dealt_one_afterDraws. done.
  - intros j Hjw Hpl.
    rewrite list_lookup_imap, !list_lookup_alter_ne by done.
    destruct (V3.players g2 !! j); simpl; [|done].
    assert (HL : Spec.isLoser w pc j = false).
    { unfold Spec.isLoser. rewrite Hpl. simpl. by rewrite andb_false_r. }
    by rewrite HL, andb_false_r.
  - intros j. rewrite list_lookup_imap, !list_lookup_alter.
    repeat (case_decide; subst; try done);
      destruct (V3.players g2 !! j); simpl; try done;
      by destruct (_ && _).
Qed.

Lemma single_winner_round_witness :
  (0 < length (V3.players Spec.threeHanded))%nat
  /\ (let g3 := V3.resolveSingle 0 [9; 3; -1] Spec.threeHanded in
      V3.numberCardsAt g3 0 = 19 /\ V3.consecutiveWinsAt g3 0 = 1
      /\ V3.numberCardsAt g3 1 = 21
      /\ V3.players g3 !! 2%nat = V3.players Spec.threeHanded !! 2%nat).
Proof.
  assert (H : (0 < length (V3.players Spec.threeHanded))%nat) by (vm_compute; lia).
  split; [exact H|].
  destruct (single_winner_round [9; 3; -1] Spec.threeHanded 0 H)
    as (H1 & H2 & H3 & H4 & _).
  assert (Hl : (1 < length (V3.players Spec.threeHanded))%nat) by (vm_compute; lia).
  destruct (H3 1%nat ltac:(lia) ltac:(vm_compute; discriminate) Hl) as (H31 & _).
  pose proof (H4 2%nat ltac:(lia) eq_refl) as H42.
  exact (conj H1 (conj H2 (conj H31 H42))).
Defined.

(** * Streaks and the bonus *)

Module StreakFacts.
Import V3 V3Facts Spec RoundFacts InvariantFacts.

(** The vector of streak counters. *)
Lemma streaks_upd i f x :
  (forall p, consecutiveWins (f p) = consecutiveWins p) ->
  consecutiveWins <$> players (upd i f x) = consecutiveWins <$> players x.
Proof.
  intros Hf. unfold upd; simpl. rewrite (list_fmap_alter consecutiveWins f id).
  - by apply list_alter_id.
  - apply Forall_forall. intros p _. apply Hf.
Qed.

Lemma streaks_upd_number i h x :
  consecutiveWins <$> players (upd i (set_numberCards h) x) = consecutiveWins <$> players x.
Proof. by apply streaks_upd. Qed.
Lemma streaks_upd_action i h x :
  consecutiveWins <$> players (upd i (set_actionCards h) x) = consecutiveWins <$> players x.
Proof. by apply streaks_upd. Qed.
Lemma streaks_upd_blocked i b x :
  consecutiveWins <$> players (upd i (set_isBlocked b) x) = consecutiveWins <$> players x.
Proof. by apply streaks_upd. Qed.

Lemma streaks_upd_wins i h x :
  consecutiveWins <$> players (upd i (set_consecutiveWins h) x)
  = alter h i (consecutiveWins <$> players x).
Proof.
  unfold upd; simpl. apply list_fmap_alter. apply Forall_forall. by intros [] _.
Qed.

Lemma streaks_drawNumberTo i a x :
  consecutiveWins <$> players (drawNumberTo i a x) = consecutiveWins <$> players x.
Proof. by rewrite drawNumberTo_eq, streaks_upd_number, drawFromNumberDeck_players. Qed.

Lemma streaks_drawActionTo i a x :
  consecutiveWins <$> players (drawActionTo i a x) = consecutiveWins <$> players x.
Proof. by rewrite drawActionTo_eq, streaks_upd_action, drawFromActionDeck_players. Qed.

Create Rewrite HintDb streaks.
#[export] Hint Rewrite streaks_upd_number streaks_upd_action streaks_upd_blocked
  streaks_drawNumberTo streaks_drawActionTo : streaks.

Lemma streaks_for_loop n body x :
  (forall i y, consecutiveWins <$> players (body i y) = consecutiveWins <$> players y) ->
  consecutiveWins <$> players (for_loop n body x) = consecutiveWins <$> players x.
Proof.
  intros Hb.
  apply (for_loop_ind
           (fun y => consecutiveWins <$> players y = consecutiveWins <$> players x));
    [|done].
  intros i y _ Hy. by rewrite Hb.
Qed.

Lemma streaks_stealCard i t x :
  consecutiveWins <$> players (stealCard i t x) = consecutiveWins <$> players x.
Proof. unfold stealCard. destruct (_ <? _); by autorewrite with streaks. Qed.

Lemma streaks_penaltySeven t x :
  consecutiveWins <$> players (penaltySeven t x) = consecutiveWins <$> players x.
Proof.
  rewrite penaltySeven_eq. cbv zeta. autorewrite with streaks.
  by rewrite drawFromActionDeck_players, drawFromNumberDeck_players.
Qed.

Lemma streaks_processSpecialEffects inp pc x :
  consecutiveWins <$> players (processSpecialEffects inp pc x)
  = consecutiveWins <$> players x.
Proof.
  apply streaks_for_loop. intros i y. unfold effectsBody.
  repeat destruct (_ =? _); by rewrite ?streaks_penaltySeven, ?streaks_stealCard.
Qed.

Lemma streaks_collectPlays inp x :
  consecutiveWins <$> players (roundGame (collectPlays inp x))
  = consecutiveWins <$> players x.
Proof.
  rewrite collectPlays_spec. simpl. rewrite <- list_fmap_compose.
  apply list_fmap_ext. by intros _ [] _.
Qed.

Lemma streaks_handleDrawChallenge i r x :
  consecutiveWins <$> players (handleDrawChallenge i r x) = consecutiveWins <$> players x.
Proof.
  destruct r; [reflexivity|]. unfold handleDrawChallenge. by autorewrite with streaks.
Qed.

Lemma streaks_checkWinCondition resp x :
  consecutiveWins <$> players (checkWinCondition resp x) = consecutiveWins <$> players x.
Proof.
  unfold checkWinCondition. generalize (seq 0 (length (players x))). intros idxs.
  revert x. induction idxs as [|i rest IH]; intros x; simpl; [done|].
  destruct (_ =? _); [|apply IH].
  destruct (gameOver _); [apply streaks_handleDrawChallenge|].
  by rewrite IH, streaks_handleDrawChallenge.
Qed.

Lemma streaks_handleBlockCard a t counter x :
  consecutiveWins <$> players (handleBlockCard a t counter x)
  = consecutiveWins <$> players x.
Proof. unfold handleBlockCard. destruct counter; by autorewrite with streaks. Qed.

Lemma streaks_handleReverseCard a t x :
  consecutiveWins <$> players (handleReverseCard a t x) = consecutiveWins <$> players x.
Proof.
  unfold handleReverseCard, swapNumberCards, swapActionCards. by autorewrite with streaks.
Qed.

Lemma streaks_handleColorChangeCard a x :
  consecutiveWins <$> players (handleColorChangeCard a x) = consecutiveWins <$> players x.
Proof.
  unfold handleColorChangeCard. autorewrite with streaks.
  apply streaks_for_loop. intros. by autorewrite with streaks.
Qed.

Lemma streaks_handleDrawCard a amount t counter x :
  consecutiveWins <$> players (handleDrawCard a amount t counter x)
  = consecutiveWins <$> players x.
Proof.
  unfold handleDrawCard. destruct counter; [|by autorewrite with streaks].
  autorewrite with streaks. repeat destruct (_ <? _); by autorewrite with streaks.
Qed.

Lemma streaks_handleTruthCard a t answered choice x :
  consecutiveWins <$> players (handleTruthCard a t answered choice x)
  = consecutiveWins <$> players x.
Proof.
  unfold handleTruthCard. autorewrite with streaks.
  destruct answered; [done|]. destruct (_ =? _); by autorewrite with streaks.
Qed.

Lemma streaks_handleDareCard a t completed x :
  consecutiveWins <$> players (handleDareCard a t completed x)
  = consecutiveWins <$> players x.
Proof.
  unfold handleDareCard. destruct completed; [by autorewrite with streaks|reflexivity].
Qed.

Lemma streaks_handleActionCard a actionStr ans x :
  consecutiveWins <$> players (handleActionCard a actionStr ans x)
  = consecutiveWins <$> players x.
Proof.
  unfold handleActionCard.
  destruct (parseActionType actionStr); try done;
    by rewrite ?streaks_handleBlockCard, ?streaks_handleReverseCard,
         ?streaks_handleColorChangeCard, ?streaks_handleDrawCard,
         ?streaks_handleTruthCard, ?streaks_handleDareCard.
Qed.

(** The reader in terms of the vector. *)
Lemma consecutiveWinsAt_streaks g j :
  consecutiveWinsAt g j = default 0 ((consecutiveWins <$> players g) !! j).
Proof.
  unfold consecutiveWinsAt. rewrite list_lookup_fmap. by destruct (players g !! j).
Qed.

Lemma bounded_readers (B : Z) (g : Game) :
  0 <= B ->
  (forall i, 0 <= consecutiveWinsAt g i <= B)
  <-> Forall (fun w => 0 <= w <= B) (consecutiveWins <$> players g).
Proof.
  intros HB. rewrite Forall_lookup. split.
  - intros H i w Hi. specialize (H i). rewrite consecutiveWinsAt_streaks, Hi in H. done.
  - intros H i. rewrite consecutiveWinsAt_streaks.
    destruct (_ !! i) as [w|] eqn:Hi; simpl; [by apply (H i)|lia].
Qed.

Lemma streaks_bonusBody inp i y :
  consecutiveWins <$> players (bonusBody inp i y)
  = alter bonusReset i (consecutiveWins <$> players y).
Proof.
  unfold bonusBody. rewrite consecutiveWinsAt_streaks.
  set (v := consecutiveWins <$> players y).
  destruct (Z.leb_spec CONSECUTIVE_WINS_THRESHOLD (default 0 (v !! i))) as [Hw|Hw].
  - rewrite streaks_upd_wins.
    assert (Hg1 : consecutiveWins <$> players
              (if bonusChoice inp i =? 1 then drawActionTo i 1 y
               else for_loop (length (players y))
                      (fun j g' => if negb (String.eqb (nameAt g' j) (nameAt g' i))
                                   then drawNumberTo j 2 g' else g') y) = v).
    { destruct (_ =? _); [by autorewrite with streaks|].
      apply streaks_for_loop. intros j z. destruct (negb _); by autorewrite with streaks. }
    rewrite Hg1. apply list_eq. intros j. rewrite !list_lookup_alter.
    case_decide; subst; [|done].
    destruct (v !! j) as [w|]; simpl in *; [|done].
    unfold bonusReset. destruct (Z.leb_spec CONSECUTIVE_WINS_THRESHOLD w); [done|lia].
  - apply list_eq. intros j. rewrite !list_lookup_alter.
    case_decide; subst; [|done]. unfold v in *.
    destruct (_ !! j) as [w|]; simpl in *; [|done].
    unfold bonusReset. destruct (Z.leb_spec CONSECUTIVE_WINS_THRESHOLD w); [lia|done].
Qed.

(** A loop that alters every position of a vector kept in the state. *)
Lemma for_loop_alter_prefix {St A : Type} (vec : St -> list A) (f : A -> A)
    (body : nat -> St -> St) (s : St) (k : nat) :
  (forall i y, vec (body i y) = alter f i (vec y)) ->
  vec (for_loop k body s) = imap (fun j a => if (j <? k)%nat then f a else a) (vec s).
Proof.
  intros Hb. induction k as [|k IH].
  - rewrite for_loop_0. apply list_eq. intros j. rewrite list_lookup_imap.
    by destruct (vec s !! j).
  - rewrite for_loop_S, Hb, IH. apply list_eq. intros j.
    rewrite list_lookup_alter, !list_lookup_imap.
    case_decide; subst.
    + rewrite Nat.ltb_irrefl, (proj2 (Nat.ltb_lt j (S j))) by lia.
      by destruct (vec s !! j).
    + destruct (Nat.ltb_spec j k), (Nat.ltb_spec j (S k)); try lia;
        by destruct (vec s !! j).
Qed.

Lemma for_loop_alter_all {St A : Type} (vec : St -> list A) (f : A -> A)
    (body : nat -> St -> St) (s : St) :
  (forall i y, vec (body i y) = alter f i (vec y)) ->
  vec (for_loop (length (vec s)) body s) = f <$> vec s.
Proof.
  intros Hb. rewrite (for_loop_alter_prefix vec f) by done.
  apply list_eq. intros j. rewrite list_lookup_imap, list_lookup_fmap.
  destruct (vec s !! j) eqn:Hj; simpl; [|done].
  apply lookup_lt_Some in Hj. by rewrite (proj2 (Nat.ltb_lt _ _)) by done.
Qed.

Lemma streaks_checkConsecutiveWins inp g :
  consecutiveWins <$> players (checkConsecutiveWins inp g)
  = bonusReset <$> (consecutiveWins <$> players g).
Proof.
  unfold checkConsecutiveWins.
  replace (length (players g)) with (length (consecutiveWins <$> players g))
    by apply length_fmap.
  apply (for_loop_alter_all (fun y => consecutiveWins <$> players y) bonusReset).
  apply streaks_bonusBody.
Qed.

Lemma bounded_resolveSingle w pc x :
  Forall (fun w => 0 <= w <= 1) (consecutiveWins <$> players x) ->
  Forall (fun w => 0 <= w <= 2) (consecutiveWins <$> players (resolveSingle w pc x)).
Proof.
  intros Hx. unfold resolveSingle.
  apply (for_loop_ind
           (fun y => Forall (fun w => 0 <= w <= 2) (consecutiveWins <$> players y))).
  - intros i y _ Hy. unfold loserBody. destruct (_ && _); [|done].
    autorewrite with streaks. rewrite streaks_upd_wins.
    apply Forall_alter; [done|]. intros; lia.
  - rewrite streaks_upd_wins. autorewrite with streaks.
    rewrite Forall_lookup in Hx. apply Forall_lookup. intros j v.
    rewrite list_lookup_alter. case_decide; subst.
    + destruct (_ !! j) as [u|] eqn:Hu; simpl; [|done].
      intros [= <-]. specialize (Hx _ _ Hu). simpl in Hx. lia.
    + intros Hv. specialize (Hx _ _ Hv). simpl in Hx. lia.
Qed.

Lemma bounded_resolveTie ws x :
  Forall (fun w => 0 <= w <= 1) (consecutiveWins <$> players x) ->
  Forall (fun w => 0 <= w <= 2) (consecutiveWins <$> players (resolveTie ws x)).
Proof.
  intros Hx. unfold resolveTie.
  rewrite streaks_for_loop by (intros; by autorewrite with streaks).
  apply (fold_left_ind
           (fun y => Forall (fun w => 0 <= w <= 2) (consecutiveWins <$> players y))).
  - intros w y Hy. unfold tieShed. rewrite streaks_upd_wins. autorewrite with streaks.
    apply Forall_alter; [done|]. intros; lia.
  - eapply Forall_impl; [exact Hx|]. simpl; intros; lia.
Qed.

Lemma bounded_reset v :
  Forall (fun w => 0 <= w <= 2) v -> Forall (fun w => 0 <= w <= 1) (bonusReset <$> v).
Proof.
  intros Hv. apply Forall_fmap. eapply Forall_impl; [exact Hv|].
  intros w Hw. simpl in *. unfold bonusReset, CONSECUTIVE_WINS_THRESHOLD.
  destruct (Z.leb_spec 2 w); simpl; lia.
Qed.

Lemma bounded_handleNumberRound inp x :
  Forall (fun w => 0 <= w <= 1) (consecutiveWins <$> players x) ->
  Forall (fun w => 0 <= w <= 1) (consecutiveWins <$> players (handleNumberRound inp x)).
Proof.
  intros Hx. unfold handleNumberRound, resolveWinner.
  set (c := collectPlays inp x).
  set (g2 := processSpecialEffects inp (playedCards c) (roundGame c)).
  assert (H2 : Forall (fun w => 0 <= w <= 1) (consecutiveWins <$> players g2)).
  { unfold g2, c. by rewrite streaks_processSpecialEffects, streaks_collectPlays. }
  destruct (winners c) as [|w [|w' ws]]; [done| |];
    rewrite streaks_checkWinCondition, streaks_checkConsecutiveWins;
    apply bounded_reset; first [by apply bounded_resolveSingle|by apply bounded_resolveTie].
Qed.

Lemma bounded_step x c :
  Forall (fun w => 0 <= w <= 1) (consecutiveWins <$> players x) ->
  Forall (fun w => 0 <= w <= 1) (consecutiveWins <$> players (step x c)).
Proof.
  intros Hx. destruct c as [inp|a actionStr ans| |pIdx choice newCount|]; simpl.
  - by apply bounded_handleNumberRound.
  - by rewrite streaks_handleActionCard.
  - done.
  - unfold manualAdjustment. repeat destruct (_ =? _); autorewrite with streaks; try done.
    rewrite streaks_upd_wins. apply Forall_alter; [done|]. intros; lia.
  - done.
Qed.

End StreakFacts.

(** X13.  The bonus check resets exactly the streaks that have reached
    [CONSECUTIVE_WINS_THRESHOLD] and leaves every other streak as it was,
    whatever bonus is chosen. *)
Theorem bonus_check_resets_streaks (inp : V3.RoundInput) (g : V3.Game) (j : nat) :
  V3.consecutiveWinsAt (V3.checkConsecutiveWins inp g) j
  = if V3.CONSECUTIVE_WINS_THRESHOLD <=? V3.consecutiveWinsAt g j then 0
    else V3.consecutiveWinsAt g j.
Proof.
  rewrite !StreakFacts.consecutiveWinsAt_streaks, StreakFacts.streaks_checkConsecutiveWins.
  rewrite list_lookup_fmap.
  destruct (_ !! j) as [w|]; simpl; reflexivity.
Qed.

(** X14.  Between two commands of the main loop no streak is ever at the
    threshold: a game that starts with every streak at 0 or 1 keeps every
    streak at 0 or 1, because a round pays the bonus and resets the streak
    before it returns. *)
Theorem streak_stays_below_threshold (g0 g : V3.Game) :
  (forall i, 0 <= V3.consecutiveWinsAt g0 i <= 1) ->
  V3.reachable g0 g ->
  forall i, 0 <= V3.consecutiveWinsAt g i < V3.CONSECUTIVE_WINS_THRESHOLD.
Proof.
  intros H0 Hr.
  assert (H : Forall (fun w => 0 <= w <= 1) (V3.consecutiveWins <$> V3.players g)).
  { induction Hr as [|g c Hr IH Hgo Hc].
    - apply StreakFacts.bounded_readers; [lia|done].
    - by apply StreakFacts.bounded_step. }
  intros i. pose proof (proj2 (StreakFacts.bounded_readers 1 g ltac:(lia)) H i) as Hi.
  unfold V3.CONSECUTIVE_WINS_THRESHOLD. lia.
Qed.

Lemma streak_stays_below_threshold_witness :
  V3.reachable (V3.setupGame "A" "B")
    (V3.step Spec.afterFirstRound (V3.NumberRound Spec.sevenBeatsThree))
  /\ 0 <= V3.consecutiveWinsAt
            (V3.step Spec.afterFirstRound (V3.NumberRound Spec.sevenBeatsThree)) 0
       < V3.CONSECUTIVE_WINS_THRESHOLD.
Proof.
  assert (H0 : forall i, 0 <= V3.consecutiveWinsAt (V3.setupGame "A" "B") i <= 1)
    by (intros [|[|i]]; vm_compute; split; discriminate).
  assert (Hr : V3.reachable (V3.setupGame "A" "B")
                 (V3.step Spec.afterFirstRound (V3.NumberRound Spec.sevenBeatsThree))).
  { apply V3.reach_step; [|reflexivity|exact I].
    apply V3.reach_step; [apply V3.reach_start|reflexivity|exact I]. }
  exact (conj Hr (streak_stays_below_threshold _ _ H0 Hr 0%nat)).
Defined.

(** * When the win evaluation ends the game *)

Module WinOnlyFacts.
Import V3 V3Facts Spec RoundFacts InvariantFacts WinFacts.

Lemma nameAt_handleDrawChallenge i r x j :
  nameAt (handleDrawChallenge i r x) j = nameAt x j.
Proof.
  destruct r as [|c k]; [reflexivity|].
  unfold handleDrawChallenge. rewrite drawNumberTo_eq. autorewrite with upd.
  unfold nameAt. by rewrite drawFromNumberDeck_players.
Qed.

Lemma checkWinFrom_no_zero idxs resp x :
  (forall i, i ∈ idxs -> numberCardsAt x i ≠ 0) -> checkWinFrom idxs resp x = x.
Proof.
  induction idxs as [|i rest IH]; intros Hz; simpl; [done|].
  destruct (Z.eqb_spec (numberCardsAt x i) 0) as [E|_].
  - destruct (Hz i); [left|done].
  - apply IH. intros k Hk. apply Hz. by right.
Qed.

(** The loop over the seats [s, s + m). *)
Lemma checkWinFrom_ends (resp : nat -> ChallengeResp) (m s : nat) (x : Game) :
  gameOver x = false ->
  gameOver (checkWinFrom (seq s m) resp x) = true ->
  exists i, (s <= i < s + m)%nat
    /\ numberCardsAt x i = 0 /\ resp i = NoChallenge
    /\ winner (checkWinFrom (seq s m) resp x) = nameAt x i
    /\ numberCardsAt (checkWinFrom (seq s m) resp x) i = 0
    /\ (forall k, (s <= k < i)%nat -> numberCardsAt x k = 0 -> resp k ≠ NoChallenge).
Proof.
  revert s x. induction m as [|m IH]; intros s x Hx Hover; simpl in *; [congruence|].
  destruct (Z.eqb_spec (numberCardsAt x s) 0) as [Hz|Hnz].
  - destruct (resp s) as [|c N] eqn:Hr.
    + simpl in *. exists s. repeat split; try done; try lia.
    + rewrite gameOver_challenged, Hx in *.
      destruct (IH (S s) _ ltac:(by rewrite gameOver_challenged) Hover)
        as (i & Hi & Hzi & Hri & Hw & Hzi' & Hfirst).
      rewrite numberCardsAt_handleDrawChallenge_ne in Hzi by lia.
      rewrite nameAt_handleDrawChallenge in Hw.
      exists i. repeat split; try done; try lia.
      intros k Hk Hzk. destruct (decide (k = s)) as [->|Hne]; [congruence|].
      apply Hfirst; [lia|]. by rewrite numberCardsAt_handleDrawChallenge_ne by lia.
  - destruct (IH (S s) x Hx Hover) as (i & Hi & Hzi & Hri & Hw & Hzi' & Hfirst).
    exists i. repeat split; try done; try lia.
    intros k Hk Hzk. destruct (decide (k = s)) as [->|Hne]; [done|].
    apply Hfirst; [lia|done].
Qed.

End WinOnlyFacts.

(** X15.  The win evaluation of a running game changes nothing when nobody is
    out of number cards.  When it ends the game, the winner it names is the
    first player in seating order who holds no number card and whose
    challenge prompt was declined; that player still holds no number card,
    and every player before who held none was challenged. *)
Theorem win_only_for_unchallenged_zero (resp : nat -> V3.ChallengeResp) (g : V3.Game) :
  V3.gameOver g = false ->
  ((forall i, (i < length (V3.players g))%nat -> V3.numberCardsAt g i ≠ 0) ->
   V3.checkWinCondition resp g = g)
  /\ (V3.gameOver (V3.checkWinCondition resp g) = true ->
      exists i, (i < length (V3.players g))%nat
        /\ V3.numberCardsAt g i = 0 /\ resp i = V3.NoChallenge
        /\ V3.winner (V3.checkWinCondition resp g) = V3.nameAt g i
        /\ V3.numberCardsAt (V3.checkWinCondition resp g) i = 0
        /\ (forall k, (k < i)%nat -> V3.numberCardsAt g k = 0 ->
              resp k ≠ V3.NoChallenge)).
Proof.
  intros Hgo. unfold V3.checkWinCondition. split.
  - intros Hz. apply WinOnlyFacts.checkWinFrom_no_zero.
    intros i Hi. apply Hz. apply elem_of_seq in Hi. lia.
  - intros Hover.
    destruct (WinOnlyFacts.checkWinFrom_ends resp _ 0 g Hgo Hover)
      as (i & Hi & Hzi & Hri & Hw & Hzi' & Hfirst).
    exists i. repeat split; try done; try lia.
    intros k Hk. apply Hfirst. lia.
Qed.

Lemma win_only_for_unchallenged_zero_witness :
  V3.gameOver Spec.lastCard = false
  /\ exists i, V3.numberCardsAt Spec.lastCard i = 0
       /\ V3.winner (V3.checkWinCondition (fun _ => V3.NoChallenge) Spec.lastCard)
          = V3.nameAt Spec.lastCard i.
Proof.
  assert (H0 : V3.gameOver Spec.lastCard = false) by reflexivity.
  split; [exact H0|].
  destruct (proj2 (win_only_for_unchallenged_zero (fun _ => V3.NoChallenge)
                     Spec.lastCard H0) eq_refl)
    as (i & _ & Hz & _ & Hw & _).
  exists i. exact (conj Hz Hw).
Defined.

(** * No card is created in play *)

Module ConserveFacts.
Import V3 V3Facts Spec RoundFacts InvariantFacts.

Lemma sum_alter (pr : Player -> Z) (l : list Player) (i : nat) (f : Player -> Player) :
  foldr Z.add 0 (pr <$> alter f i l)
  = foldr Z.add 0 (pr <$> l) + from_option (fun p => pr (f p) - pr p) 0 (l !! i).
Proof.
  revert i. induction l as [|q l IH]; intros [|i]; csimpl in *; try lia.
  specialize (IH i). lia.
Qed.

Lemma sum_nonneg (pr : Player -> Z) (l : list Player) :
  (forall p, 0 <= pr p) -> 0 <= foldr Z.add 0 (pr <$> l).
Proof. intros Hpr. induction l as [|q l IH]; csimpl; [lia|]. specialize (Hpr q). lia. Qed.

(** One term, and two terms, of a sum of non-negative terms. *)
Lemma sum_ge_one (pr : Player -> Z) (l : list Player) i p :
  (forall p, 0 <= pr p) -> l !! i = Some p -> pr p <= foldr Z.add 0 (pr <$> l).
Proof.
  intros Hpr. revert i. induction l as [|q l IH]; intros [|i] Hi; csimpl in *;
    try discriminate.
  - injection Hi as ->. pose proof (sum_nonneg pr l Hpr). lia.
  - specialize (IH i Hi). specialize (Hpr q). lia.
Qed.

Lemma sum_ge_two (pr : Player -> Z) (l : list Player) i j p q :
  (forall p, 0 <= pr p) -> i ≠ j -> l !! i = Some p -> l !! j = Some q ->
  pr p + pr q <= foldr Z.add 0 (pr <$> l).
Proof.
  intros Hpr. revert i j. induction l as [|r l IH]; intros [|i] [|j] Hne Hi Hj;
    csimpl in *; try discriminate; try done.
  - injection Hi as ->. pose proof (sum_ge_one pr l j q Hpr Hj). lia.
  - injection Hj as ->. pose proof (sum_ge_one pr l i p Hpr Hi). lia.
  - specialize (IH i j ltac:(lia) Hi Hj). specialize (Hpr r). lia.
Qed.

(** Without a negative count the two ways of counting agree. *)
Lemma heldTotal_nonneg g : nonneg g -> heldTotal g = numberTotal g.
Proof.
  intros (Hall & _). unfold heldTotal, numberTotal, handTotal. f_equal.
  induction Hall as [|p l [Hp _] _ IH]; csimpl; [done|]. rewrite IH. lia.
Qed.

Lemma numberTotal_le_held g : numberTotal g <= heldTotal g.
Proof.
  unfold heldTotal, numberTotal, handTotal.
  induction (players g) as [|p l IH]; csimpl; lia.
Qed.

Lemma totalsLe_refl g : totalsLe g g.
Proof. unfold totalsLe. lia. Qed.

Lemma totalsLe_trans g1 g2 g3 : totalsLe g2 g1 -> totalsLe g3 g2 -> totalsLe g3 g1.
Proof. unfold totalsLe. lia. Qed.

Lemma nonneg_upd x i f :
  (forall p, 0 <= numberCards p -> 0 <= actionCards p ->
     0 <= numberCards (f p) /\ 0 <= actionCards (f p)) ->
  nonneg x -> nonneg (upd i f x).
Proof.
  intros Hf (Hall & Hn & Ha). split; [|done]. unfold upd; simpl.
  apply Forall_alter; [done|]. intros p _ [H1 H2]. by apply Hf.
Qed.

(** Unfolds the totals of a state built from assignments. *)
Ltac totals :=
  unfold totalsLe, heldTotal, numberTotal, actionTotal, handTotal, actionHandTotal,
    upd, set_players, set_numberDeck, set_actionDeck, declareWinner, endGame; simpl;
  rewrite ?sum_alter, ?list_lookup_alter; simpl.

(** Splits on the players looked up, with what [Hn] ([sane] or [nonneg])
    says of each. *)
Ltac lookups Hn :=
  repeat (case_decide; subst);
  repeat match goal with
         | |- context [players ?x !! ?i] =>
             let E := fresh "E" in
             destruct (players x !! i) eqn:E; rewrite ?E in *;
             try (pose proof (sane_lookup _ _ _ Hn E));
             try (pose proof (nonneg_lookup _ _ _ Hn E))
         end;
  simpl in *; try lia.

Section Play.

(** The cards of the game number at most [T], which an [int] can hold. *)
Variable T : Z.
Hypothesis T_int : T <= INT_MAX.

Lemma plays_refl g : plays T g g.
Proof.
  split; [apply evolves_refl|]. intros _. split; [apply totalsLe_refl|done].
Qed.

(** One more operation after a play. *)
Lemma plays_post g x y :
  plays T g x -> evolves x y ->
  (sane x -> totalsLe y x) ->
  (sane x -> nonneg x -> heldTotal x <= T -> nonneg y) ->
  plays T g y.
Proof.
  intros [Hev Hg] Hxy Hle Hnn. split; [by apply (evolves_trans _ x)|].
  intros Hs. destruct (Hg Hs) as [Hle1 Hnn1].
  assert (Hsx : sane x) by (by apply Hev).
  split; [by apply (totalsLe_trans g x y); auto|].
  intros Hn0 HT. apply Hnn; auto.
  destruct Hle1 as [Hle1 _]. lia.
Qed.

Lemma plays_trans g x y : plays T g x -> plays T x y -> plays T g y.
Proof.
  intros Hx [Hev Hy].
  apply (plays_post g x); [done|done|intros Hs; by apply Hy|].
  intros Hs Hn HT. by apply Hy.
Qed.

Lemma plays_for_loop g x n body :
  (forall i y, plays T g y -> plays T g (body i y)) ->
  plays T g x -> plays T g (for_loop n body x).
Proof. intros Hb. apply for_loop_ind. auto. Qed.

(** An assignment that raises no count and lowers none below 0. *)
Lemma plays_upd g x i f :
  evolves x (upd i f x) ->
  (forall p, INT_MIN <= numberCards p -> 0 <= actionCards p ->
     Z.max 0 (numberCards (f p)) <= Z.max 0 (numberCards p)
     /\ actionCards (f p) <= actionCards p
     /\ 0 <= actionCards (f p)
     /\ (0 <= numberCards p -> 0 <= numberCards (f p))) ->
  plays T g x -> plays T g (upd i f x).
Proof.
  intros Hev Hf Hx. apply (plays_post g x); [done|done| |].
  - intros Hs. totals.
    destruct (players x !! i) as [p|] eqn:Hp; simpl; [|lia].
    destruct (sane_lookup _ _ _ Hs Hp) as [H1 H2].
    destruct (Hf p H1 H2) as (? & ? & _). lia.
  - intros _ Hn _. apply nonneg_upd; [|done].
    intros p H1 H2. destruct (Hf p ltac:(unfold INT_MIN; lia) H2) as (_ & _ & ? & ?).
    auto.
Qed.

Lemma plays_shed_number g x i :
  plays T g x -> plays T g (upd i (set_numberCards shed) x).
Proof.
  apply plays_upd; [apply evolves_shed_number, evolves_refl|].
  intros p H1 H2; simpl. unfold shed. lia.
Qed.

Lemma plays_shed_action g x i :
  plays T g x -> plays T g (upd i (set_actionCards shed) x).
Proof.
  apply plays_upd; [apply evolves_shed_action, evolves_refl|].
  intros p H1 H2; simpl. unfold shed. lia.
Qed.

Lemma plays_set_wins g x i h :
  plays T g x -> plays T g (upd i (set_consecutiveWins h) x).
Proof.
  apply plays_upd; [apply evolves_set_wins, evolves_refl|].
  intros p H1 H2; simpl. lia.
Qed.

Lemma plays_set_blocked g x i b :
  plays T g x -> plays T g (upd i (set_isBlocked b) x).
Proof.
  apply plays_upd; [apply evolves_set_blocked, evolves_refl|].
  intros p H1 H2; simpl. lia.
Qed.

Lemma plays_drawNumberTo g x i a :
  0 <= a -> plays T g x -> plays T g (drawNumberTo i a x).
Proof.
  intros Ha Hx.
  apply (plays_post g x); [done|by apply evolves_drawNumberTo, evolves_refl| |].
  - intros Hs. rewrite drawNumberTo_eq, drawFromNumberDeck_fst, drawFromNumberDeck_snd.
    pose proof (dealt_bounds a (numberDeckRemaining x) Ha) as [Hd _].
    totals. destruct (players x !! i); simpl; lia.
  - intros _ Hn _.
    rewrite drawNumberTo_eq, drawFromNumberDeck_fst, drawFromNumberDeck_snd.
    destruct Hn as (Hall & Hnd & Had).
    pose proof (dealt_bounds a (numberDeckRemaining x) Ha) as [Hd0 Hd1].
    apply nonneg_upd; [intros p H1 H2; simpl; lia|].
    split; [done|]. simpl. split; [|done]. specialize (Hd1 Hnd). lia.
Qed.

Lemma plays_drawActionTo g x i a :
  0 <= a -> plays T g x -> plays T g (drawActionTo i a x).
Proof.
  intros Ha Hx.
  apply (plays_post g x); [done|by apply evolves_drawActionTo, evolves_refl| |].
  - intros Hs. rewrite drawActionTo_eq, drawFromActionDeck_fst, drawFromActionDeck_snd.
    pose proof (dealt_bounds a (actionDeckRemaining x) Ha) as [Hd _].
    totals. destruct (players x !! i); simpl; lia.
  - intros _ Hn _.
    rewrite drawActionTo_eq, drawFromActionDeck_fst, drawFromActionDeck_snd.
    destruct Hn as (Hall & Hnd & Had).
    pose proof (dealt_bounds a (actionDeckRemaining x) Ha) as [Hd0 Hd1].
    apply nonneg_upd; [intros p H1 H2; simpl; lia|].
    split; [done|]. simpl. split; [done|]. specialize (Hd1 Had). lia.
Qed.

Lemma plays_declareWinner g x w : plays T g x -> plays T g (declareWinner w x).
Proof.
  intros Hx.
  apply (plays_post g x); [done|apply evolves_declareWinner, evolves_refl| |].
  - intros _. totals. lia.
  - intros _ Hn _. exact Hn.
Qed.

(** *** The number round *)

Lemma alter_twice (f h : Player -> Player) (i : nat) (l : list Player) :
  alter f i (alter h i l) = alter (fun p => f (h p)) i l.
Proof.
  apply list_eq. intros j. rewrite !list_lookup_alter.
  repeat case_decide; subst; try done. by destruct (l !! j).
Qed.

(** An increment followed by a decrement gives the [int] back, also across
    the wrap. *)
Lemma wrap32_inc_dec n : INT_MIN <= n <= INT_MAX -> wrap32 (wrap32 (n + 1) - 1) = n.
Proof.
  intros Hn. unfold wrap32.
  replace ((n + 1 - INT_MIN) mod 4294967296 + INT_MIN - 1 - INT_MIN)
    with ((n + 1 - INT_MIN) mod 4294967296 - 1) by lia.
  rewrite Zminus_mod_idemp_l.
  replace (n + 1 - INT_MIN - 1) with (n - INT_MIN) by lia.
  rewrite Z.mod_small by (unfold INT_MIN, INT_MAX in *; lia). lia.
Qed.

(** A steal never adds to the cards accounted for, wrapped or not. *)
Lemma steal_totals x i t : sane x -> totalsLe (stealCard i t x) x.
Proof.
  intros Hs. unfold stealCard.
  destruct (Z.ltb_spec 0 (numberCardsAt x t)) as [Hpos|]; [|apply totalsLe_refl].
  unfold numberCardsAt in Hpos. totals.
  destruct (players x !! t) as [q|] eqn:Hq; simpl in Hpos; [|lia].
  destruct (sane_lookup _ _ _ Hs Hq) as [Hq1 _].
  case_decide; subst.
  - rewrite Hq. simpl.
    pose proof (wrap32_range (numberCards q + 1)).
    pose proof (wrap32_range (wrap32 (numberCards q + 1) - 1)).
    destruct (Z_le_gt_dec (numberCards q + 1) INT_MAX) as [Hin|Hout].
    + rewrite (wrap32_id (numberCards q + 1)) in * by (unfold INT_MIN, INT_MAX in *; lia).
      rewrite (wrap32_id (numberCards q + 1 - 1)) in *
        by (unfold INT_MIN, INT_MAX in *; lia).
      lia.
    + unfold INT_MIN, INT_MAX in *. lia.
  - simpl.
    pose proof (wrap32_le (numberCards q - 1) ltac:(unfold INT_MIN; lia)).
    destruct (players x !! i) as [p|] eqn:Hp; simpl; [|lia].
    destruct (sane_lookup _ _ _ Hs Hp) as [Hp1 _].
    pose proof (wrap32_range (numberCards p + 1)).
    destruct (Z_le_gt_dec (numberCards p + 1) INT_MIN) as [Hlow|Hhigh].
    + assert (numberCards p + 1 = INT_MIN \/ numberCards p = INT_MIN)
        as [E|E] by (unfold INT_MIN in *; lia).
      * rewrite E, (wrap32_id INT_MIN) by (unfold INT_MIN, INT_MAX; lia).
        unfold INT_MIN in *. lia.
      * rewrite (wrap32_id (numberCards p + 1)) by (unfold INT_MIN, INT_MAX in *; lia).
        unfold INT_MIN in *. lia.
    + pose proof (wrap32_le (numberCards p + 1) ltac:(unfold INT_MIN in *; lia)). lia.
Qed.

(** While the cards number at most [T], a steal wraps nothing. *)
Lemma steal_nonneg x i t :
  nonneg x -> heldTotal x <= T -> nonneg (stealCard i t x).
Proof.
  intros Hn HT. unfold stealCard.
  destruct (Z.ltb_spec 0 (numberCardsAt x t)) as [Hpos|]; [|done].
  unfold numberCardsAt in Hpos.
  destruct (players x !! t) as [q|] eqn:Hq; simpl in Hpos; [|lia].
  destruct Hn as (Hall & Hnd & Had).
  assert (Hn : nonneg x) by done.
  assert (Hmax : forall p, 0 <= Z.max 0 (numberCards p)) by (intros; lia).
  split; [|done]. unfold upd; simpl.
  unfold heldTotal in HT.
  destruct (decide (i = t)) as [->|Hne].
  - pose proof (sum_ge_one _ _ _ _ Hmax Hq) as H1. simpl in H1.
    rewrite alter_twice. apply Forall_alter; [done|].
    intros p Hp [Hp1 Hp2]. rewrite Hq in Hp. injection Hp as <-. simpl.
    split; [|done].
    rewrite wrap32_inc_dec by (unfold INT_MIN, INT_MAX in *; lia). done.
  - apply Forall_alter; [apply Forall_alter; [done|]|].
    + intros p Hp [Hp1 Hp2]. simpl. split; [|done].
      pose proof (sum_ge_two _ _ _ _ _ _ Hmax Hne Hp Hq) as H2. simpl in H2.
      rewrite wrap32_id by (unfold INT_MIN, INT_MAX in *; lia). lia.
    + intros p Hp _. rewrite list_lookup_alter_ne, Hq in Hp by done.
      injection Hp as <-. simpl.
      destruct (nonneg_lookup _ _ _ Hn Hq) as [Hq1 Hq2]. split; [|done].
      pose proof (sum_ge_one _ _ _ _ Hmax Hq) as H1. simpl in H1.
      rewrite wrap32_id by (unfold INT_MIN, INT_MAX in *; lia). lia.
Qed.

Lemma plays_stealCard g x i t : plays T g x -> plays T g (stealCard i t x).
Proof.
  intros Hx.
  apply (plays_post g x); [done|apply evolves_stealCard, evolves_refl| |].
  - apply steal_totals.
  - intros _. apply steal_nonneg.
Qed.

(** The penalty is the two draws one after the other. *)
Lemma penaltySeven_draws t x :
  penaltySeven t x
  = drawActionTo t CARD_7_ACTION_DRAW (drawNumberTo t CARD_7_NUMBER_DRAW x).
Proof.
  rewrite penaltySeven_eq. cbv zeta.
  rewrite drawActionTo_eq, drawNumberTo_eq.
  rewrite !drawFromActionDeck_fst, !drawFromActionDeck_snd, !drawFromNumberDeck_fst,
    !drawFromNumberDeck_snd.
  destruct x. reflexivity.
Qed.

Lemma plays_penaltySeven g x t : plays T g x -> plays T g (penaltySeven t x).
Proof.
  intros Hx. rewrite penaltySeven_draws.
  apply plays_drawActionTo; [done|]. by apply plays_drawNumberTo.
Qed.

Lemma plays_processSpecialEffects g x inp pc :
  plays T g x -> plays T g (processSpecialEffects inp pc x).
Proof.
  apply plays_for_loop. intros i y Hy. unfold effectsBody.
  repeat destruct (_ =? _); auto using plays_penaltySeven, plays_stealCard.
Qed.

Lemma plays_collectPlays g inp : plays T g (roundGame (collectPlays inp g)).
Proof.
  unfold collectPlays.
  apply (for_loop_ind (fun c => plays T g (roundGame c))); [|apply plays_refl].
  intros i c _ Hc. unfold collectBody.
  destruct (isBlockedAt _ _); simpl; [by apply plays_set_blocked|].
  repeat destruct (_ <? _); repeat destruct (_ =? _); done.
Qed.

Lemma plays_resolveSingle g x w pc : plays T g x -> plays T g (resolveSingle w pc x).
Proof.
  intros Hx. unfold resolveSingle. apply plays_for_loop.
  - intros i y Hy. unfold loserBody. destruct (_ && _); [|done].
    apply plays_drawNumberTo; [lia|]. by apply plays_set_wins.
  - by apply plays_set_wins, plays_shed_number.
Qed.

Lemma plays_resolveTie g x ws : plays T g x -> plays T g (resolveTie ws x).
Proof.
  intros Hx. unfold resolveTie. apply plays_for_loop.
  - intros i y Hy. apply plays_drawNumberTo; [lia|done].
  - apply (fold_left_ind (plays T g)); [|done].
    intros w y Hy. unfold tieShed. by apply plays_set_wins, plays_shed_number.
Qed.

Lemma plays_checkConsecutiveWins g x inp :
  plays T g x -> plays T g (checkConsecutiveWins inp x).
Proof.
  apply plays_for_loop. intros i y Hy. unfold bonusBody.
  destruct (_ <=? _); [|done].
  apply plays_set_wins. destruct (_ =? _); [apply plays_drawActionTo; [lia|done]|].
  apply plays_for_loop; [|done].
  intros j z Hz. destruct (negb _); [|done]. apply plays_drawNumberTo; [lia|done].
Qed.

Lemma plays_handleDrawChallenge g x i r :
  plays T g x -> plays T g (handleDrawChallenge i r x).
Proof.
  intros Hx. destruct r as [|c k]; simpl; [by apply plays_declareWinner|].
  apply plays_shed_action, plays_drawNumberTo; [apply drawAmount_nonneg|done].
Qed.

Lemma plays_checkWinCondition g resp x :
  plays T g x -> plays T g (checkWinCondition resp x).
Proof.
  unfold checkWinCondition. generalize (seq 0 (length (players x))). intros idxs.
  revert x. induction idxs as [|i rest IH]; intros x Hx; simpl; [done|].
  destruct (_ =? _); [|by apply IH].
  pose proof (plays_handleDrawChallenge g x i (resp i) Hx).
  destruct (gameOver _); [done|by apply IH].
Qed.

Lemma plays_handleNumberRound g inp : plays T g (handleNumberRound inp g).
Proof.
  unfold handleNumberRound, resolveWinner.
  pose proof (plays_processSpecialEffects g _ inp
                (playedCards (collectPlays inp g)) (plays_collectPlays g inp)) as H2.
  destruct (winners (collectPlays inp g)) as [|w [|w' ws]]; [done| |].
  - by apply plays_checkWinCondition, plays_checkConsecutiveWins, plays_resolveSingle.
  - by apply plays_checkWinCondition, plays_checkConsecutiveWins, plays_resolveTie.
Qed.

(** *** Action cards *)

Lemma plays_swapNumberCards g x a b :
  plays T g x -> plays T g (swapNumberCards a b x).
Proof.
  intros Hx.
  apply (plays_post g x); [done|apply evolves_swapNumberCards, evolves_refl| |].
  - intros Hs. unfold swapNumberCards, numberCardsAt. totals. lookups Hs.
  - intros _ Hn _. unfold swapNumberCards.
    pose proof (nonneg_numberCardsAt x a Hn). pose proof (nonneg_numberCardsAt x b Hn).
    apply nonneg_upd; [intros p H1 H2; simpl; lia|].
    apply nonneg_upd; [intros p H1 H2; simpl; lia|done].
Qed.

Lemma plays_swapActionCards g x a b :
  plays T g x -> plays T g (swapActionCards a b x).
Proof.
  intros Hx.
  apply (plays_post g x); [done|apply evolves_swapActionCards, evolves_refl| |].
  - intros Hs. unfold swapActionCards, actionCardsAt. totals. lookups Hs.
  - intros _ Hn _. unfold swapActionCards.
    pose proof (nonneg_actionCardsAt x a Hn). pose proof (nonneg_actionCardsAt x b Hn).
    apply nonneg_upd; [intros p H1 H2; simpl; lia|].
    apply nonneg_upd; [intros p H1 H2; simpl; lia|done].
Qed.

Lemma plays_handleDrawCard g a amount t counter :
  0 <= amount -> plays T g (handleDrawCard a amount t counter g).
Proof.
  intros Hamt. unfold handleDrawCard. destruct counter as [k|].
  - apply plays_shed_action, plays_shed_action.
    repeat destruct (_ <? _); repeat apply plays_drawNumberTo;
      try apply plays_refl; lia.
  - apply plays_shed_action, plays_drawNumberTo; [done|apply plays_refl].
Qed.

Lemma plays_handleActionCard g a actionStr ans :
  plays T g (handleActionCard a actionStr ans g).
Proof.
  unfold handleActionCard.
  destruct (parseActionType actionStr); try apply plays_refl.
  - unfold handleBlockCard. destruct (yes ans).
    + by apply plays_shed_action, plays_shed_action, plays_shed_number,
        plays_shed_number, plays_refl.
    + by apply plays_shed_action, plays_set_blocked, plays_refl.
  - unfold handleBlockCard. destruct (yes ans).
    + by apply plays_shed_action, plays_shed_action, plays_shed_number,
        plays_shed_number, plays_refl.
    + by apply plays_shed_action, plays_set_blocked, plays_refl.
  - unfold handleReverseCard.
    by apply plays_swapActionCards, plays_swapNumberCards, plays_shed_action,
      plays_swapActionCards, plays_swapNumberCards, plays_refl.
  - unfold handleColorChangeCard. apply plays_shed_action, plays_for_loop;
      [|apply plays_refl]. intros. by apply plays_shed_number.
  - unfold handleColorChangeCard. apply plays_shed_action, plays_for_loop;
      [|apply plays_refl]. intros. by apply plays_shed_number.
  - apply plays_handleDrawCard. lia.
  - apply plays_handleDrawCard. lia.
  - unfold handleTruthCard. apply plays_shed_number, plays_shed_action.
    destruct (yes ans); [apply plays_refl|].
    destruct (_ =? _).
    + apply plays_drawNumberTo; [lia|]. apply plays_drawActionTo; [lia|apply plays_refl].
    + apply plays_drawNumberTo; [lia|apply plays_refl].
  - unfold handleDareCard. destruct (yes ans).
    + by apply plays_shed_number, plays_shed_action, plays_refl.
    + apply plays_declareWinner, plays_refl.
Qed.

Lemma plays_step g c : playCommand c -> plays T g (step g c).
Proof.
  destruct c as [inp|a actionStr ans| |pIdx choice newCount|]; simpl; intros Hc.
  - apply plays_handleNumberRound.
  - apply plays_handleActionCard.
  - apply plays_refl.
  - done.
  - apply (plays_post g g); [apply plays_refl|apply evolves_endGame| |].
    + intros _. totals. lia.
    + intros _ Hn _. exact Hn.
Qed.

Lemma plays_run cs g : Forall playCommand cs -> plays T g (run cs g).
Proof.
  revert g. induction cs as [|c cs IH]; intros g Hcs; simpl; [apply plays_refl|].
  apply Forall_cons in Hcs as [Hc Hcs].
  destruct (gameOver g); [apply plays_refl|].
  apply (plays_trans _ (step g c)); [by apply plays_step|by apply IH].
Qed.

End Play.

(** A correction by hand adds at most 100 number cards and keeps the counts
    non-negative. *)
Lemma adjust_bounded (g : Game) (pIdx : nat) (choice newCount : Z) :
  validAdjust choice newCount -> nonneg g ->
  nonneg (manualAdjustment pIdx choice newCount g)
  /\ numberTotal (manualAdjustment pIdx choice newCount g) <= numberTotal g + 100.
Proof.
  intros [H1 H2] Hn. unfold manualAdjustment.
  destruct (Z.eqb_spec choice 1); [|destruct (Z.eqb_spec choice 2)].
  - split; [apply nonneg_upd; [intros p ? ?; simpl; lia|done]|].
    totals. lookups Hn.
  - split; [apply nonneg_upd; [intros p ? ?; simpl; lia|done]|].
    totals. lookups Hn.
  - split; [apply nonneg_upd; [intros p ? ?; simpl; lia|done]|].
    totals. lookups Hn.
Qed.

(** One command of the menu, corrections included. *)
Lemma step_bounded (g : Game) (c : Command) :
  validCommand c -> nonneg g -> numberTotal g <= INT_MAX ->
  nonneg (step g c) /\ numberTotal (step g c) <= numberTotal g + 100.
Proof.
  intros Hc Hn HT.
  assert (Hplay : playCommand c ->
                  nonneg (step g c) /\ numberTotal (step g c) <= numberTotal g + 100).
  { intros Hp. destruct (plays_step INT_MAX ltac:(lia) g c Hp) as [_ Hle].
    destruct (Hle (sane_of_nonneg _ Hn)) as [[Hnum _] Hnn].
    rewrite (heldTotal_nonneg g Hn) in *.
    pose proof (numberTotal_le_held (step g c)).
    split; [by apply Hnn|lia]. }
  destruct c as [inp|a actionStr ans| |pIdx choice newCount|];
    try (by apply Hplay).
  simpl. by apply adjust_bounded.
Qed.

Lemma evolves_run cs g : Forall validCommand cs -> evolves g (run cs g).
Proof.
  revert g. induction cs as [|c cs IH]; intros g Hcs; simpl; [apply evolves_refl|].
  apply Forall_cons in Hcs as [Hc Hcs].
  destruct (gameOver g); [apply evolves_refl|].
  apply (evolves_trans _ (step g c)); [by apply evolves_step|by apply IH].
Qed.

End ConserveFacts.

(** X16.  Play never creates a card.  From a state without negative counts,
    any sequence of number rounds, action cards, displays and the end
    command leaves the number cards accounted for (all hands plus the
    number pool) and the action cards accounted for (all hands plus the
    action pool) no more than they were: every card a hand gains comes out of
    a pool or out of another hand. *)
Theorem play_creates_no_card (g : V3.Game) (cs : list V3.Command) :
  Spec.nonneg g -> Forall Spec.playCommand cs ->
  Spec.numberTotal (V3.run cs g) <= Spec.numberTotal g
  /\ Spec.actionTotal (V3.run cs g) <= Spec.actionTotal g.
Proof.
  intros Hg Hcs.
  destruct (ConserveFacts.plays_run INT_MAX ltac:(lia) cs g Hcs) as [_ Hle].
  destruct (Hle (InvariantFacts.sane_of_nonneg _ Hg)) as [[Hnum Hact] _].
  rewrite (ConserveFacts.heldTotal_nonneg g Hg) in Hnum.
  pose proof (ConserveFacts.numberTotal_le_held (V3.run cs g)). lia.
Qed.

Lemma play_creates_no_card_witness :
  Spec.numberTotal
    (V3.run [V3.NumberRound Spec.sevenBeatsThree;
             V3.ActionCard 1 "+4" (V3.mkAnswers 0 false Plus2 1)]
       (V3.setupGame "A" "B"))
  <= 108
  /\ Spec.actionTotal
       (V3.run [V3.NumberRound Spec.sevenBeatsThree;
                V3.ActionCard 1 "+4" (V3.mkAnswers 0 false Plus2 1)]
          (V3.setupGame "A" "B"))
     <= 32.
Proof.
  apply (play_creates_no_card (V3.setupGame "A" "B")).
  - apply InvariantFacts.nonneg_setupGame.
  - repeat constructor.
Defined.

(** X1.  Along every play of version 3 from a position without negative
    counters, whatever is answered at the prompts and whatever is corrected
    by hand within the validated ranges: as long as the number cards
    accounted for at the start, plus 100 for every command typed, fit an
    [int], no number-card count, action-card count or pool is negative.
    Whatever the length of the play, no pool grows and the players stay the
    same, by name and in number.  (The steal's increment is the one
    operation that can leave the range of [int]; the bound keeps it
    inside.) *)
Theorem v3_play_invariants (g : V3.Game) (cs : list V3.Command) :
  Spec.nonneg g -> Forall V3.validCommand cs ->
  (Spec.numberTotal g + 100 * Z.of_nat (length cs) <= INT_MAX ->
   Spec.nonneg (V3.run cs g))
  /\ Spec.decksLe (V3.run cs g) g
  /\ V3.name <$> V3.players (V3.run cs g) = V3.name <$> V3.players g
  /\ length (V3.players (V3.run cs g)) = length (V3.players g).
Proof.
  intros Hn Hcs.
  pose proof (ConserveFacts.evolves_run cs g Hcs) as Hev.
  pose proof (TieFacts.length_evolves g _ Hev) as Hlen.
  destruct Hev as (_ & Hd & Hnames).
  split; [|done].
  clear Hd Hnames Hlen. revert g Hn.
  induction Hcs as [|c cs Hc Hcs IH]; intros g Hn HT; simpl; [done|].
  destruct (V3.gameOver g); [done|].
  rewrite length_cons, Nat2Z.inj_succ in HT.
  destruct (ConserveFacts.step_bounded g c Hc Hn ltac:(lia)) as [Hn1 HT1].
  apply IH; [done|lia].
Qed.

Lemma v3_play_invariants_witness :
  Spec.nonneg
    (V3.run [V3.NumberRound Spec.sevenBeatsThree; V3.Adjust 0 1 100;
             V3.ActionCard 1 "+4" (V3.mkAnswers 0 false Plus2 1)]
       (V3.setupGame "A" "B")).
Proof.
  refine (proj1 (v3_play_invariants (V3.setupGame "A" "B")
                   [V3.NumberRound Spec.sevenBeatsThree; V3.Adjust 0 1 100;
                    V3.ActionCard 1 "+4" (V3.mkAnswers 0 false Plus2 1)]
                   (InvariantFacts.nonneg_setupGame "A" "B") _) _).
  - repeat constructor; simpl; lia.
  - vm_compute. discriminate.
Defined.

(** * The browser game: decks, dealing and the number round *)

Module WebDeckFacts.
Import Web.

Lemma length_swapAt i j l : length (swapAt i j l) = length l.
Proof.
  unfold swapAt. destruct (l !! i), (l !! j); try done. by rewrite !length_insert.
Qed.

Lemma Forall_swapAt (P : Card -> Prop) i j l : Forall P l -> Forall P (swapAt i j l).
Proof.
  intros Hl. unfold swapAt.
  destruct (l !! i) as [ci|] eqn:Hi; [|done]. destruct (l !! j) as [cj|] eqn:Hj; [|done].
  rewrite Forall_lookup in Hl.
  apply Forall_insert; [apply Forall_insert|]; eauto using Forall_lookup_2.
Qed.

Lemma length_shuffle rnd l : length (shuffle rnd l) = length l.
Proof.
  unfold shuffle. generalize (rev (seq 1 (length l - 1))). intros idxs.
  revert l. induction idxs as [|i idxs IH]; intros l; simpl; [done|].
  by rewrite IH, length_swapAt.
Qed.

Lemma Forall_shuffle (P : Card -> Prop) rnd l : Forall P l -> Forall P (shuffle rnd l).
Proof.
  unfold shuffle. generalize (rev (seq 1 (length l - 1))). intros idxs.
  revert l. induction idxs as [|i idxs IH]; intros l Hl; simpl; [done|].
  by apply IH, Forall_swapAt.
Qed.

(** The two decks as built, before the shuffle. *)
Lemma number_deck_built ids :
  type <$> fold_left (numberCardsFor ids) colors [] = replicate 76 NumberCard.
Proof. reflexivity. Qed.

Lemma action_deck_built ids :
  type <$> wildCards ids (fold_left (actionCardsFor ids) colors [])
  = replicate 32 ActionCard.
Proof. reflexivity. Qed.

Lemma types_Forall (t : CardType) (n : nat) (l : list Card) :
  type <$> l = replicate n t -> length l = n /\ Forall (fun c => type c = t) l.
Proof.
  intros H. split.
  - by rewrite <- (length_fmap type), H, length_replicate.
  - apply Forall_lookup. intros i c Hc.
    assert (Hi : (type <$> l) !! i = Some (type c)) by (by rewrite list_lookup_fmap, Hc).
    rewrite H in Hi. by apply lookup_replicate in Hi as [-> _].
Qed.

Lemma reset_number ids rnd :
  count (reset NumberCard ids rnd) = 76%nat
  /\ Forall (fun c => type c = NumberCard) (cards (reset NumberCard ids rnd)).
Proof.
  destruct (types_Forall _ _ _ (number_deck_built ids)) as [Hl Ht].
  unfold count, reset. cbn [cards]. split.
  - rewrite length_shuffle. exact Hl.
  - apply Forall_shuffle. exact Ht.
Qed.

Lemma reset_action ids rnd :
  count (reset ActionCard ids rnd) = 32%nat
  /\ Forall (fun c => type c = ActionCard) (cards (reset ActionCard ids rnd)).
Proof.
  destruct (types_Forall _ _ _ (action_deck_built ids)) as [Hl Ht].
  unfold count, reset. cbn [cards]. split.
  - rewrite length_shuffle. exact Hl.
  - apply Forall_shuffle. exact Ht.
Qed.

Section Dealing.
Variable sortHand : list Card -> list Card.
Hypothesis sort_length : forall l, length (sortHand l) = length l.

(** What one successful draw of a card of type [t] does to [who]. *)
Lemma draw_nonempty (d : Deck) :
  (0 < count d)%nat ->
  exists c l, cards d = l ++ [c] /\ draw d = (Some c, mkDeck (deckType d) l).
Proof.
  unfold count, draw. destruct (cards d) as [|c l] using rev_ind; simpl; [lia|].
  intros _. exists c, l. by rewrite last_snoc, removelast_last.
Qed.

Lemma addCard_number c p :
  type c = NumberCard ->
  numberCount (addCard sortHand c p) = S (numberCount p)
  /\ actionHand (addCard sortHand c p) = actionHand p
  /\ consecutiveWins (addCard sortHand c p) = consecutiveWins p
  /\ isBlocked (addCard sortHand c p) = isBlocked p.
Proof.
  intros Hc. unfold addCard, numberCount. rewrite Hc. simpl.
  rewrite sort_length, length_app. simpl. repeat split. lia.
Qed.

Lemma dealTo_ok who g :
  (0 < count (numberDeck g))%nat ->
  Forall (fun c => type c = NumberCard) (cards (numberDeck g)) ->
  exists g1, dealTo sortHand who g = Some g1
    /\ count (numberDeck g1) = (count (numberDeck g) - 1)%nat
    /\ Forall (fun c => type c = NumberCard) (cards (numberDeck g1))
    /\ actionDeck g1 = actionDeck g
    /\ numberCount (sideOf g1 who) = S (numberCount (sideOf g who))
    /\ actionHand (sideOf g1 who) = actionHand (sideOf g who)
    /\ isBlocked (sideOf g1 who) = isBlocked (sideOf g who)
    /\ sideOf g1 (other who) = sideOf g (other who)
    /\ roundCount g1 = roundCount g /\ state g1 = state g
    /\ tempPlayedPlayer g1 = tempPlayedPlayer g /\ tempPlayedAi g1 = tempPlayedAi g.
Proof.
  intros Hpos Hty. destruct (draw_nonempty _ Hpos) as (c & l & Hl & Hd).
  unfold dealTo. rewrite Hd. eexists; split; [reflexivity|].
  rewrite Hl, Forall_app, Forall_singleton in Hty. destruct Hty as [Hty Hc].
  destruct (addCard_number c (sideOf g who) Hc) as (H1 & H2 & _ & H4).
  unfold count in *. rewrite Hl, length_app. simpl.
  destruct who; simpl in *; repeat split; try done; lia.
Qed.

Lemma dealRounds_ok n g :
  (2 * n <= count (numberDeck g))%nat ->
  Forall (fun c => type c = NumberCard) (cards (numberDeck g)) ->
  exists g', dealRounds sortHand n g = Some g'
    /\ count (numberDeck g') = (count (numberDeck g) - 2 * n)%nat
    /\ actionDeck g' = actionDeck g
    /\ numberCount (player g') = (numberCount (player g) + n)%nat
    /\ numberCount (ai g') = (numberCount (ai g) + n)%nat
    /\ actionHand (player g') = actionHand (player g)
    /\ actionHand (ai g') = actionHand (ai g)
    /\ isBlocked (player g') = isBlocked (player g)
    /\ isBlocked (ai g') = isBlocked (ai g)
    /\ roundCount g' = roundCount g /\ state g' = state g
    /\ tempPlayedPlayer g' = tempPlayedPlayer g /\ tempPlayedAi g' = tempPlayedAi g.
Proof.
  revert g. induction n as [|n IH]; intros g Hn Hty; cbn [dealRounds].
  - exists g. repeat split; lia.
  - destruct (dealTo_ok Human g ltac:(lia) Hty)
      as (g1 & -> & Hc1 & Hty1 & Ha1 & Hn1 & Hh1 & Hb1 & Ho1 & Hr1 & Hs1 & Hp1 & Hq1).
    destruct (dealTo_ok Computer g1 ltac:(lia) Hty1)
      as (g2 & -> & Hc2 & Hty2 & Ha2 & Hn2 & Hh2 & Hb2 & Ho2 & Hr2 & Hs2 & Hp2 & Hq2).
    destruct (IH g2 ltac:(lia) Hty2)
      as (g' & -> & Hc & Ha & Hnp & Hna & Hhp & Hha & Hbp & Hba & Hr & Hs & Hp & Hq).
    exists g'. simpl in *.
    split; [reflexivity|].
    rewrite Hc, Ha, Hnp, Hna, Hhp, Hha, Hbp, Hba, Hr, Hs, Hp, Hq.
    rewrite Hc2, Ha2, Hn2, Hh2, Hb2, Ho2, Hr2, Hs2, Hp2, Hq2.
    rewrite Hc1, Ha1, Hn1, Hh1, Hb1, Ho1, Hr1, Hs1, Hp1, Hq1.
    repeat split; lia.
Qed.

End Dealing.

End WebDeckFacts.

(** X17.  A new browser game deals without running out of cards: whatever
    the shuffle and the ids, the number deck is built with 76 cards and the
    action deck with 32; [start] hands each side 20 number cards and no
    action card, leaves 36 cards in the number deck and 32 in the action
    deck, and opens round 1 with nobody blocked.  [sortHand] is assumed to
    return as many cards as it is given. *)
Theorem web_start_deals_twenty (sortHand : list Web.Card -> list Web.Card)
    (idsN idsA : nat -> string) (rndN rndA : nat -> nat) (aiChoice : option Web.Card) :
  (forall l, length (sortHand l) = length l) ->
  Web.count (Web.numberDeck (Web.newGame idsN rndN idsA rndA)) = 76%nat
  /\ Web.count (Web.actionDeck (Web.newGame idsN rndN idsA rndA)) = 32%nat
  /\ exists g, Web.start sortHand aiChoice (Web.newGame idsN rndN idsA rndA) = Some g
       /\ Web.numberCount (Web.player g) = 20%nat
       /\ Web.numberCount (Web.ai g) = 20%nat
       /\ Web.actionCount (Web.player g) = 0%nat
       /\ Web.actionCount (Web.ai g) = 0%nat
       /\ Web.count (Web.numberDeck g) = 36%nat
       /\ Web.count (Web.actionDeck g) = 32%nat
       /\ Web.roundCount g = 1 /\ Web.state g = Web.PLAY_NUMBER
       /\ Web.tempPlayedAi g = aiChoice.
Proof.
  intros Hsort.
  destruct (WebDeckFacts.reset_number idsN rndN) as [HcN HtN].
  destruct (WebDeckFacts.reset_action idsA rndA) as [HcA _].
  unfold Web.newGame. cbn [Web.numberDeck Web.actionDeck].
  split; [exact HcN|]. split; [exact HcA|].
  unfold Web.start, Web.dealInitialCards.
  generalize dependent (Web.reset Web.NumberCard idsN rndN). intros dN HcN HtN.
  generalize dependent (Web.reset Web.ActionCard idsA rndA). intros dA HcA.
  destruct (WebDeckFacts.dealRounds_ok sortHand Hsort 20
              (Web.set_roundCount 1
                 (Web.set_state Web.PLAY_NUMBER
                    (Web.mkGame dN dA (Web.newPlayer "Player" false)
                       (Web.newPlayer "AI" true) 0 Web.MENU None None))))
    as (g' & -> & Hc & Ha & Hnp & Hna & Hhp & Hha & Hbp & Hba & Hr & Hs & Hp & Hq).
  { simpl. rewrite HcN. lia. }
  { exact HtN. }
  eexists; split; [reflexivity|].
  simpl in Hc, Ha, Hnp, Hna, Hhp, Hha, Hbp, Hba, Hr, Hs.
  unfold Web.startRound, Web.startRoundPlay. rewrite Hbp, Hba. simpl.
  unfold Web.actionCount. rewrite Hhp, Hha, Hnp, Hna, Hc, Ha, HcN, HcA.
  repeat split; done.
Qed.

Lemma web_start_deals_twenty_witness :
  exists g,
    Web.start (fun l => l) (Some Spec.nineCard)
      (Web.newGame (fun _ => "c") (fun _ => 0%nat) (fun _ => "c") (fun _ => 0%nat))
    = Some g
    /\ Web.numberCount (Web.player g) = 20%nat
    /\ Web.count (Web.numberDeck g) = 36%nat.
Proof.
  destruct (web_start_deals_twenty (fun l => l) (fun _ => "c") (fun _ => "c")
              (fun _ => 0%nat) (fun _ => 0%nat) (Some Spec.nineCard)
              (fun l => eq_refl))
    as (_ & _ & g & Hg & Hp & _ & _ & _ & Hd & _).
  exists g. exact (conj Hg (conj Hp Hd)).
Defined.

Module WebRoundFacts.
Import Web.

Lemma sideOf_set_side_eq s p g : sideOf (set_side s p g) s = p.
Proof. by destruct s. Qed.

Lemma sideOf_set_side_other s p g : sideOf (set_side s p g) (other s) = sideOf g (other s).
Proof. by destruct s. Qed.

Lemma sideOf_set_deck t d g s : sideOf (set_deck t d g) s = sideOf g s.
Proof. by destruct t, s. Qed.

Lemma side_cases (who s : Side) : s = who \/ s = other who.
Proof. destruct who, s; auto. Qed.

Lemma snoc_cases (l : list Card) : l = [] \/ exists l' c, l = l' ++ [c].
Proof. destruct l as [|c l' _] using rev_ind; [by left|right; by exists l', c]. Qed.

(** [draw] on a deck whose cards are given. *)
Lemma draw_empty d : cards d = [] -> draw d = (None, mkDeck (deckType d) []).
Proof. unfold draw. by intros ->. Qed.

Lemma draw_snoc d l c : cards d = l ++ [c] -> draw d = (Some c, mkDeck (deckType d) l).
Proof. unfold draw. intros ->. by rewrite last_snoc, removelast_last. Qed.

Section Round.
Variable sortHand : list Card -> list Card.

Lemma drawCards_other who n t g :
  sideOf (drawCards sortHand who n t g) (other who) = sideOf g (other who).
Proof.
  revert g. induction n as [|n IH]; intros g; cbn [drawCards]; [done|].
  destruct (Nat.eqb _ 0); [done|].
  destruct (draw (deckOf g t)) as [[c|] d]; [|done].
  by rewrite IH, sideOf_set_side_other, sideOf_set_deck.
Qed.

(** Drawing action cards from a deck of action cards leaves the number
    hands alone. *)
Lemma drawCards_action_numberHand who n g s :
  Forall (fun c => type c = ActionCard) (cards (actionDeck g)) ->
  numberHand (sideOf (drawCards sortHand who n ActionCard g) s) = numberHand (sideOf g s).
Proof.
  revert g. induction n as [|n IH]; intros g Hty; cbn [drawCards]; [done|].
  destruct (Nat.eqb _ 0); [done|].
  unfold deckOf.
  destruct (snoc_cases (cards (actionDeck g))) as [E|(l & c & E)].
  - by rewrite (draw_empty _ E).
  - rewrite (draw_snoc _ _ _ E).
    rewrite E, Forall_app, Forall_singleton in Hty. destruct Hty as [Hl Hc].
    rewrite IH by (by destruct who).
    unfold addCard. rewrite Hc. by destruct who, s.
Qed.

Hypothesis sort_length : forall l, length (sortHand l) = length l.

Lemma addCard_numberCount c p :
  (numberCount p <= numberCount (addCard sortHand c p))%nat.
Proof.
  unfold addCard, numberCount. destruct (type c); simpl; [|lia].
  rewrite sort_length, length_app. lia.
Qed.

Lemma drawCards_numberCount who n t g s :
  (numberCount (sideOf g s) <= numberCount (sideOf (drawCards sortHand who n t g) s))%nat.
Proof.
  destruct (side_cases who s) as [->| ->]; [|by rewrite drawCards_other].
  revert g. induction n as [|n IH]; intros g; cbn [drawCards]; [done|].
  destruct (Nat.eqb _ 0); [done|].
  destruct (draw (deckOf g t)) as [[c|] d]; [|done].
  etrans; [|apply IH]. rewrite sideOf_set_side_eq.
  apply addCard_numberCount.
Qed.

Lemma handlePenalty7_numberCount victim g s :
  (numberCount (sideOf g s) <= numberCount (sideOf (handlePenalty7 sortHand victim g) s))%nat.
Proof. unfold handlePenalty7. etrans; [|apply drawCards_numberCount]. apply drawCards_numberCount. Qed.

Lemma returnAndDraw_numberCount who c g s :
  (numberCount (sideOf g s) <= numberCount (sideOf (returnAndDraw sortHand who c g) s))%nat.
Proof.
  unfold returnAndDraw. destruct c as [c|]; [|done].
  etrans; [|apply drawCards_numberCount].
  destruct (side_cases who s) as [->| ->].
  - rewrite sideOf_set_side_eq. apply addCard_numberCount.
  - by rewrite sideOf_set_side_other.
Qed.

Lemma set_wins_numberHand who w g s :
  numberHand (sideOf (set_wins who w g) s) = numberHand (sideOf g s).
Proof. by destruct who, s. Qed.

Lemma set_wins_numberCount who w g s :
  numberCount (sideOf (set_wins who w g) s) = numberCount (sideOf g s).
Proof. by destruct who, s. Qed.

Lemma bonusFor_numberCount who g s :
  (numberCount (sideOf g s) <= numberCount (sideOf (bonusFor sortHand who g) s))%nat.
Proof.
  unfold bonusFor. destruct (_ <=? _); [|done].
  rewrite set_wins_numberCount. apply drawCards_numberCount.
Qed.

Lemma checkConsecutiveWins_numberCount g s :
  (numberCount (sideOf g s)
   <= numberCount (sideOf (checkConsecutiveWins sortHand g) s))%nat.
Proof.
  unfold checkConsecutiveWins. etrans; [|apply bonusFor_numberCount].
  apply bonusFor_numberCount.
Qed.

Lemma checkWinCondition_players t s :
  sideOf (game (checkWinCondition t)) s = sideOf (game t) s.
Proof. unfold checkWinCondition. repeat destruct (Nat.eqb _ 0); by destruct s. Qed.

Lemma applyRoundResult_numberCount w pCard aiCard t s :
  (numberCount (sideOf (game t) s)
   <= numberCount (sideOf (game (applyRoundResult sortHand w pCard aiCard t)) s))%nat.
Proof.
  unfold applyRoundResult. rewrite checkWinCondition_players. cbv zeta. cbn [game set_game].
  etrans; [|apply checkConsecutiveWins_numberCount].
  destruct w; cbn [game]; rewrite ?set_wins_numberCount.
  - apply returnAndDraw_numberCount.
  - apply returnAndDraw_numberCount.
  - etrans; [|apply drawCards_numberCount]. apply drawCards_numberCount.
  - done.
Qed.

Lemma handleSteal_thief thief pick g :
  (numberCount (sideOf g thief)
   <= numberCount (sideOf (handleSteal sortHand thief pick g) thief))%nat.
Proof.
  unfold handleSteal. destruct (_ <? _)%nat; [|done].
  destruct (_ !! _) as [c|]; [|done].
  rewrite sideOf_set_side_eq.
  etrans; [|apply addCard_numberCount].
  by destruct thief.
Qed.

Lemma handleSteal_victim thief pick g :
  (numberCount (sideOf g (other thief))
   <= numberCount (sideOf (handleSteal sortHand thief pick g) (other thief)) + 1)%nat.
Proof.
  unfold handleSteal. destruct (_ <? _)%nat; [|lia].
  destruct (_ !! _) as [c|] eqn:Hc; [|lia].
  rewrite sideOf_set_side_other.
  apply mk_is_Some, length_delete in Hc.
  destruct thief; unfold numberCount; simpl in *; lia.
Qed.

End Round.
End WebRoundFacts.

(** X18.  In the browser game a number round never takes a number card out
    of the AI's hand, except for the one a 0 played by the human steals: the
    card [chooseNumberCard] returned stays in the AI's hand whether the AI
    wins or loses.  [sortHand] is assumed to return as many cards as it is
    given. *)
Theorem web_ai_hand_never_shrinks (sortHand : list Web.Card -> list Web.Card)
    (pick1 pick2 : nat) (t : Web.Table) :
  (forall l, length (sortHand l) = length l) ->
  let t' := Web.resolveRound sortHand pick1 pick2 t in
  (Web.numberCount (Web.ai (Web.game t))
   <= Web.numberCount (Web.ai (Web.game t'))
      + (if Web.playedNumber 0 (Web.tempPlayedPlayer (Web.game t)) then 1 else 0))%nat.
Proof.
  intros Hsort. cbv zeta. unfold Web.resolveRound.
  set (g := Web.game t). set (pCard := Web.tempPlayedPlayer g).
  set (aiCard := Web.tempPlayedAi g).
  pose proof (WebRoundFacts.applyRoundResult_numberCount sortHand Hsort) as Happly.
  match goal with
  | |- context [Web.applyRoundResult _ ?w ?p ?a ?x] =>
      specialize (Happly w p a x Web.Computer)
  end.
  simpl in Happly.
  match type of Happly with
  | (Web.numberCount (Web.ai ?g4) <= _)%nat =>
      assert (H4 : (Web.numberCount (Web.ai g)
                    <= Web.numberCount (Web.ai g4)
                       + (if Web.playedNumber 0 pCard then 1 else 0))%nat)
  end; [|lia].
  clear Happly.
  assert (H1 : (Web.numberCount (Web.ai g)
                <= Web.numberCount
                     (Web.ai (if Web.playedNumber 0 pCard
                              then Web.handleSteal sortHand Web.Human pick1 g else g))
                   + (if Web.playedNumber 0 pCard then 1 else 0))%nat).
  { destruct (Web.playedNumber 0 pCard); [|lia].
    apply (WebRoundFacts.handleSteal_victim sortHand Web.Human). }
  set (g1 := if Web.playedNumber 0 pCard then _ else g) in *.
  assert (H2 : (Web.numberCount (Web.ai g1)
                <= Web.numberCount
                     (Web.ai (if Web.playedNumber 0 aiCard
                              then Web.handleSteal sortHand Web.Computer pick2 g1
                              else g1)))%nat).
  { destruct (Web.playedNumber 0 aiCard); [|lia].
    apply (WebRoundFacts.handleSteal_thief sortHand Hsort Web.Computer). }
  set (g2 := if Web.playedNumber 0 aiCard then _ else g1) in *.
  assert (H3 : (Web.numberCount (Web.ai g2)
                <= Web.numberCount
                     (Web.ai (if Web.playedNumber 7 pCard
                              then Web.handlePenalty7 sortHand Web.Computer g2
                              else g2)))%nat).
  { destruct (Web.playedNumber 7 pCard); [|lia].
    apply (WebRoundFacts.handlePenalty7_numberCount sortHand Hsort _ _ Web.Computer). }
  set (g3 := if Web.playedNumber 7 pCard then _ else g2) in *.
  assert (H4 : (Web.numberCount (Web.ai g3)
                <= Web.numberCount
                     (Web.ai (if Web.playedNumber 7 aiCard
                              then Web.handlePenalty7 sortHand Web.Human g3
                              else g3)))%nat).
  { destruct (Web.playedNumber 7 aiCard); [|lia].
    apply (WebRoundFacts.handlePenalty7_numberCount sortHand Hsort _ _ Web.Computer). }
  lia.
Qed.

Lemma web_ai_hand_never_shrinks_witness :
  (1 <= Web.numberCount
          (Web.ai (Web.game
             (Web.resolveRound (fun l => l) 0 0
                (Web.mkTable
                   (Web.mkGame (Web.mkDeck Web.NumberCard [Spec.twoCard])
                      (Web.mkDeck Web.ActionCard [])
                      (Web.mkPlayer "Player" false [] [] 0 false)
                      (Web.mkPlayer "AI" true [Spec.nineCard] [] 0 false)
                      1 Web.PLAY_NUMBER (Some Spec.fiveCard) (Some Spec.nineCard))
                   None None)))) + 0)%nat.
Proof.
  apply (web_ai_hand_never_shrinks (fun l => l) 0 0
           (Web.mkTable
              (Web.mkGame (Web.mkDeck Web.NumberCard [Spec.twoCard])
                 (Web.mkDeck Web.ActionCard [])
                 (Web.mkPlayer "Player" false [] [] 0 false)
                 (Web.mkPlayer "AI" true [Spec.nineCard] [] 0 false)
                 1 Web.PLAY_NUMBER (Some Spec.fiveCard) (Some Spec.nineCard))
              None None)).
  intros l. reflexivity.
Defined.

Module WebShedFacts.
Import Web.

Section Round.
Variable sortHand : list Card -> list Card.

Lemma actionDeck_set_side s p g : actionDeck (set_side s p g) = actionDeck g.
Proof. by destruct s. Qed.

Lemma drawCards_number_actionDeck who n g :
  actionDeck (drawCards sortHand who n NumberCard g) = actionDeck g.
Proof.
  revert g. induction n as [|n IH]; intros g; cbn [drawCards]; [done|].
  destruct (Nat.eqb _ 0); [done|].
  destruct (draw (deckOf g NumberCard)) as [[c|] d]; [|done].
  by rewrite IH, actionDeck_set_side.
Qed.

Lemma drawCards_action_Forall (P : Card -> Prop) who n g :
  Forall P (cards (actionDeck g)) ->
  Forall P (cards (actionDeck (drawCards sortHand who n ActionCard g))).
Proof.
  revert g. induction n as [|n IH]; intros g Hty; cbn [drawCards]; [done|].
  destruct (Nat.eqb _ 0); [done|].
  unfold deckOf.
  destruct (WebRoundFacts.snoc_cases (cards (actionDeck g))) as [E|(l & c & E)].
  - by rewrite (WebRoundFacts.draw_empty _ E).
  - rewrite (WebRoundFacts.draw_snoc _ _ _ E).
    rewrite E, Forall_app in Hty. destruct Hty as [Hl Hc].
    apply IH. by destruct who.
Qed.

Lemma bonusFor_numberHand who g s :
  Forall (fun c => type c = ActionCard) (cards (actionDeck g)) ->
  numberHand (sideOf (bonusFor sortHand who g) s) = numberHand (sideOf g s)
  /\ Forall (fun c => type c = ActionCard) (cards (actionDeck (bonusFor sortHand who g))).
Proof.
  intros Hty. unfold bonusFor. destruct (_ <=? _); [|done].
  rewrite WebRoundFacts.set_wins_numberHand. unfold set_wins.
  rewrite actionDeck_set_side.
  split; [by apply WebRoundFacts.drawCards_action_numberHand|].
  by apply drawCards_action_Forall.
Qed.

Lemma checkConsecutiveWins_numberHand g s :
  Forall (fun c => type c = ActionCard) (cards (actionDeck g)) ->
  numberHand (sideOf (checkConsecutiveWins sortHand g) s) = numberHand (sideOf g s).
Proof.
  intros Hty. unfold checkConsecutiveWins.
  destruct (bonusFor_numberHand Human g s Hty) as [H1 _].
  destruct (bonusFor_numberHand Human g Human Hty) as [_ Hty1].
  destruct (bonusFor_numberHand Computer _ s Hty1) as [H2 _].
  by rewrite H2, H1.
Qed.

Lemma returnAndDraw_other who c g :
  sideOf (returnAndDraw sortHand who c g) (other who) = sideOf g (other who)
  /\ actionDeck (returnAndDraw sortHand who c g) = actionDeck g.
Proof.
  unfold returnAndDraw. destruct c as [c|]; [|done].
  rewrite WebRoundFacts.drawCards_other, WebRoundFacts.sideOf_set_side_other,
    drawCards_number_actionDeck, actionDeck_set_side. done.
Qed.

(** The winner's number hand is not touched by the result of the round. *)
Lemma applyRoundResult_winner who pCard aiCard t :
  Forall (fun c => type c = ActionCard) (cards (actionDeck (game t))) ->
  numberHand
    (sideOf (game (applyRoundResult sortHand
                     (match who with Human => WinPlayer | Computer => WinAi end)
                     pCard aiCard t)) who)
  = numberHand (sideOf (game t) who).
Proof.
  intros Hty. unfold applyRoundResult. rewrite WebRoundFacts.checkWinCondition_players.
  cbv zeta. cbn [game set_game].
  destruct who; cbn [game].
  - destruct (returnAndDraw_other Computer aiCard (game t)) as [Ho Hd].
    rewrite checkConsecutiveWins_numberHand.
    + rewrite !WebRoundFacts.set_wins_numberHand. simpl in Ho. simpl. by rewrite Ho.
    + unfold set_wins. rewrite !actionDeck_set_side. by rewrite Hd.
  - destruct (returnAndDraw_other Human pCard (game t)) as [Ho Hd].
    rewrite checkConsecutiveWins_numberHand.
    + rewrite !WebRoundFacts.set_wins_numberHand. simpl in Ho. simpl. by rewrite Ho.
    + unfold set_wins. rewrite !actionDeck_set_side. by rewrite Hd.
Qed.

End Round.
End WebShedFacts.

(** X19.  Who sheds in the browser game.  The human plays the card with id
    [cardId] from the number hand against the AI's card; neither card is a 0
    or a 7, and the action deck holds action cards.  If the human's card is
    higher, the human's number hand afterwards is the old one without the
    played card.  If the AI's card is higher, the AI's number hand afterwards
    is exactly the old one: the AI wins the round without shedding. *)
Theorem web_winner_sheds_only_if_human (sortHand : list Web.Card -> list Web.Card)
    (cardId : string) (i : nat) (p a : Web.Card) (x y : Z) (pick1 pick2 : nat)
    (t : Web.Table) :
  list_find (fun c => Web.id c = cardId) (Web.numberHand (Web.player (Web.game t)))
    = Some (i, p) ->
  Web.tempPlayedAi (Web.game t) = Some a ->
  Web.value p = Web.Num x -> Web.value a = Web.Num y ->
  x ≠ 0 -> x ≠ 7 -> y ≠ 0 -> y ≠ 7 ->
  Forall (fun c => Web.type c = Web.ActionCard)
    (Web.cards (Web.actionDeck (Web.game t))) ->
  let t' := Web.playNumberCard sortHand cardId pick1 pick2 t in
  (y < x ->
     Web.numberHand (Web.player (Web.game t'))
     = delete i (Web.numberHand (Web.player (Web.game t))))
  /\ (x < y ->
     Web.numberHand (Web.ai (Web.game t')) = Web.numberHand (Web.ai (Web.game t))).
Proof.
  intros Hfind Hai Hp Ha Hx0 Hx7 Hy0 Hy7 Hty. cbv zeta.
  unfold Web.playNumberCard, Web.removeCard. rewrite Hfind.
  unfold Web.resolveRound.
  cbn [Web.game Web.set_game Web.tempPlayedPlayer Web.tempPlayedAi
       Web.set_tempPlayedPlayer Web.set_side].
  rewrite Hai. unfold Web.playedNumber. rewrite Hp, Ha.
  rewrite (proj2 (Z.eqb_neq x 0)), (proj2 (Z.eqb_neq x 7)),
    (proj2 (Z.eqb_neq y 0)), (proj2 (Z.eqb_neq y 7)) by done.
  unfold Web.determineWinner. rewrite Hp, Ha. cbn [Web.jsGreater].
  split; intros Hlt.
  - rewrite (proj2 (Z.ltb_lt y x)) by done.
    match goal with
    | |- context [Web.applyRoundResult _ _ ?pc ?ac ?T] =>
        pose proof (WebShedFacts.applyRoundResult_winner sortHand Web.Human pc ac T) as H
    end.
    cbn [Web.game Web.set_game Web.set_tempPlayedPlayer Web.actionDeck Web.sideOf
         Web.player Web.numberHand Web.set_hands] in H.
    exact (H Hty).
  - rewrite (proj2 (Z.ltb_ge y x)) by lia. rewrite (proj2 (Z.ltb_lt x y)) by done.
    match goal with
    | |- context [Web.applyRoundResult _ _ ?pc ?ac ?T] =>
        pose proof (WebShedFacts.applyRoundResult_winner sortHand Web.Computer pc ac T) as H
    end.
    cbn [Web.game Web.set_game Web.set_tempPlayedPlayer Web.actionDeck Web.sideOf
         Web.ai Web.numberHand Web.set_hands] in H.
    exact (H Hty).
Qed.

Lemma web_winner_sheds_only_if_human_witness :
  Web.numberHand
    (Web.ai (Web.game
       (Web.playNumberCard (fun l => l) "n5" 0 0
          (Web.mkTable
             (Web.mkGame (Web.mkDeck Web.NumberCard [Spec.twoCard])
                (Web.mkDeck Web.ActionCard [Spec.blockCard])
                (Web.mkPlayer "Player" false [Spec.fiveCard] [] 0 false)
                (Web.mkPlayer "AI" true [Spec.nineCard] [] 1 false)
                1 Web.PLAY_NUMBER None (Some Spec.nineCard))
             None None))))
  = [Spec.nineCard].
Proof.
  refine (proj2 (web_winner_sheds_only_if_human (fun l => l) "n5" 0 Spec.fiveCard
                   Spec.nineCard 5 9 0 0
                   (Web.mkTable
                      (Web.mkGame (Web.mkDeck Web.NumberCard [Spec.twoCard])
                         (Web.mkDeck Web.ActionCard [Spec.blockCard])
                         (Web.mkPlayer "Player" false [Spec.fiveCard] [] 0 false)
                         (Web.mkPlayer "AI" true [Spec.nineCard] [] 1 false)
                         1 Web.PLAY_NUMBER None (Some Spec.nineCard))
                      None None)
                   _ _ _ _ _ _ _ _ _) _);
    try reflexivity; try lia.
  repeat constructor.
Defined.
